(** * Vectorized table scan (codegen/operator/table_scan_translator.cpp)

    A shallow embedding of the scan translator.  The translator is a code
    generator: at query-compile time it walks the plan, checks its
    programming contracts and emits the loops of the scan; the emitted code
    then runs once per tile group.  The embedding keeps the two stages apart:

    - compile time is the [result] monad ([PELOTON_ASSERT] may stop it);
    - an [llvm::Value*] is a function of the row the emitted code works on
      ([llvm X]), a [codegen::Value] pairs such functions with its static
      SQL type;
    - emitted loops are [while] loops with fuel, running on the selection
      vector, and the calls into the runtime are recorded in a call log. *)

From stdpp Require Import base numbers list strings sorting.
From Stdlib Require Import DecimalString.

Local Open Scope Z_scope.

(** ** 32-bit integer instructions of the IR builder *)

Definition wrap32 (z : Z) : Z := z `mod` 2 ^ 32.

Definition Const32 (z : Z) : Z := wrap32 z.
Definition CreateAdd (a b : Z) : Z := wrap32 (a + b).
Definition CreateSub (a b : Z) : Z := wrap32 (a - b).
Definition CreateMul (a b : Z) : Z := wrap32 (a * b).
Definition CreateUDiv (a b : Z) : Z := a `div` b.
Definition CreateICmpULT (a b : Z) : bool := a <? b.
Definition CreateZExt (b : bool) : Z := Z.b2z b.

(** ** Compile-time contracts *)

Inductive result (A : Type) : Type :=
| Ok (a : A)
| AssertionFailure.
Arguments Ok {A} a.
Arguments AssertionFailure {A}.

Definition result_bind {A B} (m : result A) (k : A -> result B) : result B :=
  match m with
  | Ok a => k a
  | AssertionFailure => AssertionFailure
  end.

Notation "x <~ m ;; k" := (result_bind m (fun x => k))
  (at level 20, m at level 99, k at level 200, only parsing).

(** Modelled from the spec: the macro PELOTON_ASSERT (common/macros.h) is not
    part of this file; a violated assertion is a fatal programming-contract
    error that stops code generation. *)
Definition PELOTON_ASSERT (cond : bool) : result unit :=
  if cond then Ok tt else AssertionFailure.

(** ** Emitted loops *)

(** A loop of the emitted code: [cond] is the branch at the loop head, [body]
    one trip through the loop block.  [None] is a run that did not reach the
    exit within [fuel] trips. *)
Fixpoint while {S : Type} (fuel : nat) (cond : S -> bool) (body : S -> S)
    (s : S) : option S :=
  match fuel with
  | O => None
  | S fuel' => if cond s then while fuel' cond body (body s) else Some s
  end.

(** ** SQL types and values *)

Inductive SqlType : Type :=
| Invalid | Boolean | TinyInt | SmallInt | Integer | BigInt | Date | Timestamp.

Global Instance SqlType_eq_dec : EqDecision SqlType.
Proof. solve_decision. Defined.

Record Type_ : Type := mkType { GetSqlType : SqlType; nullable : bool }.

Global Instance Type__eq_dec : EqDecision Type_.
Proof. solve_decision. Defined.

(** What the emitted code reads while it works on one row: the tile group and
    the row's TID.  For the lane loop the row is the first row of the lane. *)
Definition TileGroupAccess : Type := nat -> Z -> Z.

Record RowEnv : Type := mkRowEnv { row_access : TileGroupAccess; row_tid : Z }.

Definition llvm (X : Type) : Type := RowEnv -> X.

(** Modelled from the spec: codegen::Value (codegen/value.h) is not part of
    this file.  A value has a static SQL type, an IR value and an optional
    null indicator; the IR values are scalars or vectors of lanes.  A missing null indicator (nullptr) reads as not null. *)
Record Value (X B : Type) : Type := mkValue {
  GetType : Type_;
  GetValue : llvm X;
  null_ : option (llvm B)
}.
Arguments mkValue {X B} _ _ _.
Arguments GetType {X B} _.
Arguments GetValue {X B} _.
Arguments null_ {X B} _.

Record LaneOps (F : Type -> Type) : Type := mkLaneOps {
  lane_pure : forall A, A -> F A;
  lane_map : forall A B, (A -> B) -> F A -> F B;
  lane_map2 : forall A B C, (A -> B -> C) -> F A -> F B -> F C
}.
Arguments lane_pure {F} _ {A} _.
Arguments lane_map {F} _ {A B} _ _.
Arguments lane_map2 {F} _ {A B C} _ _ _.

Definition scalar (X : Type) : Type := X.

Definition scalar_ops : LaneOps scalar :=
  {| lane_pure := fun _ x => x;
     lane_map := fun _ _ f x => f x;
     lane_map2 := fun _ _ _ f x y => f x y |}.

Definition vector_ops (n : nat) : LaneOps list :=
  {| lane_pure := fun _ x => replicate n x;
     lane_map := fun _ _ f l => f <$> l;
     lane_map2 := fun _ _ _ f l k => zip_with f l k |}.

(** ** The selection vector *)

(** Modelled from the spec: codegen::Vector (codegen/vector.h) is not part of
    this file.  A selection vector is a backing buffer of fixed capacity and
    a current count; the selected rows are the first [num_elements] entries.
    The emitted code accesses the buffer unchecked: a store past the
    capacity corrupts memory in the C++ program, here it leaves the buffer
    as it is, and a load past the capacity reads 0. *)
Module Vector.
Record t : Type := mk { vector_ptr : list Z; num_elements : Z }.

Definition GetCapacity (v : t) : Z := Z.of_nat (length (vector_ptr v)).
Definition GetNumElements (v : t) : Z := num_elements v.
Definition SetNumElements (n : Z) (v : t) : t := mk (vector_ptr v) n.
Definition GetValue (v : t) (index : Z) : Z :=
  default 0 (vector_ptr v !! Z.to_nat index).
Definition SetValue (index item : Z) (v : t) : t :=
  mk (<[Z.to_nat index := item]> (vector_ptr v)) (num_elements v).

(** The rows the vector selects. *)
Definition selected (v : t) : list Z :=
  take (Z.to_nat (num_elements v)) (vector_ptr v).
End Vector.

(** ** Plans and expressions *)

Record AttributeInfo : Type := mkAttributeInfo {
  attribute_id : nat;
  type : Type_
}.

Global Instance AttributeInfo_eq_dec : EqDecision AttributeInfo.
Proof. solve_decision. Defined.

Inductive ExpressionType : Type :=
| COMPARE_EQUAL
| COMPARE_NOTEQUAL
| COMPARE_LESSTHAN
| COMPARE_GREATERTHAN
| COMPARE_LESSTHANOREQUALTO
| COMPARE_GREATERTHANOREQUALTO
| COMPARE_LIKE
| COMPARE_IN
| CONJUNCTION_AND
| CONJUNCTION_OR
| OPERATOR_PLUS.

(** The operands the lane path tells apart by dynamic_cast: a constant, or
    else a column reference (the code static_casts everything that is not a
    constant to a tuple value expression). *)
Inductive OperandExpression : Type :=
| ConstantValueExpression (value_type : SqlType) (value : option Z)
| TupleValueExpression (ai : AttributeInfo).

(** A SIMD predicate of the plan: an expression with two children. *)
Record ComparisonExpression : Type := mkComparison {
  GetExpressionType : ExpressionType;
  GetChild0 : OperandExpression;
  GetChild1 : OperandExpression
}.

(** Any other expression, as the scan sees it: its static type and the
    code its translator emits for a row (value and null indicator). *)
Record AbstractExpression : Type := mkExpression {
  GetValueType : SqlType;
  expression_nullable : bool;
  IsSIMDable : bool;
  expression_value : llvm bool;
  expression_is_null : llvm bool
}.

Record SeqScanPlan : Type := mkSeqScanPlan {
  GetTableName : string;
  GetPredicate : option AbstractExpression;
  GetSIMDPredicates : list ComparisonExpression;
  GetNonSIMDPredicate : option AbstractExpression;
  GetAttributes : list AttributeInfo;
  GetColumnIds : list nat
}.

(** ** Row batches *)

(** Modelled from the spec: codegen::RowBatch (codegen/row_batch.h) is not
    part of this file.  A batch is a view over the rows [tid_start, tid_end)
    of a tile group; when it is filtered only the rows of the selection
    vector are its rows, otherwise every row of the range is.  Rows are
    written back through an output tracker: the row's TID is stored at the
    tracker's position and the position advances when the row is valid.
    The batch maps attributes to their accessors, one binding per
    attribute.  The accessor this file binds to an attribute is always the
    AttributeAccess made for that attribute (lines 196 and 203, 462-465),
    so the mapping is kept by its keys: [attributes_] lists the attributes
    that have an accessor, each of them once. *)
Module RowBatch.
Record t : Type := mk {
  tile_group_id : Z;
  tid_start_ : Z;
  tid_end_ : Z;
  filtered_ : bool;
  attributes_ : list AttributeInfo
}.

Definition IsFiltered (b : t) : bool := filtered_ b.

Definition SetFiltered (filtered : bool) (b : t) : t :=
  mk (tile_group_id b) (tid_start_ b) (tid_end_ b) filtered (attributes_ b).

Definition AddAttribute (ai : AttributeInfo) (b : t) : t :=
  mk (tile_group_id b) (tid_start_ b) (tid_end_ b) (filtered_ b)
     (if decide (ai ∈ attributes_ b) then attributes_ b
      else attributes_ b ++ [ai]).

Definition GetNumValidRows (b : t) (sel : Vector.t) : Z :=
  if IsFiltered b then Vector.GetNumElements sel
  else CreateSub (tid_end_ b) (tid_start_ b).

Definition GetPhysicalPosition (b : t) (sel : Vector.t) (batch_pos : Z) : Z :=
  if IsFiltered b then Vector.GetValue sel batch_pos
  else CreateAdd (tid_start_ b) batch_pos.

Definition UpdateWritePosition (sz : Z) (b : t) (sel : Vector.t)
    : t * Vector.t :=
  (SetFiltered true b, Vector.SetNumElements sz sel).

Record OutputTracker : Type := mkTracker { target_pos_ : Z; final_pos_ : Z }.

Definition NewTracker (target_pos : Z) : OutputTracker :=
  mkTracker target_pos target_pos.

Definition GetFinalOutputPos (tracker : OutputTracker) : Z :=
  final_pos_ tracker.

Record Row : Type := mkRow { batch_ : t; batch_pos_ : Z }.

Definition GetRowAt (b : t) (batch_pos : Z) : Row := mkRow b batch_pos.

Definition GetTID (row : Row) (sel : Vector.t) : Z :=
  GetPhysicalPosition (batch_ row) sel (batch_pos_ row).

Definition SetValidity (row : Row) (valid : bool) (tracker : OutputTracker)
    (sel : Vector.t) : OutputTracker * Vector.t :=
  let delta := CreateZExt valid in
  let sel' := Vector.SetValue (target_pos_ tracker) (GetTID row sel) sel in
  (mkTracker (target_pos_ tracker) (CreateAdd (target_pos_ tracker) delta),
   sel').

Record IterationInstance : Type := mkInstance {
  start : Z;
  end_ : Z;
  write_pos : Z
}.

(** The scalar loop over the rows of a batch. *)
Definition Iterate (fuel : nat) (b : t)
    (ProcessRow : Row -> OutputTracker -> Vector.t -> OutputTracker * Vector.t)
    (sel : Vector.t) : option (t * Vector.t) :=
  let end_ := GetNumValidRows b sel in
  match
    while fuel
      (fun '(batch_pos, _, _) => CreateICmpULT batch_pos end_)
      (fun '(batch_pos, write_pos, sel) =>
         let tracker := NewTracker write_pos in
         let row := GetRowAt b batch_pos in
         let '(tracker, sel) := ProcessRow row tracker sel in
         (CreateAdd batch_pos (Const32 1), GetFinalOutputPos tracker, sel))
      (Const32 0, Const32 0, sel)
  with
  | Some (_, write_pos, sel) => Some (UpdateWritePosition write_pos b sel)
  | None => None
  end.

(** The loop over the rows of a batch in steps of [vector_size] rows. *)
Definition VectorizedIterate (fuel : nat) (b : t) (vector_size : Z)
    (ProcessRows : IterationInstance -> Vector.t -> Z * Vector.t)
    (sel : Vector.t) : option (t * Vector.t) :=
  let num_rows := GetNumValidRows b sel in
  match
    while fuel
      (fun '(start, _, _) => CreateICmpULT start num_rows)
      (fun '(start, write_pos, sel) =>
         let ins :=
           mkInstance start (Z.min (CreateAdd start (Const32 vector_size)) num_rows)
             write_pos in
         let '(write_pos, sel) := ProcessRows ins sel in
         (CreateAdd start (Const32 vector_size), write_pos, sel))
      (Const32 0, Const32 0, sel)
  with
  | Some (_, write_pos, sel) => Some (UpdateWritePosition write_pos b sel)
  | None => None
  end.
End RowBatch.

(** ** Calls into the runtime *)

Inductive RuntimeCall : Type :=
| CallGetClockStart
| CallGetClockPause
| CallPerformVectorizedRead (tid_start tid_end : Z) (raw_sel_vec : list Z) (num : Z)
| CallConsume (batch : RowBatch.t) (selection : Vector.t).

(** The state the emitted scan runs on: the selection vector the translator
    allocated for the scan, and the log of calls made so far. *)
Record State : Type := mkState {
  selection_vector_ : Vector.t;
  calls : list RuntimeCall
}.

Definition call (c : RuntimeCall) (st : State) : State :=
  mkState (selection_vector_ st) (calls st ++ [c]).

Definition set_selection (sel : Vector.t) (st : State) : State :=
  mkState sel (calls st).

Section TableScan.

(** The parts of the engine this file calls into and that are declared
    elsewhere: the type system, the storage sentinels, the content of lanes
    a masked load does not read, the transaction's view, and the vector size
    constant. *)
Variable GetNullValue : SqlType -> Z.
Variable GetComparison : Type_ -> Type_ -> Type_ * Type_.
Variable cast_raw : SqlType -> SqlType -> Z -> Z.
Variable undef : nat -> Z.
Variable IsVisible : Z -> bool.
Variable kDefaultVectorSize : Z.

(** *** codegen::Value *)

Section ValueOps.
Context {F : Type -> Type} (ops : LaneOps F).

Definition IsNullable {X B} (v : Value X B) : bool := nullable (GetType v).

Definition IsNull {X} (v : Value X (F bool)) : llvm (F bool) :=
  match null_ v with
  | Some n => n
  | None => fun _ => lane_pure ops false
  end.

(** Modelled from the spec: Value::CastTo; the value is converted to the
    target SQL type and the null indicator of the original is kept. *)
Definition CastTo (v : Value (F Z) (F bool)) (to : Type_)
    : Value (F Z) (F bool) :=
  mkValue to
    (fun env => lane_map ops
       (cast_raw (GetSqlType (GetType v)) (GetSqlType to)) (GetValue v env))
    (null_ v).

(** Modelled from the spec: Value::CompareEq and its five siblings.  Both
    operands are cast to the common comparison type and compared lane by
    lane; the result is a boolean that is null where an operand is null. *)
Definition Compare (cmp : Z -> Z -> bool) (l r : Value (F Z) (F bool))
    : Value (F bool) (F bool) :=
  let '(left_cast, right_cast) := GetComparison (GetType l) (GetType r) in
  let left := CastTo l left_cast in
  let right := CastTo r right_cast in
  let is_nullable := IsNullable l || IsNullable r in
  mkValue (mkType Boolean is_nullable)
    (fun env => lane_map2 ops cmp (GetValue left env) (GetValue right env))
    (if is_nullable
     then Some (fun env => lane_map2 ops orb (IsNull l env) (IsNull r env))
     else None).

Definition CompareEq := Compare Z.eqb.
Definition CompareNe := Compare (fun a b => negb (a =? b)).
Definition CompareLt := Compare Z.ltb.
Definition CompareLte := Compare Z.leb.
Definition CompareGt := Compare Z.gtb.
Definition CompareGte := Compare Z.geb.

(** A default-constructed value: no SQL type. *)
Definition Value_default : Value (F bool) (F bool) :=
  mkValue (mkType Invalid false) (fun _ => lane_pure ops false) None.

(** Modelled from the spec: type::Boolean::Reify turns a three-valued
    boolean into a filter decision, null counting as false. *)
Definition Reify (bool_val : Value (F bool) (F bool)) : llvm (F bool) :=
  if IsNullable bool_val
  then fun env =>
         lane_map2 ops (fun (is_null val : bool) => if is_null then false else val)
           (IsNull bool_val env) (GetValue bool_val env)
  else GetValue bool_val.
End ValueOps.

(** *** Attribute access (lines 695-709) *)

(** Modelled from the spec: TileGroupAccess::Row::LoadColumn is not part of
    this file.  It reads the stored value of the column for the row; for a
    nullable column the value is null when it is the null value of its type,
    which is the test the lane path makes on what it loads (lines 517-525). *)
Definition LoadColumn (ai : AttributeInfo) : Value (scalar Z) (scalar bool) :=
  let raw : llvm Z := fun env => row_access env (attribute_id ai) (row_tid env) in
  mkValue (type ai) raw
    (if nullable (type ai)
     then Some (fun env => raw env =? GetNullValue (GetSqlType (type ai)))
     else None).

Definition Access (ai : AttributeInfo) : Value (scalar Z) (scalar bool) :=
  LoadColumn ai.

(** The address of the row's value of the column: a column and a TID. *)
Definition GetFixedLengthPtr (ai : AttributeInfo) : llvm (nat * Z) :=
  fun env => (attribute_id ai, row_tid env).

(** *** Vector instructions *)

Definition getAllOnesValue (n : Z) : list bool := replicate (Z.to_nat n) true.

Definition CreateVectorSplat {A} (n : Z) (v : A) : list A :=
  replicate (Z.to_nat n) v.

Definition CreateExtractElement (v : list bool) (i : nat) : bool :=
  default false (v !! i).

Definition CreateAnd (a b : list bool) : list bool := zip_with andb a b.

(** A masked load of consecutive values of a column, starting at the row
    [ptr] points to: the storage of a column is contiguous, lane [i] holds
    the value of the row [i] places further on; a lane whose mask bit is off
    is not read and holds an unspecified value. *)
Definition CreateMaskedLoad (ptr : llvm (nat * Z)) (mask : llvm (list bool))
    : llvm (list Z) :=
  fun env =>
    imap (fun i (m : bool) =>
            if m then row_access env (ptr env).1 ((ptr env).2 + Z.of_nat i)
            else undef i)
         (mask env).

(** *** Expressions of a row *)

Definition Operand_GetValueType (exp : OperandExpression) : SqlType :=
  match exp with
  | ConstantValueExpression value_type _ => value_type
  | TupleValueExpression ai => GetSqlType (type ai)
  end.

Definition Operand_IsNullable (exp : OperandExpression) : bool :=
  match exp with
  | ConstantValueExpression _ value => bool_decide (value = None)
  | TupleValueExpression ai => nullable (type ai)
  end.

(** Modelled from the spec: Row::DeriveValue on an operand runs the
    operand's translator.  A constant yields its value, the NULL constant
    the null value of its type with the null indicator set; a column
    reference goes through the batch's accessor for the attribute. *)
Definition DeriveValue (exp : OperandExpression)
    : Value (scalar Z) (scalar bool) :=
  match exp with
  | ConstantValueExpression value_type (Some v) =>
      mkValue (mkType value_type false) (fun _ => v) None
  | ConstantValueExpression value_type None =>
      mkValue (mkType value_type true) (fun _ => GetNullValue value_type)
        (Some (fun _ => true))
  | TupleValueExpression ai => Access ai
  end.

(** The switch over the comparison kind (lines 566-587); any other kind
    leaves the default-constructed value. *)
Definition CompareSwitch {F} (ops : LaneOps F) (kind : ExpressionType)
    (val_lhs val_rhs : Value (F Z) (F bool)) : Value (F bool) (F bool) :=
  match kind with
  | COMPARE_EQUAL => CompareEq ops val_lhs val_rhs
  | COMPARE_NOTEQUAL => CompareNe ops val_lhs val_rhs
  | COMPARE_LESSTHAN => CompareLt ops val_lhs val_rhs
  | COMPARE_LESSTHANOREQUALTO => CompareLte ops val_lhs val_rhs
  | COMPARE_GREATERTHAN => CompareGt ops val_lhs val_rhs
  | COMPARE_GREATERTHANOREQUALTO => CompareGte ops val_lhs val_rhs
  | _ => Value_default ops
  end.

(** Modelled from the spec: Row::DeriveValue on a SIMD predicate runs the
    general scalar evaluator: both children are derived for the row and
    compared by the predicate's comparison. *)
Definition DeriveValue_comparison (simd_predicate : ComparisonExpression)
    : Value (scalar bool) (scalar bool) :=
  CompareSwitch scalar_ops (GetExpressionType simd_predicate)
    (DeriveValue (GetChild0 simd_predicate))
    (DeriveValue (GetChild1 simd_predicate)).

(** Modelled from the spec: Row::DeriveValue on any other expression is the
    code of the expression's translator, typed by the expression. *)
Definition DeriveValue_expression (exp : AbstractExpression)
    : Value (scalar bool) (scalar bool) :=
  mkValue (mkType (GetValueType exp) (expression_nullable exp))
    (expression_value exp)
    (if expression_nullable exp then Some (expression_is_null exp) else None).

(** *** TableScanTranslator::TableScanTranslator (lines 41-72) *)

(** An expression of the plan handed to CompilationContext::Prepare. *)
Inductive PlanExpression : Type :=
| GeneralExpression (e : AbstractExpression)
| SIMDExpression (e : ComparisonExpression).

(** What the constructor asks of the compilation context and of the
    pipeline. *)
Inductive TranslatorCall : Type :=
| CallPrepare (e : PlanExpression)
| CallInstallBoundaryAtOutput.

(** The loop over the SIMD predicates (lines 61-65).  The plan holds them by
    pointer and the loop passes over a null pointer. *)
Definition PrepareSIMDPredicates
    (simd_predicates : list (option ComparisonExpression))
    : list TranslatorCall :=
  fold_left
    (fun calls simd_predicate =>
       match simd_predicate with
       | Some e => calls ++ [CallPrepare (SIMDExpression e)]
       | None => calls
       end)
    simd_predicates [].

(** The constructor, as the calls it makes, in order.  The SIMD predicates
    of a [SeqScanPlan] are the predicates themselves (the filter
    dereferences every one of them), so here none of the pointers is null. *)
Definition TableScanTranslator (scan : SeqScanPlan) : list TranslatorCall :=
  let calls :=
    match GetPredicate scan with
    | Some predicate =>
        let calls := [CallPrepare (GeneralExpression predicate)] in
        if IsSIMDable predicate
        then calls ++ [CallInstallBoundaryAtOutput]
        else calls
    | None => []
    end in
  let calls := calls ++ PrepareSIMDPredicates (Some <$> GetSIMDPredicates scan) in
  match GetNonSIMDPredicate scan with
  | Some non_simd_predicate =>
      calls ++ [CallPrepare (GeneralExpression non_simd_predicate)]
  | None => calls
  end.

(** *** TableScanTranslator::GetName (lines 117-125) *)

Definition to_string (z : Z) : string := NilZero.string_of_uint (N.to_uint (Z.to_N z)).

Definition GetName (scan : SeqScanPlan) : string :=
  let name := "Scan('" +:+ GetTableName scan +:+ "'" in
  let name :=
    match GetPredicate scan with
    | Some predicate =>
        if IsSIMDable predicate
        then name +:+ ", " +:+ to_string kDefaultVectorSize
        else name
    | None => name
    end in
  name +:+ ")".

(** *** ScanConsumer::FilterRowsByPredicate (lines 247-689) *)

(** The lane width (line 262). *)
Definition N : Z := 32.

(** One operand of a SIMD predicate across the lanes (lines 502-529 for the
    left child, 531-558 for the right one): a constant is evaluated once and
    broadcast, without a null indicator; a column is loaded under the
    current mask, and when it is nullable its null lanes are the lanes
    holding the null value of the type. *)
Definition lane_operand (exp : OperandExpression) (orig_typ cast_typ : Type_)
    (mask : llvm (list bool))
    : llvm (list Z) * option (llvm (list bool)) :=
  match exp with
  | ConstantValueExpression _ _ =>
      let eval_row := DeriveValue exp in
      let ins_val := GetValue (CastTo scalar_ops eval_row cast_typ) in
      (fun env => CreateVectorSplat N (ins_val env), None)
  | TupleValueExpression ai =>
      let ptr := GetFixedLengthPtr ai in
      let uncasted := CreateMaskedLoad ptr mask in
      if nullable orig_typ then
        let sql_type := GetSqlType orig_typ in
        let val_tmp := mkValue (mkType sql_type false) uncasted None in
        let null_val :=
          mkValue (mkType sql_type false)
            (fun _ => CreateVectorSplat N (GetNullValue sql_type)) None in
        let val_is_null := CompareEq (vector_ops (Z.to_nat N)) val_tmp null_val in
        let is_null := GetValue val_is_null in
        let cast_val :=
          CastTo (vector_ops (Z.to_nat N))
            (mkValue orig_typ uncasted (Some is_null)) cast_typ in
        (GetValue cast_val, Some is_null)
      else
        (GetValue
           (CastTo (vector_ops (Z.to_nat N)) (mkValue orig_typ uncasted None)
              cast_typ),
         None)
  end.

(** The comparison of one SIMD predicate across the lanes (lines 476-587). *)
Definition lane_comp_val (simd_predicate : ComparisonExpression)
    (mask : llvm (list bool)) : Value (list bool) (list bool) :=
  let exp_lch := GetChild0 simd_predicate in
  let exp_rch := GetChild1 simd_predicate in
  let orig_typ_lch :=
    mkType (Operand_GetValueType exp_lch) (Operand_IsNullable exp_lch) in
  let orig_typ_rch :=
    mkType (Operand_GetValueType exp_rch) (Operand_IsNullable exp_rch) in
  let '(cast_lch, cast_rch) := GetComparison orig_typ_lch orig_typ_rch in
  let cast_typ_lch := mkType (GetSqlType cast_lch) (nullable orig_typ_lch) in
  let cast_typ_rch := mkType (GetSqlType cast_rch) (nullable orig_typ_rch) in
  let '(lhs, lhs_is_null) :=
    lane_operand exp_lch orig_typ_lch cast_typ_lch mask in
  let '(rhs, rhs_is_null) :=
    lane_operand exp_rch orig_typ_rch cast_typ_rch mask in
  let val_lhs := mkValue cast_typ_lch lhs lhs_is_null in
  let val_rhs := mkValue cast_typ_rch rhs rhs_is_null in
  CompareSwitch (vector_ops (Z.to_nat N)) (GetExpressionType simd_predicate)
    val_lhs val_rhs.

(** The loop over the SIMD predicates inside the lane callback (lines
    475-593): each comparison is checked to be boolean, reified and
    and-ed into the mask. *)
Fixpoint lane_mask (simd_predicates : list ComparisonExpression)
    (mask : llvm (list bool)) : result (llvm (list bool)) :=
  match simd_predicates with
  | [] => Ok mask
  | simd_predicate :: rest =>
      let comp_val := lane_comp_val simd_predicate mask in
      checked <~ PELOTON_ASSERT
             (bool_decide (GetSqlType (GetType comp_val) = Boolean)) ;;
      let bool_val := Reify (vector_ops (Z.to_nat N)) comp_val in
      lane_mask rest (fun env => CreateAnd (mask env) (bool_val env))
  end.

(** The scatter of a mask into the selection vector (lines 595-601). *)
Definition scatter (batch : RowBatch.t) (ins_start : Z) (mask : list bool)
    (final_pos : Z) (sel : Vector.t) : Z * Vector.t :=
  fold_left
    (fun '(final_pos, sel) i =>
       let tracker := RowBatch.NewTracker final_pos in
       let row :=
         RowBatch.GetRowAt batch (CreateAdd ins_start (Const32 (Z.of_nat i))) in
       let '(tracker, sel) :=
         RowBatch.SetValidity row (CreateExtractElement mask i) tracker sel in
       (RowBatch.GetFinalOutputPos tracker, sel))
    (seq 0 (Z.to_nat N)) (final_pos, sel).

(** The callback of the vectorized iteration (lines 468-604). *)
Definition ProcessRows (simd_predicates : list ComparisonExpression)
    : result (TileGroupAccess -> RowBatch.t -> RowBatch.IterationInstance ->
              Vector.t -> Z * Vector.t) :=
  mask <~ lane_mask simd_predicates (fun _ => getAllOnesValue N) ;;
  Ok (fun access batch ins sel =>
        let first_row := RowBatch.GetRowAt batch (RowBatch.start ins) in
        let env := mkRowEnv access (RowBatch.GetTID first_row sel) in
        scatter batch (RowBatch.start ins) (mask env) (RowBatch.write_pos ins) sel).

(** The loop over the SIMD predicates in the remainder loop (lines
    631-640). *)
Fixpoint row_mask (simd_predicates : list ComparisonExpression)
    (mask : llvm bool) : result (llvm bool) :=
  match simd_predicates with
  | [] => Ok mask
  | simd_predicate :: rest =>
      let valid_row := DeriveValue_comparison simd_predicate in
      checked <~ PELOTON_ASSERT
             (bool_decide (GetSqlType (GetType valid_row) = Boolean)) ;;
      let bool_val := Reify scalar_ops valid_row in
      row_mask rest (fun env => mask env && bool_val env)
  end.

(** The remainder loop (lines 608-650), from [idx_cur] and [write_pos] on. *)
Definition loopPostBatch (fuel : nat) (batch : RowBatch.t)
    (access : TileGroupAccess) (mask : llvm bool) (orig_size : Z)
    (idx_cur write_pos : Z) (sel : Vector.t) : option (Z * Z * Vector.t) :=
  while fuel
    (fun '(idx_cur, _, _) => CreateICmpULT idx_cur orig_size)
    (fun '(idx_cur, write_pos, sel) =>
       let tracker := RowBatch.NewTracker write_pos in
       let row := RowBatch.GetRowAt batch idx_cur in
       let env := mkRowEnv access (RowBatch.GetTID row sel) in
       let '(tracker, sel) := RowBatch.SetValidity row (mask env) tracker sel in
       (CreateAdd idx_cur (Const32 1), RowBatch.GetFinalOutputPos tracker, sel))
    (idx_cur, write_pos, sel).

(** The callback of the residual pass (lines 673-685). *)
Definition ProcessRow (non_simd_predicate : AbstractExpression)
    : result (TileGroupAccess -> RowBatch.Row -> RowBatch.OutputTracker ->
              Vector.t -> RowBatch.OutputTracker * Vector.t) :=
  let valid_row := DeriveValue_expression non_simd_predicate in
  checked <~ PELOTON_ASSERT
         (bool_decide (GetSqlType (GetType valid_row) = Boolean)) ;;
  let bool_val := Reify scalar_ops valid_row in
  Ok (fun access row tracker sel =>
        let env := mkRowEnv access (RowBatch.GetTID row sel) in
        RowBatch.SetValidity row (bool_val env) tracker sel).

(** The residual predicate of the filter (lines 253-260): the plan's
    non-SIMD predicate, or the whole predicate when the plan has neither
    SIMD predicates nor a non-SIMD predicate. *)
Definition residual_predicate (scan : SeqScanPlan) : option AbstractExpression :=
  match GetSIMDPredicates scan, GetNonSIMDPredicate scan with
  | [], None => GetPredicate scan
  | _, non_simd_predicate => non_simd_predicate
  end.

(** The emitted code of a chunk step: fuel, tile group, row range, state. *)
Definition ChunkCode : Type :=
  nat -> TileGroupAccess -> Z -> Z -> State -> option State.

(** The first pass over the row range (lines 444-650): the lane loop over
    the aligned prefix, then the remainder loop. *)
Definition FilterRowsByPredicate_simd
    (lane_code : TileGroupAccess -> RowBatch.t -> RowBatch.IterationInstance ->
                 Vector.t -> Z * Vector.t)
    (mask : llvm bool) (tile_group_id_ : Z) (fuel : nat)
    (access : TileGroupAccess) (tid_start tid_end : Z)
    (selection_vector : Vector.t) : option Vector.t :=
  let align_start := tid_start in
  let orig_size := CreateSub tid_end tid_start in
  let align_size := CreateMul (Const32 N) (CreateUDiv orig_size (Const32 N)) in
  let align_end := CreateAdd tid_start align_size in
  let batch := RowBatch.mk tile_group_id_ align_start align_end false [] in
  '(batch, selection_vector) ←
    RowBatch.VectorizedIterate fuel batch N (lane_code access batch)
      selection_vector;
  let batch := RowBatch.SetFiltered false batch in
  '(_, write_pos, selection_vector) ←
    loopPostBatch fuel batch access mask orig_size align_size
      (Vector.GetNumElements selection_vector) selection_vector;
  let '(_, selection_vector) :=
    RowBatch.UpdateWritePosition write_pos batch selection_vector in
  Some selection_vector.

(** The second pass, over the selection vector (lines 653-686). *)
Definition FilterRowsByPredicate_residual
    (residual_code : option (TileGroupAccess -> RowBatch.Row ->
                             RowBatch.OutputTracker -> Vector.t ->
                             RowBatch.OutputTracker * Vector.t))
    (tile_group_id_ : Z) (fuel : nat) (access : TileGroupAccess)
    (tid_start tid_end : Z) (selection_vector : Vector.t) : option Vector.t :=
  match residual_code with
  | Some code =>
      let batch := RowBatch.mk tile_group_id_ tid_start tid_end true [] in
      '(_, selection_vector) ←
        RowBatch.Iterate fuel batch (code access) selection_vector;
      Some selection_vector
  | None => Some selection_vector
  end.

Definition FilterRowsByPredicate (scan : SeqScanPlan) (tile_group_id_ : Z)
    : result ChunkCode :=
  let simd_predicates := GetSIMDPredicates scan in
  let non_simd_predicate := residual_predicate scan in
  lane_code <~ ProcessRows simd_predicates ;;
  mask <~ row_mask simd_predicates (fun _ => true) ;;
  residual_code <~
    match non_simd_predicate with
    | Some predicate => (code <~ ProcessRow predicate ;; Ok (Some code))
    | None => Ok None
    end ;;
  Ok (fun fuel access tid_start tid_end st =>
        let st := call CallGetClockStart st in
        selection_vector ←
          FilterRowsByPredicate_simd lane_code mask tile_group_id_ fuel access
            tid_start tid_end (selection_vector_ st);
        selection_vector ←
          FilterRowsByPredicate_residual residual_code tile_group_id_ fuel
            access tid_start tid_end selection_vector;
        Some (call CallGetClockPause (set_selection selection_vector st))).

(** *** ScanConsumer::FilterRowsByVisibility (lines 209-229) *)

(** Modelled from the spec: TransactionRuntime::PerformVectorizedRead is not
    part of this file.  It receives the row range and the current selection
    (or the full range when the selection is unfiltered, which the count -1
    says), and writes the rows of it the transaction sees into the same
    buffer, in ascending order, returning their number. *)
Definition PerformVectorizedRead (tid_start tid_end : Z)
    (raw_sel_vec : list Z) (num : Z) : list Z * Z :=
  let candidates :=
    if bool_decide (num = Const32 (-1))
    then seqZ tid_start (tid_end - tid_start)
    else take (Z.to_nat num) raw_sel_vec in
  let visible := List.filter IsVisible candidates in
  (visible ++ drop (length visible) raw_sel_vec, Z.of_nat (length visible)).

Definition FilterRowsByVisibility (tid_start tid_end : Z) (st : State) : State :=
  let selection_vector := selection_vector_ st in
  let raw_sel_vec := Vector.vector_ptr selection_vector in
  let num := Vector.GetNumElements selection_vector in
  let '(buffer, out_idx) :=
    PerformVectorizedRead tid_start tid_end raw_sel_vec num in
  let st := call (CallPerformVectorizedRead tid_start tid_end raw_sel_vec num) st in
  set_selection (Vector.SetNumElements out_idx (Vector.mk buffer num)) st.

(** *** ScanConsumer::SetupRowBatch (lines 183-207) *)

(** An accessor is made for every output column id of the plan and added
    to the batch for the attribute at that index;
    [ais[output_col_ids[col_idx]]] is unchecked in the C++ program, a column
    id outside the attributes adds nothing here. *)
Definition SetupRowBatch (scan : SeqScanPlan) (batch : RowBatch.t) : RowBatch.t :=
  let ais := GetAttributes scan in
  let output_col_ids := GetColumnIds scan in
  fold_left
    (fun batch col_id =>
       match ais !! col_id with
       | Some attribute => RowBatch.AddAttribute attribute batch
       | None => batch
       end)
    output_col_ids batch.

(** *** ScanConsumer::ProcessTuples (lines 142-181) *)

Definition ProcessTuples (scan : SeqScanPlan) (tile_group_id_ : Z)
    : result ChunkCode :=
  filter_code <~
    match GetPredicate scan with
    | Some _ =>
        (code <~ FilterRowsByPredicate scan tile_group_id_ ;; Ok (Some code))
    | None => Ok None
    end ;;
  Ok (fun fuel access tid_start tid_end st =>
        st ←
          match filter_code with
          | Some code => code fuel access tid_start tid_end st
          | None =>
              Some (set_selection
                      (Vector.SetNumElements (Const32 (-1)) (selection_vector_ st))
                      st)
          end;
        let st := FilterRowsByVisibility tid_start tid_end st in
        let batch := RowBatch.mk tile_group_id_ tid_start tid_end true [] in
        let batch := SetupRowBatch scan batch in
        Some (call (CallConsume batch (selection_vector_ st)) st)).

(** ** Reference functions of the theorems *)

(** Writing a list of rows through an output tracker, one after the other:
    every TID is stored at the cursor, the cursor moves on for a valid row. *)
Definition emit (valid : Z -> bool) (tids : list Z) (pos : Z) (sel : Vector.t)
    : Z * Vector.t :=
  fold_left
    (fun '(pos, sel) tid =>
       (CreateAdd pos (CreateZExt (valid tid)), Vector.SetValue pos tid sel))
    tids (pos, sel).

(** The rows of the range [tid_start, tid_end). *)
Definition row_range (tid_start tid_end : Z) : list Z :=
  seqZ tid_start (tid_end - tid_start).

(** The six comparison kinds of the switch. *)
Definition is_comparison (kind : ExpressionType) : bool :=
  match kind with
  | COMPARE_EQUAL | COMPARE_NOTEQUAL | COMPARE_LESSTHAN
  | COMPARE_LESSTHANOREQUALTO | COMPARE_GREATERTHAN
  | COMPARE_GREATERTHANOREQUALTO => true
  | _ => false
  end.

(** The mask the lane callback computes, without its assertions. *)
Definition lane_mask_of (simd_predicates : list ComparisonExpression)
    (mask : llvm (list bool)) : llvm (list bool) :=
  fold_left
    (fun mask simd_predicate env =>
       CreateAnd (mask env)
         (Reify (vector_ops (Z.to_nat N)) (lane_comp_val simd_predicate mask) env))
    simd_predicates mask.

(** The mask the remainder loop computes, without its assertions. *)
Definition row_mask_of (simd_predicates : list ComparisonExpression)
    (mask : llvm bool) : llvm bool :=
  fold_left
    (fun mask simd_predicate env =>
       mask env && Reify scalar_ops (DeriveValue_comparison simd_predicate) env)
    simd_predicates mask.

(** The decision of the lane path on a row of the aligned prefix: the bit
    of the row's lane in the mask of its lane group. *)
Definition lane_valid (mask : llvm (list bool)) (access : TileGroupAccess)
    (tid_start : Z) (tid : Z) : bool :=
  let pos := tid - tid_start in
  CreateExtractElement (mask (mkRowEnv access (tid_start + N * (pos `div` N))))
    (Z.to_nat (pos `mod` N)).

(** The decision of the scalar path on a row. *)
Definition row_valid (mask : llvm bool) (access : TileGroupAccess) (tid : Z)
    : bool :=
  mask (mkRowEnv access tid).

(** The decision of the first pass of the predicate filter on a row: by
    lanes in the aligned prefix, by the scalar loop in the remainder. *)
Definition pass_valid (lane : llvm (list bool)) (row : llvm bool)
    (access : TileGroupAccess) (tid_start tid_end : Z) (tid : Z) : bool :=
  let orig_size := tid_end - tid_start in
  let align_size := N * (orig_size `div` N) in
  if tid - tid_start <? align_size
  then lane_valid lane access tid_start tid
  else row_valid row access tid.

Definition simd_valid (simd_predicates : list ComparisonExpression)
    (access : TileGroupAccess) (tid_start tid_end : Z) (tid : Z) : bool :=
  pass_valid (lane_mask_of simd_predicates (fun _ => getAllOnesValue N))
    (row_mask_of simd_predicates (fun _ => true)) access tid_start tid_end tid.

(** The code the lane callback emits for a mask. *)
Definition lane_code_of (mask : llvm (list bool)) (access : TileGroupAccess)
    (batch : RowBatch.t) (ins : RowBatch.IterationInstance) (sel : Vector.t)
    : Z * Vector.t :=
  let first_row := RowBatch.GetRowAt batch (RowBatch.start ins) in
  let env := mkRowEnv access (RowBatch.GetTID first_row sel) in
  scatter batch (RowBatch.start ins) (mask env) (RowBatch.write_pos ins) sel.

(** The code the residual callback emits for a predicate. *)
Definition residual_code_of (non_simd_predicate : AbstractExpression)
    (access : TileGroupAccess) (row : RowBatch.Row)
    (tracker : RowBatch.OutputTracker) (sel : Vector.t)
    : RowBatch.OutputTracker * Vector.t :=
  let env := mkRowEnv access (RowBatch.GetTID row sel) in
  RowBatch.SetValidity row
    (Reify scalar_ops (DeriveValue_expression non_simd_predicate) env)
    tracker sel.

(** All the values the filter reifies have the boolean SQL type. *)
Definition reified_values_boolean (scan : SeqScanPlan) : Prop :=
  (forall simd_predicate mask,
     simd_predicate ∈ GetSIMDPredicates scan ->
     GetSqlType (GetType (lane_comp_val simd_predicate mask)) = Boolean
     /\ GetSqlType (GetType (DeriveValue_comparison simd_predicate)) = Boolean)
  /\ (forall predicate,
        residual_predicate scan = Some predicate ->
        GetSqlType (GetType (DeriveValue_expression predicate)) = Boolean).

Definition kinds_ok (simd_predicates : list ComparisonExpression) : bool :=
  forallb (fun simd_predicate => is_comparison (GetExpressionType simd_predicate))
    simd_predicates.

Definition residual_ok (non_simd_predicate : option AbstractExpression) : bool :=
  match non_simd_predicate with
  | Some predicate => bool_decide (GetValueType predicate = Boolean)
  | None => true
  end.

(** The decision of the residual pass on a row. *)
Definition residual_valid (non_simd_predicate : option AbstractExpression)
    (access : TileGroupAccess) (tid : Z) : bool :=
  match non_simd_predicate with
  | Some predicate =>
      Reify scalar_ops (DeriveValue_expression predicate) (mkRowEnv access tid)
  | None => true
  end.

(** An operand is null for a row. *)
Definition operand_is_null (exp : OperandExpression) (access : TileGroupAccess)
    (tid : Z) : bool :=
  IsNull scalar_ops (DeriveValue exp) (mkRowEnv access tid).

(** The code of the predicate filter, when its assertions hold. *)
Definition FilterRowsByPredicate_code (scan : SeqScanPlan) (tile_group_id_ : Z)
    : ChunkCode :=
  fun fuel access tid_start tid_end st =>
    let st := call CallGetClockStart st in
    selection_vector ←
      FilterRowsByPredicate_simd
        (lane_code_of
           (lane_mask_of (GetSIMDPredicates scan) (fun _ => getAllOnesValue N)))
        (row_mask_of (GetSIMDPredicates scan) (fun _ => true))
        tile_group_id_ fuel access tid_start tid_end (selection_vector_ st);
    selection_vector ←
      FilterRowsByPredicate_residual
        (residual_code_of <$> residual_predicate scan) tile_group_id_ fuel
        access tid_start tid_end selection_vector;
    Some (call CallGetClockPause (set_selection selection_vector st)).

(** The code of a chunk step, when the assertions of the filter hold. *)
Definition ProcessTuples_code (scan : SeqScanPlan) (tile_group_id_ : Z)
    : ChunkCode :=
  fun fuel access tid_start tid_end st =>
    st ←
      match GetPredicate scan with
      | Some _ =>
          FilterRowsByPredicate_code scan tile_group_id_ fuel access
            tid_start tid_end st
      | None =>
          Some (set_selection
                  (Vector.SetNumElements (Const32 (-1)) (selection_vector_ st))
                  st)
      end;
    let st := FilterRowsByVisibility tid_start tid_end st in
    let batch := RowBatch.mk tile_group_id_ tid_start tid_end true [] in
    let batch := SetupRowBatch scan batch in
    Some (call (CallConsume batch (selection_vector_ st)) st).

Definition is_consume (c : RuntimeCall) : bool :=
  match c with
  | CallConsume _ _ => true
  | _ => false
  end.

(** The rows the visibility check receives as candidates: the selected
    rows, or the whole range when the count is -1. *)
Definition candidates (tid_start tid_end : Z) (sel : Vector.t) : list Z :=
  if bool_decide (Vector.GetNumElements sel = Const32 (-1))
  then row_range tid_start tid_end
  else Vector.selected sel.

(** The rows are in ascending order. *)
Definition ascending (tids : list Z) : Prop := StronglySorted Z.lt tids.

(** [s] occurs in [t]. *)
Definition Contains (s t : string) : Prop :=
  exists before after, t = before +:+ s +:+ after.

Fixpoint containsb (s t : string) : bool :=
  String.prefix s t
  || match t with
     | EmptyString => false
     | String _ t' => containsb s t'
     end.

(** A vectorizable predicate is present (line 120). *)
Definition vectorizable (scan : SeqScanPlan) : bool :=
  match GetPredicate scan with
  | Some predicate => IsSIMDable predicate
  | None => false
  end.

(** What the specification says of the name, in its words: the name holds
    the table name and, exactly when a vectorizable predicate is present,
    the lane width. *)
Definition name_has_lane_width (scan : SeqScanPlan) : Prop :=
  Contains (GetTableName scan) (GetName scan)
  /\ (vectorizable scan = true <-> Contains (to_string N) (GetName scan)).

(** The rows the lane path keeps of an aligned range of [size] rows that
    starts at [tid_start]: the lane callback run by the vectorized
    iteration over the range. *)
Definition lane_path_rows (simd_predicates : list ComparisonExpression)
    (fuel : nat) (access : TileGroupAccess) (tid_start size : Z)
    (sel : Vector.t) : option (list Z) :=
  match ProcessRows simd_predicates with
  | Ok lane_code =>
      let batch := RowBatch.mk 0 tid_start (tid_start + size) false [] in
      '(_, sel') ←
        RowBatch.VectorizedIterate fuel batch N (lane_code access batch) sel;
      Some (Vector.selected sel')
  | AssertionFailure => None
  end.

(** The rows the scalar path keeps of the same range: the remainder loop of
    the filter, which evaluates the predicates row by row, run from the
    first row of the range. *)
Definition scalar_path_rows (simd_predicates : list ComparisonExpression)
    (fuel : nat) (access : TileGroupAccess) (tid_start size : Z)
    (sel : Vector.t) : option (list Z) :=
  match row_mask simd_predicates (fun _ => true) with
  | Ok mask =>
      let batch := RowBatch.mk 0 tid_start (tid_start + size) false [] in
      '(_, write_pos, sel') ←
        loopPostBatch fuel batch access mask size 0 0 sel;
      Some (Vector.selected (Vector.SetNumElements write_pos sel'))
  | AssertionFailure => None
  end.

(** The operand is the NULL constant. *)
Definition is_null_constant (exp : OperandExpression) : bool :=
  match exp with
  | ConstantValueExpression _ None => true
  | _ => false
  end.

(** Neither operand of the predicate is the NULL constant. *)
Definition no_null_constant (simd_predicate : ComparisonExpression) : bool :=
  negb (is_null_constant (GetChild0 simd_predicate))
  && negb (is_null_constant (GetChild1 simd_predicate)).

(** The row that lane [i] of a lane group stands for. *)
Definition lane_env (env : RowEnv) (i : nat) : RowEnv :=
  mkRowEnv (row_access env) (row_tid env + Z.of_nat i).

(** The decision of the predicate filter on a row of the chunk. *)
Definition keep_row (scan : SeqScanPlan) (access : TileGroupAccess)
    (tid_start tid_end : Z) (tid : Z) : bool :=
  match GetPredicate scan with
  | Some _ =>
      simd_valid (GetSIMDPredicates scan) access tid_start tid_end tid
      && residual_valid (residual_predicate scan) access tid
  | None => true
  end.

(** Every SIMD predicate of the plan and the residual predicate of the
    filter are true for a row by the scalar evaluator, null counting as
    false.  For a scan without a predicate, which emits no filter, every
    row counts. *)
Definition row_matches (scan : SeqScanPlan) (access : TileGroupAccess)
    (tid : Z) : bool :=
  match GetPredicate scan with
  | Some _ =>
      forallb
        (fun simd_predicate =>
           Reify scalar_ops (DeriveValue_comparison simd_predicate)
             (mkRowEnv access tid))
        (GetSIMDPredicates scan)
      && residual_valid (residual_predicate scan) access tid
  | None => true
  end.

(** The constructor's call installs the output boundary. *)
Definition is_boundary (c : TranslatorCall) : bool :=
  match c with
  | CallInstallBoundaryAtOutput => true
  | CallPrepare _ => false
  end.

(** Two lane vectors agree on the lanes a mask has on, and have one
    length. *)
Definition lanes_agree {A} (mask : list bool) (l1 l2 : list A) : Prop :=
  length l1 = length l2
  /\ forall i, mask !! i = Some true -> l1 !! i = l2 !! i.

(** Two lane values have one type and agree, in value and in null
    indicator, on the lanes a mask has on. *)
Definition values_agree {X} (mask : list bool) (env : RowEnv)
    (v1 v2 : Value (list X) (list bool)) : Prop :=
  GetType v1 = GetType v2
  /\ lanes_agree mask (GetValue v1 env) (GetValue v2 env)
  /\ lanes_agree mask (IsNull (vector_ops (Z.to_nat N)) v1 env)
       (IsNull (vector_ops (Z.to_nat N)) v2 env).

(** The first pass of the predicate filter for a list of SIMD predicates,
    as FilterRowsByPredicate emits it (lines 444-650): the lane callback of
    ProcessRows under the vectorized iteration, then the remainder loop
    with the mask of row_mask; the rows the pass leaves selected. *)
Definition first_pass (simd_predicates : list ComparisonExpression)
    (tile_group_id_ : Z) (fuel : nat) (access : TileGroupAccess)
    (tid_start tid_end : Z) (sel : Vector.t) : option (list Z) :=
  match ProcessRows simd_predicates, row_mask simd_predicates (fun _ => true) with
  | Ok lane_code, Ok mask =>
      sel' ←
        FilterRowsByPredicate_simd lane_code mask tile_group_id_ fuel access
          tid_start tid_end sel;
      Some (Vector.selected sel')
  | _, _ => None
  end.

(** ** A sample tile group and sample plans *)

(** The null values of the integer types are their least values. *)
Definition sample_GetNullValue (t : SqlType) : Z :=
  match t with
  | TinyInt => -128
  | SmallInt => -32768
  | Integer => -2147483648
  | BigInt => -9223372036854775808
  | _ => 0
  end.

(** Operands of one type are compared as they are, others as big integers. *)
Definition sample_GetComparison (a b : Type_) : Type_ * Type_ :=
  if bool_decide (GetSqlType a = GetSqlType b) then (a, b)
  else (mkType BigInt (nullable a), mkType BigInt (nullable b)).

(** Integer casts between the integer types keep the value. *)
Definition sample_cast_raw (from to : SqlType) (z : Z) : Z := z.

Definition sample_undef (i : nat) : Z := 12345.

(** The rows 3, 7 and 12 are not visible to the transaction. *)
Definition sample_IsVisible (tid : Z) : bool :=
  negb (bool_decide (tid ∈ [3; 7; 12])).

Definition price : AttributeInfo := mkAttributeInfo 0 (mkType Integer true).
Definition quantity : AttributeInfo := mkAttributeInfo 1 (mkType Integer false).

(** Forty rows: the price is 9 in ten rows, null in row 5 and 1 elsewhere;
    the quantity of a row is its TID. *)
Definition sample_access : TileGroupAccess :=
  fun col tid =>
    match col with
    | O =>
        if bool_decide (tid ∈ [3; 7; 12; 15; 20; 21; 25; 30; 33; 38]) then 9
        else if bool_decide (tid = 5) then -2147483648
        else 1
    | _ => tid
    end.

(** price > 5 *)
Definition price_gt_5 : ComparisonExpression :=
  mkComparison COMPARE_GREATERTHAN (TupleValueExpression price)
    (ConstantValueExpression Integer (Some 5)).

(** price < 5 *)
Definition price_lt_5 : ComparisonExpression :=
  mkComparison COMPARE_LESSTHAN (TupleValueExpression price)
    (ConstantValueExpression Integer (Some 5)).

(** price > NULL *)
Definition price_gt_null : ComparisonExpression :=
  mkComparison COMPARE_GREATERTHAN (TupleValueExpression price)
    (ConstantValueExpression Integer None).

(** quantity LIKE 5: not one of the six comparisons *)
Definition quantity_like_5 : ComparisonExpression :=
  mkComparison COMPARE_LIKE (TupleValueExpression quantity)
    (ConstantValueExpression Integer (Some 5)).

(** The whole predicate price > 5, as the general evaluator sees it. *)
Definition price_gt_5_expression : AbstractExpression :=
  mkExpression Boolean true true
    (fun env => row_access env 0%nat (row_tid env) >? 5)
    (fun env => row_access env 0%nat (row_tid env) =? -2147483648).

(** quantity is even, a predicate the lanes do not take. *)
Definition quantity_even : AbstractExpression :=
  mkExpression Boolean false false
    (fun env => Z.even (row_access env 1%nat (row_tid env)))
    (fun _ => false).

(** quantity + 1, which is no boolean. *)
Definition quantity_plus_1 : AbstractExpression :=
  mkExpression Integer false false (fun _ => false) (fun _ => false).

Definition orders_scan : SeqScanPlan :=
  mkSeqScanPlan "orders" (Some price_gt_5_expression) [price_gt_5] None
    [price; quantity] [0%nat; 1%nat].

Definition orders_scan_residual : SeqScanPlan :=
  mkSeqScanPlan "orders" (Some price_gt_5_expression) [price_gt_5]
    (Some quantity_even) [price; quantity] [0%nat; 1%nat].

Definition orders_scan_general : SeqScanPlan :=
  mkSeqScanPlan "orders" (Some quantity_even) [] None
    [price; quantity] [1%nat].

Definition orders_scan_all : SeqScanPlan :=
  mkSeqScanPlan "orders" None [] None [price; quantity] [0%nat; 1%nat].

Definition orders_scan_null : SeqScanPlan :=
  mkSeqScanPlan "orders" (Some price_gt_5_expression) [price_gt_null] None
    [price; quantity] [0%nat; 1%nat].

(** A table whose name ends in the digits of the lane width. *)
Definition t32_scan : SeqScanPlan :=
  mkSeqScanPlan "t32" None [] None [price] [0%nat].

(** A scan state with a selection vector of 64 entries. *)
Definition sample_state : State := mkState (Vector.mk (replicate 64 0) 0) [].

(** A scan state after earlier chunks: the selection vector holds rows and a
    count of a chunk before, the log a call. *)
Definition used_state : State :=
  mkState (Vector.mk (seqZ 100 64) 9) [CallGetClockStart].

Set Default Proof Using "Type".

(** ** 32-bit arithmetic without wrap-around *)

Lemma two_32 : 2 ^ 32 = 4294967296.
Proof. reflexivity. Qed.

Ltac bounds := pose proof two_32; lia.

Lemma wrap32_small z : 0 <= z < 2 ^ 32 -> wrap32 z = z.
Proof. intros H. unfold wrap32. apply Z.mod_small. exact H. Qed.

Lemma CreateAdd_small a b : 0 <= a + b < 2 ^ 32 -> CreateAdd a b = a + b.
Proof. apply wrap32_small. Qed.

Lemma CreateSub_small a b : 0 <= a - b < 2 ^ 32 -> CreateSub a b = a - b.
Proof. apply wrap32_small. Qed.

Lemma Const32_small z : 0 <= z < 2 ^ 32 -> Const32 z = z.
Proof. apply wrap32_small. Qed.

Lemma Const32_N : Const32 N = N.
Proof. reflexivity. Qed.

Lemma align_size_exact orig_size :
  0 <= orig_size < 2 ^ 32 ->
  CreateMul (Const32 N) (CreateUDiv orig_size (Const32 N))
  = N * (orig_size `div` N).
Proof.
  intros H. rewrite Const32_N. unfold CreateMul, CreateUDiv, N.
  apply wrap32_small.
  pose proof (Z.mul_div_le orig_size 32).
  pose proof (Z.div_pos orig_size 32). lia.
Qed.

Lemma align_size_bounds orig_size :
  0 <= orig_size ->
  0 <= N * (orig_size `div` N) <= orig_size
  /\ orig_size - N * (orig_size `div` N) < N.
Proof.
  intros H. unfold N.
  pose proof (Z.mul_div_le orig_size 32).
  pose proof (Z.mod_pos_bound orig_size 32).
  pose proof (Z.div_mod orig_size 32).
  pose proof (Z.div_pos orig_size 32). lia.
Qed.

(** ** Writing rows through the tracker *)

Lemma emit_app valid l1 l2 pos sel :
  emit valid (l1 ++ l2) pos sel
  = let '(pos', sel') := emit valid l1 pos sel in emit valid l2 pos' sel'.
Proof.
  unfold emit. rewrite fold_left_app.
  destruct (fold_left _ l1 (pos, sel)). reflexivity.
Qed.

Lemma emit_ext valid1 valid2 tids pos sel :
  (forall tid, tid ∈ tids -> valid1 tid = valid2 tid) ->
  emit valid1 tids pos sel = emit valid2 tids pos sel.
Proof.
  revert pos sel. induction tids as [|tid tids IH]; intros pos sel H.
  - reflexivity.
  - unfold emit. simpl. rewrite (H tid) by apply list_elem_of_here.
    apply IH. intros t Ht. apply H. by apply list_elem_of_further.
Qed.

Lemma emit_spec valid tids : forall pos sel,
  0 <= pos ->
  pos + Z.of_nat (length tids) <= Vector.GetCapacity sel ->
  Vector.GetCapacity sel < 2 ^ 32 ->
  let '(pos', sel') := emit valid tids pos sel in
  pos' = pos + Z.of_nat (length (List.filter valid tids))
  /\ Vector.GetCapacity sel' = Vector.GetCapacity sel
  /\ Vector.num_elements sel' = Vector.num_elements sel
  /\ take (Z.to_nat pos') (Vector.vector_ptr sel')
     = take (Z.to_nat pos) (Vector.vector_ptr sel) ++ List.filter valid tids.
Proof.
  induction tids as [|tid tids IH]; intros pos sel Hpos Hfit Hcap.
  - cbn. rewrite Z.add_0_r, app_nil_r. done.
  - unfold emit. cbn [fold_left length List.filter].
    change (fold_left _ tids ?a) with (emit valid tids a.1 a.2).
    cbn [fst snd]. unfold Vector.GetCapacity in *. cbn [length] in Hfit.
    assert (Hlt : (Z.to_nat pos < length (Vector.vector_ptr sel))%nat) by lia.
    specialize (IH (CreateAdd pos (CreateZExt (valid tid)))
                  (Vector.SetValue pos tid sel)).
    destruct (valid tid) eqn:Hv; cbn [CreateZExt Z.b2z] in *.
    + rewrite CreateAdd_small in * by lia.
      destruct (emit valid tids (pos + 1) (Vector.SetValue pos tid sel))
        as [pos' sel'] eqn:He.
      cbn [Vector.SetValue Vector.vector_ptr Vector.num_elements] in IH.
      pose proof (length_insert (Vector.vector_ptr sel) (Z.to_nat pos) tid) as Hl.
      destruct IH as (-> & Hc & Hn & Ht); [lia..|]. rewrite Hl in Hc.
      cbn [length]. repeat split; [lia|done|done|].
      rewrite Ht. replace (Z.to_nat (pos + 1)) with (S (Z.to_nat pos)) by lia.
      rewrite (take_S_r _ _ tid) by (by apply list_lookup_insert_eq).
      rewrite take_insert_ge by lia. by rewrite <-app_assoc.
    + assert (CreateAdd pos 0 = pos) as Hz
        by (unfold CreateAdd; rewrite Z.add_0_r; apply wrap32_small; lia).
      rewrite Hz in *.
      destruct (emit valid tids pos (Vector.SetValue pos tid sel))
        as [pos' sel'] eqn:He.
      cbn [Vector.SetValue Vector.vector_ptr Vector.num_elements] in IH.
      pose proof (length_insert (Vector.vector_ptr sel) (Z.to_nat pos) tid) as Hl.
      destruct IH as (-> & Hc & Hn & Ht); [lia..|]. rewrite Hl in Hc.
      repeat split; [done|done|].
      rewrite Ht. by rewrite take_insert_ge by lia.
Qed.

Lemma fold_left_fmap_ext {A B C} (f : A -> B -> A) (g : A -> C -> A)
    (h : B -> C) (l : list B) (a : A) :
  (forall a b, b ∈ l -> f a b = g a (h b)) ->
  fold_left f l a = fold_left g (h <$> l) a.
Proof.
  revert a. induction l as [|b l IH]; intros a H; [done|].
  cbn. rewrite <-H by apply list_elem_of_here.
  apply IH. intros a' b' Hb. apply H. by apply list_elem_of_further.
Qed.

(** The scatter of one lane group writes the rows of the group in order. *)
Lemma scatter_emit batch ins_start mask pos sel :
  RowBatch.filtered_ batch = false ->
  0 <= RowBatch.tid_start_ batch -> 0 <= ins_start ->
  RowBatch.tid_start_ batch + ins_start + N <= 2 ^ 32 ->
  scatter batch ins_start mask pos sel
  = emit (fun tid =>
            CreateExtractElement mask
              (Z.to_nat (tid - (RowBatch.tid_start_ batch + ins_start))))
      (seqZ (RowBatch.tid_start_ batch + ins_start) N) pos sel.
Proof.
  intros Hf Hts Hs Hfit. unfold scatter, emit, seqZ.
  apply fold_left_fmap_ext. intros [p s] i Hi.
  apply elem_of_seq in Hi. change (Z.to_nat N) with 32%nat in Hi.
  unfold RowBatch.SetValidity, RowBatch.GetTID, RowBatch.GetPhysicalPosition,
    RowBatch.IsFiltered, RowBatch.GetRowAt, RowBatch.NewTracker,
    RowBatch.GetFinalOutputPos.
  cbn. rewrite Hf. unfold N in Hfit.
  rewrite (Const32_small (Z.of_nat i)) by bounds.
  rewrite (CreateAdd_small ins_start) by bounds.
  rewrite (CreateAdd_small (RowBatch.tid_start_ batch)) by bounds.
  replace (Z.of_nat i + (RowBatch.tid_start_ batch + ins_start)
           - (RowBatch.tid_start_ batch + ins_start)) with (Z.of_nat i) by lia.
  replace (RowBatch.tid_start_ batch + (ins_start + Z.of_nat i))
    with (Z.of_nat i + (RowBatch.tid_start_ batch + ins_start)) by lia.
  by rewrite Nat2Z.id.
Qed.

(** The remainder loop writes the rows from [idx_cur] to the end of the
    range in order. *)
Lemma loopPostBatch_emit batch access mask orig_size :
  RowBatch.filtered_ batch = false ->
  0 <= RowBatch.tid_start_ batch ->
  RowBatch.tid_start_ batch + orig_size < 2 ^ 32 ->
  forall (k fuel : nat) idx_cur write_pos sel,
    0 <= idx_cur -> idx_cur + Z.of_nat k = orig_size -> (k < fuel)%nat ->
    loopPostBatch fuel batch access mask orig_size idx_cur write_pos sel
    = let '(write_pos', sel') :=
        emit (row_valid mask access)
          (seqZ (RowBatch.tid_start_ batch + idx_cur) (Z.of_nat k)) write_pos sel in
      Some (orig_size, write_pos', sel').
Proof.
  intros Hf Hts Hfit. unfold loopPostBatch.
  set (cond := fun '(idx_cur, _, _) => CreateICmpULT idx_cur orig_size).
  set (body := fun '(idx_cur, write_pos, sel) => _).
  assert (Hbody : forall idx_cur write_pos sel,
    0 <= idx_cur < orig_size ->
    body (idx_cur, write_pos, sel)
    = (idx_cur + 1,
       CreateAdd write_pos
         (CreateZExt (row_valid mask access (RowBatch.tid_start_ batch + idx_cur))),
       Vector.SetValue write_pos (RowBatch.tid_start_ batch + idx_cur) sel)).
  { intros idx_cur write_pos sel Hidx. subst body. cbn beta iota.
    unfold RowBatch.SetValidity, RowBatch.GetTID, RowBatch.GetPhysicalPosition,
      RowBatch.IsFiltered, RowBatch.GetRowAt, RowBatch.NewTracker,
      RowBatch.GetFinalOutputPos.
    cbn [RowBatch.batch_ RowBatch.batch_pos_ RowBatch.target_pos_
         RowBatch.final_pos_].
    rewrite Hf. change (Const32 1) with 1.
    rewrite (CreateAdd_small (RowBatch.tid_start_ batch)) by bounds.
    rewrite (CreateAdd_small idx_cur) by bounds. reflexivity. }
  assert (Hcond : forall idx_cur write_pos sel,
    cond (idx_cur, write_pos, sel) = (idx_cur <? orig_size)) by done.
  clearbody cond body.
  induction k as [|k IH]; intros fuel idx_cur write_pos sel Hidx Hk Hfuel;
    (destruct fuel as [|fuel]; [lia|]); cbn [while]; rewrite Hcond.
  - rewrite (proj2 (Z.ltb_ge _ _)) by lia.
    cbn. repeat f_equal. lia.
  - rewrite (proj2 (Z.ltb_lt _ _)) by lia.
    rewrite Hbody, IH by lia.
    rewrite (seqZ_cons _ (Z.of_nat (S k))) by lia.
    unfold emit. cbn [fold_left].
    replace (Z.succ (RowBatch.tid_start_ batch + idx_cur))
      with (RowBatch.tid_start_ batch + (idx_cur + 1)) by lia.
    replace (Z.pred (Z.of_nat (S k))) with (Z.of_nat k) by lia.
    reflexivity.
Qed.

(** The vectorized iteration over an unfiltered batch of [c] whole lane
    groups writes the rows of the batch in order, then sets the count. *)
Lemma VectorizedIterate_emit batch ProcessRows valid (c : nat) :
  RowBatch.filtered_ batch = false ->
  0 <= RowBatch.tid_start_ batch ->
  RowBatch.tid_end_ batch = RowBatch.tid_start_ batch + N * Z.of_nat c ->
  RowBatch.tid_start_ batch + N * Z.of_nat c < 2 ^ 32 ->
  (forall (j : nat) end_ write_pos sel,
     (j < c)%nat ->
     ProcessRows (RowBatch.mkInstance (N * Z.of_nat j) end_ write_pos) sel
     = emit valid (seqZ (RowBatch.tid_start_ batch + N * Z.of_nat j) N)
         write_pos sel) ->
  forall fuel sel, (c < fuel)%nat ->
    RowBatch.VectorizedIterate fuel batch N ProcessRows sel
    = let '(write_pos, sel') :=
        emit valid (seqZ (RowBatch.tid_start_ batch) (N * Z.of_nat c)) 0 sel in
      Some (RowBatch.UpdateWritePosition write_pos batch sel').
Proof.
  intros Hf Hts Hend Hfit Hcb fuel sel Hfuel.
  unfold RowBatch.VectorizedIterate, RowBatch.GetNumValidRows, RowBatch.IsFiltered.
  rewrite Hf, Hend. rewrite CreateSub_small by (unfold N in *; bounds).
  replace (RowBatch.tid_start_ batch + N * Z.of_nat c - RowBatch.tid_start_ batch)
    with (N * Z.of_nat c) by lia.
  change (Const32 N) with N. change (Const32 0) with 0.
  set (cond := fun '(start, _, _) => CreateICmpULT start (N * Z.of_nat c)).
  set (body := fun '(start, write_pos, sel) => _).
  assert (Hbody : forall (j : nat) write_pos sel,
    (j < c)%nat ->
    body (N * Z.of_nat j, write_pos, sel)
    = let '(write_pos', sel') :=
        emit valid (seqZ (RowBatch.tid_start_ batch + N * Z.of_nat j) N)
          write_pos sel in
      (N * Z.of_nat (S j), write_pos', sel')).
  { intros j write_pos sel0 Hj. subst body. cbn beta iota.
    rewrite Hcb by done.
    destruct (emit _ _ _ _). rewrite CreateAdd_small by (unfold N in *; bounds).
    repeat f_equal. lia. }
  assert (Hcond : forall start write_pos sel,
    cond (start, write_pos, sel) = (start <? N * Z.of_nat c)) by done.
  clearbody cond body.
  enough (Hloop : forall (k fuel j : nat) write_pos sel,
    (j + k = c)%nat -> (k < fuel)%nat ->
    while fuel cond body (N * Z.of_nat j, write_pos, sel)
    = let '(write_pos', sel') :=
        emit valid
          (seqZ (RowBatch.tid_start_ batch + N * Z.of_nat j) (N * Z.of_nat k))
          write_pos sel in
      Some (N * Z.of_nat c, write_pos', sel')).
  { specialize (Hloop c fuel 0%nat 0 sel). cbn [Z.of_nat] in Hloop.
    rewrite Z.mul_0_r, Z.add_0_r in Hloop.
    rewrite Hloop by lia. by destruct (emit _ _ _ _). }
  clear fuel sel Hfuel.
  induction k as [|k IH]; intros fuel j write_pos sel Hk Hfuel;
    (destruct fuel as [|fuel]; [lia|]); cbn [while]; rewrite Hcond.
  - rewrite (proj2 (Z.ltb_ge _ _)) by (unfold N; lia).
    cbn. repeat f_equal. lia.
  - rewrite (proj2 (Z.ltb_lt _ _)) by (unfold N in *; lia).
    rewrite Hbody by lia.
    replace (N * Z.of_nat (S k)) with (N + N * Z.of_nat k) by lia.
    rewrite seqZ_app by (unfold N; lia). rewrite emit_app.
    destruct (emit valid (seqZ _ N) write_pos sel) as [write_pos' sel'].
    rewrite IH by lia.
    replace (RowBatch.tid_start_ batch + N * Z.of_nat (S j))
      with (RowBatch.tid_start_ batch + N * Z.of_nat j + N) by lia.
    reflexivity.
Qed.

(** The scalar iteration over a filtered batch rewrites the selection
    vector in place: it writes the selected rows in order, then sets the
    count. *)
Lemma Iterate_emit batch ProcessRow valid :
  RowBatch.filtered_ batch = true ->
  (forall row tracker sel,
     ProcessRow row tracker sel
     = RowBatch.SetValidity row (valid (RowBatch.GetTID row sel)) tracker sel) ->
  forall fuel sel,
    0 <= Vector.num_elements sel <= Vector.GetCapacity sel ->
    Vector.GetCapacity sel < 2 ^ 32 ->
    (Z.to_nat (Vector.num_elements sel) < fuel)%nat ->
    RowBatch.Iterate fuel batch ProcessRow sel
    = let '(write_pos, sel') := emit valid (Vector.selected sel) 0 sel in
      Some (RowBatch.UpdateWritePosition write_pos batch sel').
Proof.
  intros Hf Hcb fuel sel Hnum Hcap Hfuel.
  unfold RowBatch.Iterate, RowBatch.GetNumValidRows, RowBatch.IsFiltered.
  rewrite Hf. change (Const32 0) with 0. unfold Vector.GetNumElements.
  set (num := Vector.num_elements sel) in *.
  set (cond := fun '(batch_pos, _, _) => CreateICmpULT batch_pos num).
  set (body := fun '(batch_pos, write_pos, sel) => _).
  assert (Hbody : forall batch_pos write_pos sel x,
    0 <= batch_pos -> batch_pos + 1 < 2 ^ 32 ->
    Vector.vector_ptr sel !! Z.to_nat batch_pos = Some x ->
    body (batch_pos, write_pos, sel)
    = (batch_pos + 1, CreateAdd write_pos (CreateZExt (valid x)),
       Vector.SetValue write_pos x sel)).
  { intros batch_pos write_pos sel0 x H0 H1 Hx. subst body. cbn beta iota.
    rewrite Hcb.
    unfold RowBatch.SetValidity, RowBatch.GetTID, RowBatch.GetPhysicalPosition,
      RowBatch.IsFiltered, RowBatch.GetRowAt, RowBatch.NewTracker,
      RowBatch.GetFinalOutputPos, Vector.GetValue.
    cbn [RowBatch.batch_ RowBatch.batch_pos_ RowBatch.target_pos_
         RowBatch.final_pos_].
    rewrite Hf, Hx. change (Const32 1) with 1.
    rewrite (CreateAdd_small batch_pos) by lia. reflexivity. }
  assert (Hcond : forall batch_pos write_pos sel,
    cond (batch_pos, write_pos, sel) = (batch_pos <? num)) by done.
  clearbody cond body.
  enough (Hloop : forall (k fuel : nat) batch_pos write_pos sel0,
    0 <= write_pos <= batch_pos -> batch_pos + Z.of_nat k = num ->
    num <= Vector.GetCapacity sel0 -> Vector.GetCapacity sel0 < 2 ^ 32 ->
    (k < fuel)%nat ->
    while fuel cond body (batch_pos, write_pos, sel0)
    = let '(write_pos', sel') :=
        emit valid (take k (drop (Z.to_nat batch_pos) (Vector.vector_ptr sel0)))
          write_pos sel0 in
      Some (num, write_pos', sel')).
  { rewrite (Hloop (Z.to_nat num)) by lia. cbn [Z.to_nat drop].
    unfold Vector.selected. fold num. by destruct (emit _ _ _ _). }
  clear fuel Hnum Hcap Hfuel. clearbody num. clear sel.
  induction k as [|k IH];
    intros fuel batch_pos write_pos sel H0 Hk Hfit Hcap Hfuel;
    (destruct fuel as [|fuel]; [lia|]); cbn [while]; rewrite Hcond.
  - rewrite (proj2 (Z.ltb_ge _ _)) by lia.
    cbn. repeat f_equal. lia.
  - rewrite (proj2 (Z.ltb_lt _ _)) by lia.
    unfold Vector.GetCapacity in *.
    destruct (lookup_lt_is_Some_2 (Vector.vector_ptr sel) (Z.to_nat batch_pos))
      as [x Hx]; [lia|].
    rewrite (Hbody _ _ _ x) by (done || lia).
    rewrite (drop_S _ x) by done. cbn [take]. unfold emit. cbn [fold_left].
    change (fold_left _ ?l ?a) with (emit valid l a.1 a.2). cbn [fst snd].
    assert (Hw : 0 <= CreateAdd write_pos (CreateZExt (valid x)) <= batch_pos + 1).
    { rewrite CreateAdd_small; destruct (valid x); cbn; lia. }
    rewrite IH;
      [|done|lia|cbn; rewrite length_insert; lia..|lia].
    cbn [Vector.SetValue Vector.vector_ptr].
    replace (Z.to_nat (batch_pos + 1)) with (S (Z.to_nat batch_pos)) by lia.
    rewrite drop_insert_lt by lia. reflexivity.
Qed.

(** ** What code generation accepts *)

Lemma Compare_type {F} (ops : LaneOps F) cmp (l r : Value (F Z) (F bool)) :
  GetType (Compare ops cmp l r) = mkType Boolean (IsNullable l || IsNullable r).
Proof. unfold Compare. by destruct (GetComparison _ _). Qed.

Lemma CompareSwitch_type {F} (ops : LaneOps F) kind (l r : Value (F Z) (F bool)) :
  GetSqlType (GetType (CompareSwitch ops kind l r))
  = if is_comparison kind then Boolean else Invalid.
Proof.
  destruct kind; cbn [CompareSwitch is_comparison]; try reflexivity;
    unfold CompareEq, CompareNe, CompareLt, CompareLte, CompareGt, CompareGte;
    by rewrite Compare_type.
Qed.

Lemma lane_comp_val_type simd_predicate mask :
  GetSqlType (GetType (lane_comp_val simd_predicate mask))
  = if is_comparison (GetExpressionType simd_predicate) then Boolean else Invalid.
Proof.
  unfold lane_comp_val. destruct (GetComparison _ _).
  do 2 destruct (lane_operand _ _ _ _). apply CompareSwitch_type.
Qed.

Lemma DeriveValue_comparison_type simd_predicate :
  GetSqlType (GetType (DeriveValue_comparison simd_predicate))
  = if is_comparison (GetExpressionType simd_predicate) then Boolean else Invalid.
Proof. apply CompareSwitch_type. Qed.

Lemma lane_mask_result simd_predicates : forall mask,
  lane_mask simd_predicates mask
  = if kinds_ok simd_predicates
    then Ok (lane_mask_of simd_predicates mask)
    else AssertionFailure.
Proof.
  induction simd_predicates as [|p ps IH]; intros mask; [done|].
  cbn [lane_mask kinds_ok forallb lane_mask_of fold_left].
  rewrite lane_comp_val_type.
  destruct (is_comparison (GetExpressionType p)); [|done].
  cbn. apply IH.
Qed.

Lemma row_mask_result simd_predicates : forall mask,
  row_mask simd_predicates mask
  = if kinds_ok simd_predicates
    then Ok (row_mask_of simd_predicates mask)
    else AssertionFailure.
Proof.
  induction simd_predicates as [|p ps IH]; intros mask; [done|].
  cbn [row_mask kinds_ok forallb row_mask_of fold_left].
  rewrite DeriveValue_comparison_type.
  destruct (is_comparison (GetExpressionType p)); [|done].
  cbn. apply IH.
Qed.

Lemma ProcessRows_result simd_predicates :
  ProcessRows simd_predicates
  = if kinds_ok simd_predicates
    then Ok (lane_code_of
               (lane_mask_of simd_predicates (fun _ => getAllOnesValue N)))
    else AssertionFailure.
Proof.
  unfold ProcessRows. rewrite lane_mask_result.
  destruct (kinds_ok simd_predicates); cbn [result_bind]; [|reflexivity].
  exact eq_refl.
Qed.

Lemma ProcessRow_result predicate :
  ProcessRow predicate
  = if bool_decide (GetValueType predicate = Boolean)
    then Ok (residual_code_of predicate)
    else AssertionFailure.
Proof.
  unfold ProcessRow. cbn [DeriveValue_expression GetType GetSqlType].
  by destruct (bool_decide _).
Qed.

Lemma FilterRowsByPredicate_result scan tile_group_id_ :
  FilterRowsByPredicate scan tile_group_id_
  = if kinds_ok (GetSIMDPredicates scan) && residual_ok (residual_predicate scan)
    then Ok (FilterRowsByPredicate_code scan tile_group_id_)
    else AssertionFailure.
Proof.
  unfold FilterRowsByPredicate, FilterRowsByPredicate_code.
  rewrite ProcessRows_result, row_mask_result.
  destruct (kinds_ok (GetSIMDPredicates scan)); [|exact eq_refl].
  cbn [result_bind andb].
  destruct (residual_predicate scan) as [predicate|]; [|exact eq_refl].
  rewrite ProcessRow_result. cbn [residual_ok].
  destruct (bool_decide _); exact eq_refl.
Qed.

Lemma reified_values_boolean_iff scan :
  reified_values_boolean scan
  <-> kinds_ok (GetSIMDPredicates scan) && residual_ok (residual_predicate scan)
      = true.
Proof.
  unfold reified_values_boolean, kinds_ok, residual_ok.
  rewrite andb_true_iff, forallb_forall. split.
  - intros [Hs Hr]. split.
    + intros p Hp. apply list_elem_of_In in Hp.
      destruct (Hs p (fun _ => []) Hp) as [H _].
      rewrite lane_comp_val_type in H.
      by destruct (is_comparison _).
    + destruct (residual_predicate scan) as [p|]; [|done].
      apply bool_decide_eq_true. by apply Hr.
  - intros [Hs Hr]. split.
    + intros p mask Hp. apply list_elem_of_In in Hp.
      rewrite lane_comp_val_type, DeriveValue_comparison_type, (Hs p Hp). done.
    + intros p Hp. rewrite Hp in Hr. by apply bool_decide_eq_true in Hr.
Qed.

(** ** The two passes of the predicate filter *)

Lemma emit_SetNumElements valid tids n : forall pos sel,
  emit valid tids pos (Vector.SetNumElements n sel)
  = let '(pos', sel') := emit valid tids pos sel in
    (pos', Vector.SetNumElements n sel').
Proof.
  induction tids as [|tid tids IH]; intros pos sel; [done|].
  unfold emit. cbn [fold_left].
  change (fold_left _ ?l ?a) with (emit valid l a.1 a.2). cbn [fst snd].
  change (Vector.SetValue pos tid (Vector.SetNumElements n sel))
    with (Vector.SetNumElements n (Vector.SetValue pos tid sel)).
  apply IH.
Qed.

Lemma lane_code_emit lane access batch (j : nat) end_ write_pos sel :
  RowBatch.filtered_ batch = false ->
  0 <= RowBatch.tid_start_ batch ->
  RowBatch.tid_start_ batch + N * Z.of_nat j + N <= 2 ^ 32 ->
  lane_code_of lane access batch
    (RowBatch.mkInstance (N * Z.of_nat j) end_ write_pos) sel
  = emit (lane_valid lane access (RowBatch.tid_start_ batch))
      (seqZ (RowBatch.tid_start_ batch + N * Z.of_nat j) N) write_pos sel.
Proof.
  intros Hf Hts Hfit. unfold lane_code_of.
  cbn [RowBatch.start RowBatch.write_pos].
  rewrite scatter_emit by (done || unfold N in Hfit |- *; lia).
  unfold RowBatch.GetTID, RowBatch.GetPhysicalPosition, RowBatch.IsFiltered,
    RowBatch.GetRowAt.
  cbn [RowBatch.batch_ RowBatch.batch_pos_]. rewrite Hf.
  rewrite CreateAdd_small by (unfold N in Hfit |- *; bounds).
  apply emit_ext. intros tid Htid. apply elem_of_seqZ in Htid.
  unfold lane_valid.
  assert ((tid - RowBatch.tid_start_ batch) `div` N = Z.of_nat j) as ->.
  { symmetry.
    apply (Z.div_unique_pos _ _ _
             (tid - (RowBatch.tid_start_ batch + N * Z.of_nat j)));
      unfold N in Htid |- *; lia. }
  assert ((tid - RowBatch.tid_start_ batch) `mod` N
          = tid - (RowBatch.tid_start_ batch + N * Z.of_nat j)) as ->.
  { symmetry. apply (Z.mod_unique_pos _ _ (Z.of_nat j));
      unfold N in Htid |- *; lia. }
  reflexivity.
Qed.

Lemma FilterRowsByPredicate_simd_emit lane row tile_group_id_ fuel access
    tid_start tid_end sel :
  0 <= tid_start <= tid_end -> tid_end < 2 ^ 32 ->
  (Z.to_nat (tid_end - tid_start) < fuel)%nat ->
  FilterRowsByPredicate_simd (lane_code_of lane) row tile_group_id_ fuel access
    tid_start tid_end sel
  = let '(write_pos, sel') :=
      emit (pass_valid lane row access tid_start tid_end)
        (row_range tid_start tid_end) 0 sel in
    Some (Vector.SetNumElements write_pos sel').
Proof.
  intros Hrange Hend Hfuel. unfold FilterRowsByPredicate_simd, row_range.
  set (orig_size := tid_end - tid_start).
  assert (Horig : 0 <= orig_size < 2 ^ 32) by (unfold orig_size; lia).
  rewrite CreateSub_small by done. fold orig_size.
  rewrite align_size_exact by done.
  destruct (align_size_bounds orig_size) as [Ha Hrem]; [lia|].
  set (align_size := N * (orig_size `div` N)) in *.
  rewrite CreateAdd_small by lia.
  set (c := Z.to_nat (orig_size `div` N)).
  assert (Hc : align_size = N * Z.of_nat c).
  { unfold align_size, c. rewrite Z2Nat.id; [done|].
    apply Z.div_pos; unfold N; lia. }
  assert (Hcfuel : (c < fuel)%nat).
  { unfold c. assert (orig_size `div` N <= orig_size)
      by (apply Z.div_le_upper_bound; unfold N; lia). lia. }
  rewrite (VectorizedIterate_emit _ _ (lane_valid lane access tid_start) c);
    [|done|cbn; lia|cbn; lia|cbn; lia| |done].
  2:{ intros j e wp s Hj. rewrite lane_code_emit; [done|done|cbn; lia|].
      cbn [RowBatch.tid_start_]. unfold N in *. lia. }
  cbn [RowBatch.tid_start_]. rewrite <-Hc.
  destruct (emit (lane_valid lane access tid_start) (seqZ tid_start align_size) 0 sel)
    as [write_pos1 sel1] eqn:He1.
  cbn [RowBatch.UpdateWritePosition mbind option_bind].
  unfold Vector.GetNumElements at 1. cbn [Vector.SetNumElements Vector.num_elements].
  cbn [RowBatch.SetFiltered RowBatch.tile_group_id RowBatch.tid_start_
       RowBatch.tid_end_ RowBatch.attributes_].
  set (batch := RowBatch.mk _ _ _ false _).
  rewrite (loopPostBatch_emit batch access row orig_size eq_refl
             ltac:(cbn; lia) ltac:(cbn; lia)
             (Z.to_nat (orig_size - align_size))) by lia.
  subst batch. cbn [RowBatch.tid_start_].
  rewrite Z2Nat.id by lia.
  change (Vector.mk (Vector.vector_ptr sel1) write_pos1)
    with (Vector.SetNumElements write_pos1 sel1).
  rewrite emit_SetNumElements.
  destruct (emit (row_valid row access) _ write_pos1 sel1)
    as [write_pos2 sel2] eqn:He2.
  cbn [mbind option_bind RowBatch.UpdateWritePosition].
  replace (seqZ tid_start orig_size)
    with (seqZ tid_start align_size
          ++ seqZ (tid_start + align_size) (orig_size - align_size))
    by (rewrite <-seqZ_app by lia; f_equal; lia).
  rewrite emit_app.
  rewrite <-(emit_ext (lane_valid lane access tid_start)), He1.
  - rewrite <-(emit_ext (row_valid row access)), He2; [done|].
    intros tid Htid. apply elem_of_seqZ in Htid. unfold pass_valid.
    fold orig_size. fold align_size.
    by rewrite (proj2 (Z.ltb_ge _ _)) by lia.
  - intros tid Htid. apply elem_of_seqZ in Htid. unfold pass_valid.
    fold orig_size. fold align_size.
    by rewrite (proj2 (Z.ltb_lt _ _)) by lia.
Qed.

Lemma filter_sublist {A} (f : A -> bool) (l : list A) :
  List.filter f l `sublist_of` l.
Proof.
  induction l as [|x l IH]; cbn; [constructor|].
  destruct (f x); by constructor.
Qed.

Lemma filter_ext_in {A} (f g : A -> bool) (l : list A) :
  (forall x, x ∈ l -> f x = g x) -> List.filter f l = List.filter g l.
Proof.
  induction l as [|x l IH]; intros H; [done|]. cbn [List.filter].
  rewrite (H x) by apply list_elem_of_here.
  rewrite IH; [done|]. intros y Hy. apply H. by apply list_elem_of_further.
Qed.

Lemma filter_length_le {A} (f : A -> bool) (l : list A) :
  (length (List.filter f l) <= length l)%nat.
Proof. apply sublist_length, filter_sublist. Qed.

Lemma row_range_length tid_start tid_end :
  tid_start <= tid_end ->
  Z.of_nat (length (row_range tid_start tid_end)) = tid_end - tid_start.
Proof. intros H. unfold row_range. rewrite length_seqZ. lia. Qed.

(** The first pass selects the rows of the range its masks accept. *)
Lemma FilterRowsByPredicate_simd_spec lane row tile_group_id_ fuel access
    tid_start tid_end sel :
  0 <= tid_start <= tid_end -> tid_end < 2 ^ 32 ->
  tid_end - tid_start <= Vector.GetCapacity sel ->
  Vector.GetCapacity sel < 2 ^ 32 ->
  (Z.to_nat (tid_end - tid_start) < fuel)%nat ->
  exists sel',
    FilterRowsByPredicate_simd (lane_code_of lane) row tile_group_id_ fuel
      access tid_start tid_end sel = Some sel'
    /\ Vector.selected sel'
       = List.filter (pass_valid lane row access tid_start tid_end)
           (row_range tid_start tid_end)
    /\ Vector.num_elements sel' = Z.of_nat (length (Vector.selected sel'))
    /\ Vector.GetCapacity sel' = Vector.GetCapacity sel.
Proof.
  intros Hrange Hend Hfit Hcap Hfuel.
  rewrite FilterRowsByPredicate_simd_emit by done.
  pose proof (emit_spec (pass_valid lane row access tid_start tid_end)
                (row_range tid_start tid_end) 0 sel) as Hspec.
  rewrite row_range_length in Hspec by lia.
  destruct (emit _ _ 0 sel) as [write_pos sel'].
  destruct Hspec as (Hpos & Hc & _ & Ht); [lia..|].
  cbn [Z.to_nat take app] in Ht. rewrite Z.add_0_l in Hpos.
  exists (Vector.SetNumElements write_pos sel').
  unfold Vector.selected. cbn [Vector.SetNumElements Vector.vector_ptr
                                 Vector.num_elements].
  rewrite Ht. repeat split; done.
Qed.

(** The residual pass keeps, in place and in order, the selected rows its
    predicate accepts. *)
Lemma FilterRowsByPredicate_residual_spec non_simd_predicate tile_group_id_
    fuel access tid_start tid_end sel :
  0 <= Vector.num_elements sel <= Vector.GetCapacity sel ->
  Vector.num_elements sel = Z.of_nat (length (Vector.selected sel)) ->
  Vector.GetCapacity sel < 2 ^ 32 ->
  (Z.to_nat (Vector.num_elements sel) < fuel)%nat ->
  exists sel',
    FilterRowsByPredicate_residual (residual_code_of <$> non_simd_predicate)
      tile_group_id_ fuel access tid_start tid_end sel = Some sel'
    /\ Vector.selected sel'
       = List.filter (residual_valid non_simd_predicate access)
           (Vector.selected sel)
    /\ Vector.num_elements sel' = Z.of_nat (length (Vector.selected sel'))
    /\ Vector.GetCapacity sel' = Vector.GetCapacity sel.
Proof.
  intros Hnum Hlen Hcap Hfuel.
  destruct non_simd_predicate as [predicate|];
    cbn [fmap option_fmap option_map FilterRowsByPredicate_residual].
  2:{ exists sel. repeat split; [|done].
      cbn [residual_valid]. symmetry. apply forallb_filter_id.
      by apply forallb_forall. }
  rewrite (Iterate_emit _ _ (residual_valid (Some predicate) access))
    by done.
  pose proof (emit_spec (residual_valid (Some predicate) access)
                (Vector.selected sel) 0 sel) as Hspec.
  destruct (emit _ _ 0 sel) as [write_pos sel'].
  destruct Hspec as (Hpos & Hc & _ & Ht); [lia..|].
  cbn [Z.to_nat take app] in Ht. rewrite Z.add_0_l in Hpos.
  cbn [RowBatch.UpdateWritePosition mbind option_bind].
  exists (Vector.SetNumElements write_pos sel').
  unfold Vector.selected at 1 3. cbn [Vector.SetNumElements Vector.vector_ptr
                                 Vector.num_elements].
  rewrite Ht. repeat split; done.
Qed.

(** ** Ascending selections *)

Lemma sublist_Forall {A} (P : A -> Prop) (l1 l2 : list A) :
  l1 `sublist_of` l2 -> Forall P l2 -> Forall P l1.
Proof.
  induction 1 as [|x l1 l2 _ IH|x l1 l2 _ IH]; intros H; [done| |].
  - apply Forall_cons in H as [Hx H]. constructor; auto.
  - apply Forall_cons in H as [_ H]. auto.
Qed.

Lemma sublist_ascending (l1 l2 : list Z) :
  l1 `sublist_of` l2 -> ascending l2 -> ascending l1.
Proof.
  unfold ascending.
  induction 1 as [|x l1 l2 Hsub IH|x l1 l2 Hsub IH]; intros H; [done| |].
  - apply StronglySorted_inv in H as [Hs Hx]. constructor; [auto|].
    by apply (sublist_Forall _ _ l2).
  - apply StronglySorted_inv in H as [Hs _]. auto.
Qed.

Lemma row_range_ascending tid_start tid_end :
  ascending (row_range tid_start tid_end).
Proof.
  unfold ascending, row_range.
  destruct (Z_le_gt_dec (tid_end - tid_start) 0) as [Hle|Hgt].
  { rewrite seqZ_nil by done. constructor. }
  rewrite <-(Z2Nat.id (tid_end - tid_start)) by lia.
  generalize (Z.to_nat (tid_end - tid_start)) as k. clear Hgt. intros k.
  revert tid_start. induction k as [|k IH]; intros tid_start; [constructor|].
  rewrite seqZ_cons by lia. constructor.
  - replace (Z.pred (Z.of_nat (S k))) with (Z.of_nat k) by lia. apply IH.
  - apply Forall_seqZ. intros m Hm. lia.
Qed.

Lemma selection_of_range tids tid_start tid_end :
  tids `sublist_of` row_range tid_start tid_end ->
  ascending tids /\ Forall (fun tid => tid_start <= tid < tid_end) tids.
Proof.
  intros Hsub. split.
  - eapply sublist_ascending; [done|]. apply row_range_ascending.
  - eapply sublist_Forall; [done|]. unfold row_range.
    apply Forall_seqZ. intros m Hm. lia.
Qed.

(** ** The visibility filter *)

Lemma FilterRowsByVisibility_spec tid_start tid_end st :
  let st' := FilterRowsByVisibility tid_start tid_end st in
  calls st'
  = calls st
    ++ [CallPerformVectorizedRead tid_start tid_end
          (Vector.vector_ptr (selection_vector_ st))
          (Vector.GetNumElements (selection_vector_ st))]
  /\ Vector.selected (selection_vector_ st')
     = List.filter IsVisible (candidates tid_start tid_end (selection_vector_ st)).
Proof.
  unfold FilterRowsByVisibility, PerformVectorizedRead, candidates, row_range.
  cbn. split; [done|]. unfold Vector.selected. cbn.
  rewrite Nat2Z.id. by rewrite take_app_length.
Qed.

(** ** The predicate filter as a whole *)

Lemma FilterRowsByPredicate_code_spec scan tile_group_id_ fuel access
    tid_start tid_end st :
  0 <= tid_start <= tid_end -> tid_end < 2 ^ 32 ->
  tid_end - tid_start <= Vector.GetCapacity (selection_vector_ st) ->
  Vector.GetCapacity (selection_vector_ st) < 2 ^ 32 ->
  (Z.to_nat (tid_end - tid_start) < fuel)%nat ->
  exists sel1 sel2,
    FilterRowsByPredicate_simd
      (lane_code_of
         (lane_mask_of (GetSIMDPredicates scan) (fun _ => getAllOnesValue N)))
      (row_mask_of (GetSIMDPredicates scan) (fun _ => true))
      tile_group_id_ fuel access tid_start tid_end (selection_vector_ st)
    = Some sel1
    /\ FilterRowsByPredicate_residual
         (residual_code_of <$> residual_predicate scan) tile_group_id_ fuel
         access tid_start tid_end sel1
       = Some sel2
    /\ FilterRowsByPredicate_code scan tile_group_id_ fuel access tid_start
         tid_end st
       = Some (mkState sel2 (calls st ++ [CallGetClockStart; CallGetClockPause]))
    /\ Vector.selected sel1
       = List.filter (simd_valid (GetSIMDPredicates scan) access tid_start tid_end)
           (row_range tid_start tid_end)
    /\ Vector.selected sel2
       = List.filter (residual_valid (residual_predicate scan) access)
           (Vector.selected sel1)
    /\ Vector.num_elements sel2 = Z.of_nat (length (Vector.selected sel2))
    /\ Vector.GetCapacity sel2 = Vector.GetCapacity (selection_vector_ st).
Proof.
  intros Hrange Hend Hfit Hcap Hfuel.
  destruct (FilterRowsByPredicate_simd_spec
              (lane_mask_of (GetSIMDPredicates scan) (fun _ => getAllOnesValue N))
              (row_mask_of (GetSIMDPredicates scan) (fun _ => true))
              tile_group_id_ fuel access tid_start tid_end (selection_vector_ st))
    as (sel1 & Hrun1 & Hsel1 & Hnum1 & Hcap1); [done..|].
  assert (Hlen1 : Z.of_nat (length (Vector.selected sel1)) <= tid_end - tid_start).
  { rewrite Hsel1, <-row_range_length by lia.
    apply inj_le, filter_length_le. }
  destruct (FilterRowsByPredicate_residual_spec (residual_predicate scan)
              tile_group_id_ fuel access tid_start tid_end sel1)
    as (sel2 & Hrun2 & Hsel2 & Hnum2 & Hcap2); [lia|done|lia|lia|].
  exists sel1, sel2. unfold FilterRowsByPredicate_code.
  cbn [call selection_vector_ calls]. rewrite Hrun1. cbn [mbind option_bind].
  rewrite Hrun2. cbn [mbind option_bind].
  unfold call, set_selection. cbn [selection_vector_ calls].
  rewrite <-app_assoc. repeat split; (done || congruence).
Qed.

(** ** The chunk step *)

Lemma ProcessTuples_result scan tile_group_id_ :
  ProcessTuples scan tile_group_id_
  = match GetPredicate scan with
    | Some _ =>
        if kinds_ok (GetSIMDPredicates scan)
           && residual_ok (residual_predicate scan)
        then Ok (ProcessTuples_code scan tile_group_id_)
        else AssertionFailure
    | None => Ok (ProcessTuples_code scan tile_group_id_)
    end.
Proof.
  unfold ProcessTuples, ProcessTuples_code.
  destruct (GetPredicate scan) as [predicate|]; [|exact eq_refl].
  rewrite FilterRowsByPredicate_result.
  destruct (kinds_ok _ && residual_ok _); exact eq_refl.
Qed.

Lemma ProcessTuples_Ok scan tile_group_id_ code :
  ProcessTuples scan tile_group_id_ = Ok code ->
  code = ProcessTuples_code scan tile_group_id_.
Proof.
  rewrite ProcessTuples_result.
  destruct (GetPredicate scan); [destruct (kinds_ok _ && residual_ok _)|];
    congruence.
Qed.

(** C1.  For every chunk [tid_start, tid_end) the code ProcessTuples emits
    hands the batch over to the pipeline by exactly one Consume call, the
    last call of the chunk, after the visibility filter.  When the scan has
    a predicate, the predicate filter runs over the whole range first (its
    two clock calls open the log of the chunk) and the visibility filter
    runs on the filter's selection; when it has none, the visibility filter
    runs on the selection vector with the count -1. *)
Theorem ProcessTuples_filters_then_consumes_once scan tile_group_id_ code fuel
    access tid_start tid_end st :
  ProcessTuples scan tile_group_id_ = Ok code ->
  0 <= tid_start <= tid_end -> tid_end < 2 ^ 32 ->
  tid_end - tid_start <= Vector.GetCapacity (selection_vector_ st) ->
  Vector.GetCapacity (selection_vector_ st) < 2 ^ 32 ->
  (Z.to_nat (tid_end - tid_start) < fuel)%nat ->
  exists st1 st' new_calls,
    match GetPredicate scan with
    | Some _ =>
        FilterRowsByPredicate_code scan tile_group_id_ fuel access tid_start
          tid_end st = Some st1
    | None =>
        st1 = set_selection
                (Vector.SetNumElements (Const32 (-1)) (selection_vector_ st)) st
    end
    /\ code fuel access tid_start tid_end st = Some st'
    /\ selection_vector_ st'
       = selection_vector_ (FilterRowsByVisibility tid_start tid_end st1)
    /\ calls st' = calls st ++ new_calls
    /\ new_calls
       = match GetPredicate scan with
         | Some _ => [CallGetClockStart; CallGetClockPause]
         | None => []
         end
         ++ [CallPerformVectorizedRead tid_start tid_end
               (Vector.vector_ptr (selection_vector_ st1))
               (Vector.GetNumElements (selection_vector_ st1));
             CallConsume
               (SetupRowBatch scan
                  (RowBatch.mk tile_group_id_ tid_start tid_end true []))
               (selection_vector_ st')]
    /\ length (List.filter is_consume new_calls) = 1%nat.
Proof.
  intros Hcode Hrange Hend Hfit Hcap Hfuel.
  apply ProcessTuples_Ok in Hcode as ->.
  destruct (GetPredicate scan) as [predicate|] eqn:Hpred.
  - destruct (FilterRowsByPredicate_code_spec scan tile_group_id_ fuel access
                tid_start tid_end st)
      as (sel1 & sel2 & _ & _ & Hrun & _); [done..|].
    eexists _, _, _. split; [exact Hrun|].
    unfold ProcessTuples_code. rewrite Hpred, Hrun. cbn [mbind option_bind].
    split; [reflexivity|].
    pose proof (FilterRowsByVisibility_spec tid_start tid_end
                  (mkState sel2
                     (calls st ++ [CallGetClockStart; CallGetClockPause])))
      as [Hcalls _].
    cbn zeta in Hcalls. cbn [selection_vector_ calls] in Hcalls.
    unfold call at 1 2 3. cbn [selection_vector_ calls].
    split; [reflexivity|]. rewrite Hcalls. rewrite <-!app_assoc. cbn [app].
    split; [reflexivity|]. split; reflexivity.
  - eexists _, _, _. split; [reflexivity|].
    unfold ProcessTuples_code. rewrite Hpred. cbn [mbind option_bind].
    split; [reflexivity|].
    set (unfiltered := set_selection _ st).
    pose proof (FilterRowsByVisibility_spec tid_start tid_end unfiltered)
      as [Hcalls _].
    cbn zeta in Hcalls.
    unfold call at 1 2 3. cbn [selection_vector_ calls].
    split; [reflexivity|]. rewrite Hcalls. rewrite <-!app_assoc. cbn [app].
    split; [reflexivity|]. split; reflexivity.
Qed.

(** C9.  Without a predicate the code ProcessTuples emits sets the count of
    the selection vector to -1 and then runs the visibility filter, which
    passes the range and that count to the visibility check; the check
    takes the count -1 for the whole range [tid_start, tid_end), so that
    the batch consumed selects the visible rows of the range. *)
Theorem ProcessTuples_no_predicate_sentinel scan tile_group_id_ fuel access
    tid_start tid_end st :
  GetPredicate scan = None ->
  let unfiltered :=
    set_selection (Vector.SetNumElements (Const32 (-1)) (selection_vector_ st))
      st in
  exists code st',
    ProcessTuples scan tile_group_id_ = Ok code
    /\ code fuel access tid_start tid_end st = Some st'
    /\ Vector.GetNumElements (selection_vector_ unfiltered) = Const32 (-1)
    /\ selection_vector_ st'
       = selection_vector_ (FilterRowsByVisibility tid_start tid_end unfiltered)
    /\ calls st'
       = calls st
         ++ [CallPerformVectorizedRead tid_start tid_end
               (Vector.vector_ptr (selection_vector_ st)) (Const32 (-1));
             CallConsume
               (SetupRowBatch scan
                  (RowBatch.mk tile_group_id_ tid_start tid_end true []))
               (selection_vector_ st')]
    /\ candidates tid_start tid_end (selection_vector_ unfiltered)
       = row_range tid_start tid_end
    /\ Vector.selected (selection_vector_ st')
       = List.filter IsVisible (row_range tid_start tid_end).
Proof.
  intros Hpred unfiltered.
  exists (ProcessTuples_code scan tile_group_id_). eexists.
  rewrite ProcessTuples_result, Hpred. split; [reflexivity|].
  unfold ProcessTuples_code. rewrite Hpred. cbn [mbind option_bind].
  fold unfiltered. split; [reflexivity|].
  destruct (FilterRowsByVisibility_spec tid_start tid_end unfiltered)
    as [Hcalls Hsel].
  cbn zeta in Hcalls, Hsel.
  unfold call. cbn [selection_vector_ calls].
  rewrite Hcalls, Hsel. rewrite <-app_assoc.
  repeat split; reflexivity.
Qed.

(** C3.  For every chunk the selection the batch is consumed with is a
    strictly ascending subsequence of the row range, within the range and
    no longer than it.  When the scan has a predicate, the selection after
    each stage, in the order the code runs them (the lane and remainder
    pass of the predicate filter, its residual pass, the visibility
    filter), is a subsequence of the selection before the stage, the first
    one of the row range itself; so each is strictly ascending within the
    range, and no stage makes the selection longer. *)
Theorem selection_stays_ascending_and_narrows scan tile_group_id_ code fuel
    access tid_start tid_end st :
  ProcessTuples scan tile_group_id_ = Ok code ->
  0 <= tid_start <= tid_end -> tid_end < 2 ^ 32 ->
  tid_end - tid_start <= Vector.GetCapacity (selection_vector_ st) ->
  Vector.GetCapacity (selection_vector_ st) < 2 ^ 32 - 1 ->
  (Z.to_nat (tid_end - tid_start) < fuel)%nat ->
  let range := row_range tid_start tid_end in
  exists st',
    code fuel access tid_start tid_end st = Some st'
    /\ (let after_visibility := Vector.selected (selection_vector_ st') in
        after_visibility `sublist_of` range
        /\ ascending after_visibility
        /\ Forall (fun tid => tid_start <= tid < tid_end) after_visibility
        /\ (length after_visibility <= length range)%nat)
    /\ (is_Some (GetPredicate scan) ->
        exists sel1 sel2,
          FilterRowsByPredicate_simd
            (lane_code_of
               (lane_mask_of (GetSIMDPredicates scan)
                  (fun _ => getAllOnesValue N)))
            (row_mask_of (GetSIMDPredicates scan) (fun _ => true))
            tile_group_id_ fuel access tid_start tid_end (selection_vector_ st)
          = Some sel1
          /\ FilterRowsByPredicate_residual
               (residual_code_of <$> residual_predicate scan) tile_group_id_
               fuel access tid_start tid_end sel1
             = Some sel2
          /\ selection_vector_ st'
             = selection_vector_
                 (FilterRowsByVisibility tid_start tid_end
                    (mkState sel2
                       (calls st ++ [CallGetClockStart; CallGetClockPause])))
          /\ let after_predicate := Vector.selected sel1 in
             let after_residual := Vector.selected sel2 in
             let after_visibility := Vector.selected (selection_vector_ st') in
             (after_predicate `sublist_of` range
              /\ after_residual `sublist_of` after_predicate
              /\ after_visibility `sublist_of` after_residual)
             /\ (ascending after_predicate /\ ascending after_residual
                 /\ ascending after_visibility)
             /\ (Forall (fun tid => tid_start <= tid < tid_end) after_predicate
                 /\ Forall (fun tid => tid_start <= tid < tid_end) after_residual
                 /\ Forall (fun tid => tid_start <= tid < tid_end)
                      after_visibility)
             /\ (length after_predicate <= length range
                 /\ length after_residual <= length after_predicate
                 /\ length after_visibility <= length after_residual)%nat).
Proof.
  intros Hcode Hrange Hend Hfit Hcap Hfuel range.
  apply ProcessTuples_Ok in Hcode as ->.
  destruct (GetPredicate scan) as [predicate|] eqn:Hpred.
  - destruct (FilterRowsByPredicate_code_spec scan tile_group_id_ fuel access
                tid_start tid_end st)
      as (sel1 & sel2 & Hrun1 & Hrun2 & Hrun & Hsel1 & Hsel2 & Hnum2 & Hcap2);
      [done|done|done|lia|done|].
    eexists. unfold ProcessTuples_code. rewrite Hpred, Hrun.
    cbn [mbind option_bind].
    split; [reflexivity|]. unfold call. cbn [selection_vector_ calls].
    set (st1 := mkState sel2 _).
    destruct (FilterRowsByVisibility_spec tid_start tid_end st1) as [_ Hsel3].
    cbn zeta in Hsel3. cbn zeta. rewrite Hsel3.
    assert (Hsub1 : Vector.selected sel1 `sublist_of` range)
      by (rewrite Hsel1; apply filter_sublist).
    assert (Hsub2 : Vector.selected sel2 `sublist_of` Vector.selected sel1)
      by (rewrite Hsel2; apply filter_sublist).
    assert (Hlen2 : Z.of_nat (length (Vector.selected sel2))
                    <= tid_end - tid_start).
    { rewrite <-row_range_length by lia. apply inj_le, sublist_length.
      by etrans. }
    assert (Hcand : candidates tid_start tid_end (selection_vector_ st1)
                    = Vector.selected sel2).
    { unfold candidates, Vector.GetNumElements. subst st1.
      cbn [selection_vector_].
      rewrite bool_decide_eq_false_2; [done|].
      rewrite Hnum2. change (Const32 (-1)) with 4294967295.
      pose proof two_32. lia. }
    rewrite Hcand.
    assert (Hsub3 : List.filter IsVisible (Vector.selected sel2)
                      `sublist_of` Vector.selected sel2) by apply filter_sublist.
    assert (Hr2 : Vector.selected sel2 `sublist_of` range) by (by etrans).
    assert (Hr3 : List.filter IsVisible (Vector.selected sel2)
                    `sublist_of` range) by (by etrans).
    destruct (selection_of_range _ _ _ Hsub1), (selection_of_range _ _ _ Hr2),
      (selection_of_range _ _ _ Hr3).
    split; [repeat split; try done; by apply sublist_length|].
    intros _. exists sel1, sel2.
    split; [exact Hrun1|]. split; [exact Hrun2|]. split; [reflexivity|].
    repeat split; try done; by apply sublist_length.
  - eexists. unfold ProcessTuples_code. rewrite Hpred.
    cbn [mbind option_bind].
    split; [reflexivity|]. unfold call. cbn [selection_vector_ calls].
    set (unfiltered := set_selection _ st).
    destruct (FilterRowsByVisibility_spec tid_start tid_end unfiltered)
      as [_ Hsel].
    cbn zeta in Hsel. cbn zeta. rewrite Hsel.
    change (candidates tid_start tid_end (selection_vector_ unfiltered))
      with range.
    assert (Hr : List.filter IsVisible range `sublist_of` range)
      by apply filter_sublist.
    destruct (selection_of_range _ _ _ Hr).
    split; [repeat split; try done; by apply sublist_length|].
    intros [predicate Hsome]. discriminate Hsome.
Qed.

(** C5.  On a row range [tid_start, tid_end) the code of the predicate
    filter computes the aligned size N * floor(size / N) with N = 32, which
    leaves a remainder of fewer than N rows; its first pass decides the
    rows of the aligned prefix by the mask of their lane group, lane group
    after lane group, and then the rows of the remainder by the scalar
    loop, which visits the indices from the aligned size up to the size of
    the range in order.  The selection the first pass leaves is the rows
    the lanes keep of the prefix followed by the rows the scalar loop keeps
    of the remainder, and the state the code returns holds that selection
    after the residual pass. *)
Theorem predicate_filter_partitions_range scan tile_group_id_ code fuel access
    tid_start tid_end st :
  FilterRowsByPredicate scan tile_group_id_ = Ok code ->
  0 <= tid_start <= tid_end -> tid_end < 2 ^ 32 ->
  tid_end - tid_start <= Vector.GetCapacity (selection_vector_ st) ->
  Vector.GetCapacity (selection_vector_ st) < 2 ^ 32 ->
  (Z.to_nat (tid_end - tid_start) < fuel)%nat ->
  let lane :=
    lane_mask_of (GetSIMDPredicates scan) (fun _ => getAllOnesValue N) in
  let row := row_mask_of (GetSIMDPredicates scan) (fun _ => true) in
  let orig_size := tid_end - tid_start in
  let align_size := N * (orig_size `div` N) in
  let prefix := seqZ tid_start align_size in
  let remainder :=
    (fun idx => tid_start + idx) <$> seqZ align_size (orig_size - align_size) in
  N = 32
  /\ CreateSub tid_end tid_start = orig_size
  /\ CreateMul (Const32 N) (CreateUDiv (CreateSub tid_end tid_start) (Const32 N))
     = align_size
  /\ 0 <= align_size <= orig_size
  /\ orig_size - align_size < N
  /\ row_range tid_start tid_end = prefix ++ remainder
  /\ (forall write_pos sel1,
        loopPostBatch fuel
          (RowBatch.mk tile_group_id_ tid_start (tid_start + align_size) false [])
          access row orig_size align_size write_pos sel1
        = let '(write_pos', sel') :=
            emit (row_valid row access) remainder write_pos sel1 in
          Some (orig_size, write_pos', sel'))
  /\ exists sel1 sel2,
       FilterRowsByPredicate_simd (lane_code_of lane) row tile_group_id_ fuel
         access tid_start tid_end (selection_vector_ st)
       = (let '(write_pos1, sel1) :=
            emit (lane_valid lane access tid_start) prefix 0
              (selection_vector_ st) in
          let '(write_pos2, sel2) :=
            emit (row_valid row access) remainder write_pos1 sel1 in
          Some (Vector.SetNumElements write_pos2 sel2))
       /\ FilterRowsByPredicate_simd (lane_code_of lane) row tile_group_id_ fuel
            access tid_start tid_end (selection_vector_ st)
          = Some sel1
       /\ Vector.selected sel1
          = List.filter (lane_valid lane access tid_start) prefix
            ++ List.filter (row_valid row access) remainder
       /\ FilterRowsByPredicate_residual
            (residual_code_of <$> residual_predicate scan) tile_group_id_ fuel
            access tid_start tid_end sel1
          = Some sel2
       /\ Vector.selected sel2
          = List.filter (residual_valid (residual_predicate scan) access)
              (Vector.selected sel1)
       /\ code fuel access tid_start tid_end st
          = Some (mkState sel2
                    (calls st ++ [CallGetClockStart; CallGetClockPause])).
Proof.
  intros Hcode Hrange Hend Hfit Hcap Hfuel lane row orig_size align_size.
  rewrite FilterRowsByPredicate_result in Hcode.
  destruct (kinds_ok _ && residual_ok _); [|done].
  injection Hcode as <-.
  assert (Horig : 0 <= orig_size < 2 ^ 32) by (unfold orig_size; lia).
  destruct (align_size_bounds orig_size) as [Ha Hrem]; [lia|].
  fold align_size in Ha, Hrem.
  assert (Hshift : (fun idx => tid_start + idx)
                     <$> seqZ align_size (orig_size - align_size)
                   = seqZ (tid_start + align_size) (orig_size - align_size)).
  { unfold seqZ. rewrite <-list_fmap_compose. apply list_fmap_ext.
    intros i x _. cbn. lia. }
  cbn zeta. rewrite Hshift.
  assert (Hsplit : row_range tid_start tid_end
                   = seqZ tid_start align_size
                     ++ seqZ (tid_start + align_size) (orig_size - align_size)).
  { unfold row_range. fold orig_size.
    rewrite <-seqZ_app by lia. f_equal. lia. }
  assert (Hlane : forall tid,
    tid ∈ seqZ tid_start align_size ->
    pass_valid lane row access tid_start tid_end tid
    = lane_valid lane access tid_start tid).
  { intros tid Htid. apply elem_of_seqZ in Htid. unfold pass_valid.
    fold orig_size. fold align_size.
    by rewrite (proj2 (Z.ltb_lt _ _)) by lia. }
  assert (Hrow : forall tid,
    tid ∈ seqZ (tid_start + align_size) (orig_size - align_size) ->
    pass_valid lane row access tid_start tid_end tid
    = row_valid row access tid).
  { intros tid Htid. apply elem_of_seqZ in Htid. unfold pass_valid.
    fold orig_size. fold align_size.
    by rewrite (proj2 (Z.ltb_ge _ _)) by lia. }
  split; [reflexivity|]. split; [by apply CreateSub_small|].
  rewrite CreateSub_small by done.
  split; [by apply align_size_exact|]. split; [done|]. split; [done|].
  split; [done|]. split.
  - intros write_pos sel1. set (batch := RowBatch.mk _ _ _ _ _).
    rewrite (loopPostBatch_emit batch access row orig_size eq_refl
               ltac:(cbn; lia) ltac:(cbn; lia)
               (Z.to_nat (orig_size - align_size))) by lia.
    cbn [RowBatch.tid_start_]. by rewrite Z2Nat.id by lia.
  - destruct (FilterRowsByPredicate_code_spec scan tile_group_id_ fuel access
                tid_start tid_end st)
      as (sel1 & sel2 & Hrun1 & Hrun2 & Hrun & Hsel1 & Hsel2 & _); [done..|].
    exists sel1, sel2. split; [|split; [exact Hrun1|split]].
    + rewrite FilterRowsByPredicate_simd_emit by done.
      rewrite Hsplit, emit_app.
      rewrite (emit_ext (pass_valid lane row access tid_start tid_end)
                 (lane_valid lane access tid_start)) by done.
      destruct (emit (lane_valid lane access tid_start) _ 0 _)
        as [write_pos1 sel1'].
      by rewrite (emit_ext (pass_valid lane row access tid_start tid_end)
                    (row_valid row access)) by done.
    + rewrite Hsel1, Hsplit, List.filter_app.
      rewrite (filter_ext_in
                 (simd_valid (GetSIMDPredicates scan) access tid_start tid_end)
                 (lane_valid lane access tid_start) _ Hlane).
      by rewrite (filter_ext_in
                    (simd_valid (GetSIMDPredicates scan) access tid_start
                       tid_end)
                    (row_valid row access) _ Hrow).
    + split; [exact Hrun2|]. split; [exact Hsel2|exact Hrun].
Qed.

Lemma Reify_expression_false_iff predicate env :
  Reify scalar_ops (DeriveValue_expression predicate) env = false
  <-> GetValue (DeriveValue_expression predicate) env = false
      \/ IsNull scalar_ops (DeriveValue_expression predicate) env = true.
Proof.
  unfold Reify, IsNull, IsNullable, DeriveValue_expression.
  cbn [GetType GetValue null_ nullable].
  clear IsVisible kDefaultVectorSize.
  destruct (expression_nullable predicate); cbn.
  - destruct (expression_is_null predicate env),
      (expression_value predicate env); intuition congruence.
  - intuition congruence.
Qed.

(** C6.  When the filter has a residual predicate, its code runs, after the
    first pass, a scalar pass over the rows the selection vector holds at
    that point and over no other row: it visits them in order, evaluates
    the residual predicate on each, and keeps a row unless the value is
    false or null. *)
Theorem residual_pass_drops_false_and_null scan tile_group_id_ code fuel
    access tid_start tid_end st predicate :
  FilterRowsByPredicate scan tile_group_id_ = Ok code ->
  residual_predicate scan = Some predicate ->
  0 <= tid_start <= tid_end -> tid_end < 2 ^ 32 ->
  tid_end - tid_start <= Vector.GetCapacity (selection_vector_ st) ->
  Vector.GetCapacity (selection_vector_ st) < 2 ^ 32 ->
  (Z.to_nat (tid_end - tid_start) < fuel)%nat ->
  let valid_row := DeriveValue_expression predicate in
  let keep tid := Reify scalar_ops valid_row (mkRowEnv access tid) in
  exists sel1 sel2,
    FilterRowsByPredicate_simd
      (lane_code_of
         (lane_mask_of (GetSIMDPredicates scan) (fun _ => getAllOnesValue N)))
      (row_mask_of (GetSIMDPredicates scan) (fun _ => true))
      tile_group_id_ fuel access tid_start tid_end (selection_vector_ st)
    = Some sel1
    /\ FilterRowsByPredicate_residual (Some (residual_code_of predicate))
         tile_group_id_ fuel access tid_start tid_end sel1
       = (let '(write_pos, sel') := emit keep (Vector.selected sel1) 0 sel1 in
          Some (Vector.SetNumElements write_pos sel'))
    /\ FilterRowsByPredicate_residual (Some (residual_code_of predicate))
         tile_group_id_ fuel access tid_start tid_end sel1
       = Some sel2
    /\ code fuel access tid_start tid_end st
       = Some (mkState sel2 (calls st ++ [CallGetClockStart; CallGetClockPause]))
    /\ Vector.selected sel2 = List.filter keep (Vector.selected sel1)
    /\ (forall tid,
          keep tid = false
          <-> GetValue valid_row (mkRowEnv access tid) = false
              \/ IsNull scalar_ops valid_row (mkRowEnv access tid) = true).
Proof.
  intros Hcode Hres Hrange Hend Hfit Hcap Hfuel valid_row keep.
  rewrite FilterRowsByPredicate_result in Hcode.
  destruct (kinds_ok _ && residual_ok _); [|done].
  injection Hcode as <-.
  destruct (FilterRowsByPredicate_code_spec scan tile_group_id_ fuel access
              tid_start tid_end st)
    as (sel1 & sel2 & Hrun1 & Hrun2 & Hrun & Hsel1 & Hsel2 & Hnum2 & Hcap2);
    [done..|].
  rewrite Hres in Hrun2, Hsel2. cbn [fmap option_fmap option_map] in Hrun2.
  exists sel1, sel2. split; [exact Hrun1|]. split.
  - destruct (FilterRowsByPredicate_simd_spec
                (lane_mask_of (GetSIMDPredicates scan)
                   (fun _ => getAllOnesValue N))
                (row_mask_of (GetSIMDPredicates scan) (fun _ => true))
                tile_group_id_ fuel access tid_start tid_end
                (selection_vector_ st) Hrange Hend Hfit Hcap Hfuel)
      as (sel1' & Hrun1' & Hsel1' & Hnum1 & Hcap1).
    assert (sel1' = sel1) as -> by congruence.
    assert (Z.of_nat (length (Vector.selected sel1)) <= tid_end - tid_start).
    { rewrite Hsel1, <-row_range_length by lia.
      apply inj_le, filter_length_le. }
    cbn [FilterRowsByPredicate_residual].
    rewrite (Iterate_emit _ _ keep); [|done|done|lia|lia|lia].
    by destruct (emit _ _ _ _).
  - split; [exact Hrun2|]. split; [exact Hrun|]. split; [exact Hsel2|].
    intros tid. apply Reify_expression_false_iff.
Qed.

(** C7.  The predicate filter emits code exactly when every value it
    reifies (the lane comparison and the scalar value of each SIMD
    predicate, and the value of the residual predicate) has the boolean SQL
    type; when one of them has another type the assertion fails and there
    is no code, so no filtering decision. *)
Theorem reified_values_are_boolean_or_assertion_fails scan tile_group_id_ :
  ((exists code, FilterRowsByPredicate scan tile_group_id_ = Ok code)
   <-> reified_values_boolean scan)
  /\ (FilterRowsByPredicate scan tile_group_id_ = AssertionFailure
      <-> ~ reified_values_boolean scan).
Proof.
  rewrite reified_values_boolean_iff, FilterRowsByPredicate_result.
  destruct (kinds_ok _ && residual_ok _); split; split;
    try done; try (by intros [? ?]); eauto.
Qed.

Lemma simd_valid_no_predicates access tid_start tid_end tid :
  simd_valid [] access tid_start tid_end tid = true.
Proof.
  unfold simd_valid, pass_valid, lane_valid, row_valid. cbn [lane_mask_of
    row_mask_of fold_left].
  destruct (_ <? _); [|done].
  unfold CreateExtractElement, getAllOnesValue.
  rewrite lookup_replicate_2; [done|].
  pose proof (Z.mod_pos_bound (tid - tid_start) N). unfold N in *. lia.
Qed.

(** C10.  For a plan with a predicate but neither SIMD predicates nor a
    non-SIMD predicate, the whole predicate is the residual predicate of
    the filter: the lane mask stays all ones, the first pass puts every row
    of the range into the selection vector, and the residual pass filters
    that selection by the predicate. *)
Theorem whole_predicate_goes_through_residual_pass scan tile_group_id_ fuel
    access tid_start tid_end st predicate :
  GetSIMDPredicates scan = [] ->
  GetNonSIMDPredicate scan = None ->
  GetPredicate scan = Some predicate ->
  GetValueType predicate = Boolean ->
  0 <= tid_start <= tid_end -> tid_end < 2 ^ 32 ->
  tid_end - tid_start <= Vector.GetCapacity (selection_vector_ st) ->
  Vector.GetCapacity (selection_vector_ st) < 2 ^ 32 ->
  (Z.to_nat (tid_end - tid_start) < fuel)%nat ->
  exists code sel1 sel2,
    FilterRowsByPredicate scan tile_group_id_ = Ok code
    /\ residual_predicate scan = Some predicate
    /\ (forall env,
          lane_mask_of (GetSIMDPredicates scan) (fun _ => getAllOnesValue N) env
          = getAllOnesValue N)
    /\ FilterRowsByPredicate_simd
         (lane_code_of
            (lane_mask_of (GetSIMDPredicates scan) (fun _ => getAllOnesValue N)))
         (row_mask_of (GetSIMDPredicates scan) (fun _ => true))
         tile_group_id_ fuel access tid_start tid_end (selection_vector_ st)
       = Some sel1
    /\ Vector.selected sel1 = row_range tid_start tid_end
    /\ FilterRowsByPredicate_residual (Some (residual_code_of predicate))
         tile_group_id_ fuel access tid_start tid_end sel1
       = Some sel2
    /\ code fuel access tid_start tid_end st
       = Some (mkState sel2 (calls st ++ [CallGetClockStart; CallGetClockPause]))
    /\ Vector.selected sel2
       = List.filter
           (fun tid =>
              Reify scalar_ops (DeriveValue_expression predicate)
                (mkRowEnv access tid))
           (row_range tid_start tid_end).
Proof.
  intros Hsimd Hnon Hpred Htype Hrange Hend Hfit Hcap Hfuel.
  assert (Hres : residual_predicate scan = Some predicate)
    by (unfold residual_predicate; by rewrite Hsimd, Hnon).
  destruct (FilterRowsByPredicate_code_spec scan tile_group_id_ fuel access
              tid_start tid_end st)
    as (sel1 & sel2 & Hrun1 & Hrun2 & Hrun & Hsel1 & Hsel2 & Hnum2 & Hcap2);
    [done..|].
  rewrite Hres in Hrun2, Hsel2. cbn [fmap option_fmap option_map] in Hrun2.
  assert (Hall : Vector.selected sel1 = row_range tid_start tid_end).
  { rewrite Hsel1, Hsimd. apply forallb_filter_id, forallb_forall.
    intros tid _. apply simd_valid_no_predicates. }
  exists (FilterRowsByPredicate_code scan tile_group_id_), sel1, sel2.
  split.
  { rewrite FilterRowsByPredicate_result, Hres, Hsimd. cbn.
    by rewrite bool_decide_eq_true_2. }
  split; [done|]. split; [by rewrite Hsimd|].
  split; [exact Hrun1|]. split; [exact Hall|]. split; [exact Hrun2|].
  split; [exact Hrun|]. by rewrite Hsel2, Hall.
Qed.

(** ** The name of the scan *)

Lemma append_assoc (a b c : string) : (a +:+ b) +:+ c = a +:+ b +:+ c.
Proof.
  induction a as [|x a IH]; [done|].
  change (String x ((a +:+ b) +:+ c) = String x (a +:+ b +:+ c)).
  by rewrite IH.
Qed.

Lemma prefix_append (s t : string) : String.prefix s (s +:+ t) = true.
Proof.
  induction s as [|x s IH]; [by destruct t|].
  change (String.prefix (String x s) (String x (s +:+ t)) = true).
  cbn [String.prefix]. destruct (Ascii.ascii_dec x x); [exact IH|done].
Qed.

Lemma containsb_unfold (s t : string) :
  containsb s t
  = String.prefix s t
    || match t with
       | EmptyString => false
       | String _ t' => containsb s t'
       end.
Proof. by destruct t. Qed.

Lemma Contains_containsb (s t : string) :
  Contains s t -> containsb s t = true.
Proof.
  intros (before & after & ->).
  induction before as [|x before IH].
  - change ("" +:+ s +:+ after) with (s +:+ after).
    by rewrite containsb_unfold, prefix_append.
  - change (String x before +:+ s +:+ after)
      with (String x (before +:+ s +:+ after)).
    cbn [containsb]. rewrite IH. apply orb_true_r.
Qed.

(** C8 (amended).  The name of the scan holds the name of the table.  When
    the plan has a predicate and the predicate is SIMDable, the name is
    Scan('table', size) where size is the decimal of
    Vector::kDefaultVectorSize, the default size of the selection vector:
    the constant the name holds is this one and not the lane width.
    Otherwise the name is Scan('table'). *)
Theorem GetName_holds_table_and_vector_size scan :
  Contains (GetTableName scan) (GetName scan)
  /\ if vectorizable scan
     then GetName scan
          = "Scan('" +:+ GetTableName scan +:+ "', "
            +:+ to_string kDefaultVectorSize +:+ ")"
          /\ Contains (to_string kDefaultVectorSize) (GetName scan)
     else GetName scan = "Scan('" +:+ GetTableName scan +:+ "')".
Proof.
  unfold GetName, vectorizable.
  destruct (GetPredicate scan) as [predicate|];
    [destruct (IsSIMDable predicate)|].
  - split; [|split].
    + exists "Scan('", ("', " +:+ to_string kDefaultVectorSize +:+ ")").
      by rewrite !append_assoc.
    + by rewrite !append_assoc.
    + exists ("Scan('" +:+ GetTableName scan +:+ "', "), ")".
      by rewrite !append_assoc.
  - split; [|by rewrite !append_assoc].
    exists "Scan('", "')". by rewrite !append_assoc.
  - split; [|by rewrite !append_assoc].
    exists "Scan('", "')". by rewrite !append_assoc.
Qed.

(** ** The chunk step as a whole *)

Lemma filter_filter_andb {A} (f g : A -> bool) (l : list A) :
  List.filter g (List.filter f l) = List.filter (fun x => f x && g x) l.
Proof.
  induction l as [|x l IH]; [done|]. cbn [List.filter].
  destruct (f x); cbn [List.filter andb]; [|done]. by rewrite IH.
Qed.

Lemma filter_filter_same {A} (f : A -> bool) (l : list A) :
  List.filter f (List.filter f l) = List.filter f l.
Proof.
  rewrite filter_filter_andb. induction l as [|x l IH]; [done|].
  cbn [List.filter]. rewrite IH. by destruct (f x).
Qed.

Lemma FilterRowsByVisibility_vector tid_start tid_end st :
  (length (List.filter IsVisible
             (candidates tid_start tid_end (selection_vector_ st)))
   <= length (Vector.vector_ptr (selection_vector_ st)))%nat ->
  let sel' := selection_vector_ (FilterRowsByVisibility tid_start tid_end st) in
  Vector.GetCapacity sel' = Vector.GetCapacity (selection_vector_ st)
  /\ Vector.num_elements sel'
     = Z.of_nat (length (List.filter IsVisible
                           (candidates tid_start tid_end (selection_vector_ st))))
  /\ forall i,
       (length (List.filter IsVisible
                  (candidates tid_start tid_end (selection_vector_ st))) <= i)%nat ->
       Vector.vector_ptr sel' !! i
       = Vector.vector_ptr (selection_vector_ st) !! i.
Proof.
  unfold FilterRowsByVisibility, PerformVectorizedRead, candidates, row_range,
    Vector.GetCapacity, Vector.GetNumElements, Vector.selected.
  cbn. intros Hlen. set (visible := List.filter IsVisible _) in *.
  split; [|split; [done|]].
  - rewrite length_app, length_drop. lia.
  - intros i Hi. rewrite lookup_app_r by done. rewrite lookup_drop.
    f_equal. lia.
Qed.

Lemma ProcessTuples_code_spec scan tile_group_id_ fuel access tid_start
    tid_end st :
  0 <= tid_start <= tid_end -> tid_end < 2 ^ 32 ->
  tid_end - tid_start <= Vector.GetCapacity (selection_vector_ st) ->
  Vector.GetCapacity (selection_vector_ st) < 2 ^ 32 - 1 ->
  (Z.to_nat (tid_end - tid_start) < fuel)%nat ->
  exists st',
    ProcessTuples_code scan tile_group_id_ fuel access tid_start tid_end st
    = Some st'
    /\ Vector.selected (selection_vector_ st')
       = List.filter IsVisible
           (List.filter (keep_row scan access tid_start tid_end)
              (row_range tid_start tid_end))
    /\ Vector.num_elements (selection_vector_ st')
       = Z.of_nat (length (Vector.selected (selection_vector_ st')))
    /\ Vector.GetCapacity (selection_vector_ st')
       = Vector.GetCapacity (selection_vector_ st).
Proof.
  intros Hrange Hend Hfit Hcap Hfuel. unfold ProcessTuples_code, keep_row.
  destruct (GetPredicate scan) as [predicate|].
  - destruct (FilterRowsByPredicate_code_spec scan tile_group_id_ fuel access
                tid_start tid_end st)
      as (sel1 & sel2 & _ & _ & Hrun & Hsel1 & Hsel2 & Hnum2 & Hcap2);
      [done|done|done|lia|done|].
    rewrite Hrun. cbn [mbind option_bind]. eexists. split; [reflexivity|].
    unfold call. cbn [selection_vector_ calls].
    set (st1 := mkState sel2 _).
    assert (Hsel : Vector.selected sel2
                   = List.filter
                       (fun tid =>
                          simd_valid (GetSIMDPredicates scan) access tid_start
                            tid_end tid
                          && residual_valid (residual_predicate scan) access tid)
                       (row_range tid_start tid_end))
      by (by rewrite Hsel2, Hsel1, filter_filter_andb).
    assert (Hlen2 : Z.of_nat (length (Vector.selected sel2))
                    <= tid_end - tid_start).
    { rewrite <-row_range_length by lia. rewrite Hsel.
      apply inj_le, filter_length_le. }
    assert (Hcand : candidates tid_start tid_end (selection_vector_ st1)
                    = Vector.selected sel2).
    { unfold candidates, Vector.GetNumElements. subst st1.
      cbn [selection_vector_].
      rewrite bool_decide_eq_false_2; [done|].
      rewrite Hnum2. change (Const32 (-1)) with 4294967295.
      pose proof two_32. lia. }
    destruct (FilterRowsByVisibility_spec tid_start tid_end st1) as [_ Hvis].
    destruct (FilterRowsByVisibility_vector tid_start tid_end st1)
      as (Hc & Hn & _).
    { rewrite Hcand. etrans; [apply filter_length_le|].
      unfold Vector.GetCapacity in Hcap2, Hfit. subst st1.
      cbn [selection_vector_]. lia. }
    cbn zeta in Hvis, Hc, Hn. rewrite Hvis, Hn, Hc, Hcand, Hsel.
    subst st1. cbn [selection_vector_]. done.
  - cbn [mbind option_bind]. eexists. split; [reflexivity|].
    unfold call. cbn [selection_vector_ calls].
    set (st1 := set_selection _ st).
    assert (Hcand : candidates tid_start tid_end (selection_vector_ st1)
                    = row_range tid_start tid_end) by done.
    destruct (FilterRowsByVisibility_spec tid_start tid_end st1) as [_ Hvis].
    destruct (FilterRowsByVisibility_vector tid_start tid_end st1)
      as (Hc & Hn & _).
    { rewrite Hcand. etrans; [apply filter_length_le|].
      pose proof (row_range_length tid_start tid_end) as Hl.
      unfold Vector.GetCapacity in Hfit. subst st1. cbn. lia. }
    cbn zeta in Hvis, Hc, Hn. rewrite Hvis, Hn, Hc, Hcand.
    split; [|done]. f_equal. symmetry. apply forallb_filter_id.
    by apply forallb_forall.
Qed.

(** Writing rows through an output tracker touches the buffer only from the
    cursor on, one entry per row at most. *)
Lemma emit_frame valid tids : forall pos sel,
  0 <= pos -> pos + Z.of_nat (length tids) < 2 ^ 32 ->
  forall i, (Z.to_nat pos + length tids <= i)%nat ->
    Vector.vector_ptr (emit valid tids pos sel).2 !! i
    = Vector.vector_ptr sel !! i.
Proof.
  induction tids as [|tid tids IH]; intros pos sel Hpos Hfit i Hi; [done|].
  unfold emit. cbn [fold_left].
  change (fold_left _ tids ?a) with (emit valid tids a.1 a.2). cbn [fst snd].
  cbn [length] in Hfit, Hi.
  assert (Hw : pos <= CreateAdd pos (CreateZExt (valid tid)) <= pos + 1).
  { rewrite CreateAdd_small; destruct (valid tid); cbn; bounds. }
  rewrite IH by lia. cbn [Vector.SetValue Vector.vector_ptr].
  apply list_lookup_insert_ne. lia.
Qed.

Lemma FilterRowsByPredicate_residual_emit non_simd_predicate tile_group_id_
    fuel access tid_start tid_end sel :
  0 <= Vector.num_elements sel <= Vector.GetCapacity sel ->
  Vector.GetCapacity sel < 2 ^ 32 ->
  (Z.to_nat (Vector.num_elements sel) < fuel)%nat ->
  FilterRowsByPredicate_residual (residual_code_of <$> non_simd_predicate)
    tile_group_id_ fuel access tid_start tid_end sel
  = match non_simd_predicate with
    | Some predicate =>
        let '(write_pos, sel') :=
          emit (residual_valid (Some predicate) access) (Vector.selected sel)
            0 sel in
        Some (Vector.SetNumElements write_pos sel')
    | None => Some sel
    end.
Proof.
  intros Hnum Hcap Hfuel.
  destruct non_simd_predicate as [predicate|];
    cbn [fmap option_fmap option_map FilterRowsByPredicate_residual]; [|done].
  rewrite (Iterate_emit _ _ (residual_valid (Some predicate) access)) by done.
  by destruct (emit _ _ 0 sel).
Qed.

(** The predicate filter leaves the buffer of the selection vector as it is
    from the size of the range on. *)
Lemma FilterRowsByPredicate_code_frame scan tile_group_id_ fuel access
    tid_start tid_end st st1 :
  0 <= tid_start <= tid_end -> tid_end < 2 ^ 32 ->
  tid_end - tid_start <= Vector.GetCapacity (selection_vector_ st) ->
  Vector.GetCapacity (selection_vector_ st) < 2 ^ 32 ->
  (Z.to_nat (tid_end - tid_start) < fuel)%nat ->
  FilterRowsByPredicate_code scan tile_group_id_ fuel access tid_start tid_end
    st = Some st1 ->
  forall i, (Z.to_nat (tid_end - tid_start) <= i)%nat ->
    Vector.vector_ptr (selection_vector_ st1) !! i
    = Vector.vector_ptr (selection_vector_ st) !! i.
Proof.
  intros Hrange Hend Hfit Hcap Hfuel Hrun i Hi.
  destruct (FilterRowsByPredicate_simd_spec
              (lane_mask_of (GetSIMDPredicates scan) (fun _ => getAllOnesValue N))
              (row_mask_of (GetSIMDPredicates scan) (fun _ => true))
              tile_group_id_ fuel access tid_start tid_end (selection_vector_ st))
    as (sel1 & Hrun1 & Hsel1 & Hnum1 & Hcap1); [done..|].
  assert (Hlen1 : Z.of_nat (length (Vector.selected sel1)) <= tid_end - tid_start).
  { rewrite Hsel1, <-row_range_length by lia.
    apply inj_le, filter_length_le. }
  unfold FilterRowsByPredicate_code in Hrun.
  cbn [call selection_vector_ calls] in Hrun. rewrite Hrun1 in Hrun.
  cbn [mbind option_bind] in Hrun.
  rewrite FilterRowsByPredicate_residual_emit in Hrun by lia.
  assert (Hptr1 : Vector.vector_ptr sel1 !! i
                  = Vector.vector_ptr (selection_vector_ st) !! i).
  { rewrite FilterRowsByPredicate_simd_emit in Hrun1 by done.
    pose proof (emit_frame
                  (pass_valid
                     (lane_mask_of (GetSIMDPredicates scan)
                        (fun _ => getAllOnesValue N))
                     (row_mask_of (GetSIMDPredicates scan) (fun _ => true))
                     access tid_start tid_end)
                  (row_range tid_start tid_end) 0 (selection_vector_ st))
      as Hframe.
    pose proof (row_range_length tid_start tid_end) as Hl.
    destruct (emit _ _ 0 (selection_vector_ st)) as [write_pos sel'].
    injection Hrun1 as <-. cbn [Vector.SetNumElements Vector.vector_ptr].
    apply Hframe; lia. }
  destruct (residual_predicate scan) as [predicate|].
  - pose proof (emit_frame (residual_valid (Some predicate) access)
                  (Vector.selected sel1) 0 sel1) as Hframe.
    destruct (emit _ _ 0 sel1) as [write_pos sel'].
    cbn [mbind option_bind] in Hrun. injection Hrun as <-.
    cbn [set_selection call selection_vector_ Vector.SetNumElements
         Vector.vector_ptr].
    cbn [snd] in Hframe. rewrite Hframe; [done|lia|lia|lia].
  - cbn [mbind option_bind] in Hrun. injection Hrun as <-. done.
Qed.

Lemma ProcessTuples_code_frame scan tile_group_id_ fuel access tid_start
    tid_end st st' :
  0 <= tid_start <= tid_end -> tid_end < 2 ^ 32 ->
  tid_end - tid_start <= Vector.GetCapacity (selection_vector_ st) ->
  Vector.GetCapacity (selection_vector_ st) < 2 ^ 32 - 1 ->
  (Z.to_nat (tid_end - tid_start) < fuel)%nat ->
  ProcessTuples_code scan tile_group_id_ fuel access tid_start tid_end st
  = Some st' ->
  forall i, (Z.to_nat (tid_end - tid_start) <= i)%nat ->
    Vector.vector_ptr (selection_vector_ st') !! i
    = Vector.vector_ptr (selection_vector_ st) !! i.
Proof.
  intros Hrange Hend Hfit Hcap Hfuel Hrun i Hi.
  unfold ProcessTuples_code in Hrun.
  assert (Hvis : forall st1,
    Vector.GetCapacity (selection_vector_ st1)
    = Vector.GetCapacity (selection_vector_ st) ->
    (length (candidates tid_start tid_end (selection_vector_ st1))
     <= Z.to_nat (tid_end - tid_start))%nat ->
    Vector.vector_ptr
      (selection_vector_ (FilterRowsByVisibility tid_start tid_end st1)) !! i
    = Vector.vector_ptr (selection_vector_ st1) !! i).
  { intros st1 Hc Hl.
    pose proof (filter_length_le IsVisible
                  (candidates tid_start tid_end (selection_vector_ st1))) as Hf.
    apply FilterRowsByVisibility_vector; [|lia].
    unfold Vector.GetCapacity in Hc, Hfit. lia. }
  destruct (GetPredicate scan) as [predicate|].
  - destruct (FilterRowsByPredicate_code_spec scan tile_group_id_ fuel access
                tid_start tid_end st)
      as (sel1 & sel2 & _ & _ & Hrun1 & Hsel1 & Hsel2 & Hnum2 & Hcap2);
      [done|done|done|lia|done|].
    pose proof (FilterRowsByPredicate_code_frame scan tile_group_id_ fuel
                  access tid_start tid_end st _ Hrange Hend Hfit
                  ltac:(lia) Hfuel Hrun1 i Hi) as Hframe.
    rewrite Hrun1 in Hrun. cbn [mbind option_bind] in Hrun.
    injection Hrun as <-. unfold call at 1. cbn [selection_vector_].
    cbn [selection_vector_] in Hframe. rewrite <-Hframe.
    apply Hvis; cbn [selection_vector_]; [done|].
    assert (Hlen2 : (length (Vector.selected sel2)
                     <= length (row_range tid_start tid_end))%nat).
    { rewrite Hsel2, Hsel1.
      etrans; [apply filter_length_le|apply filter_length_le]. }
    pose proof (row_range_length tid_start tid_end) as Hl.
    unfold candidates, Vector.GetNumElements.
    rewrite bool_decide_eq_false_2; [lia|].
    rewrite Hnum2. change (Const32 (-1)) with 4294967295.
    pose proof two_32. lia.
  - cbn [mbind option_bind] in Hrun. injection Hrun as <-.
    unfold call at 1. cbn [selection_vector_].
    rewrite Hvis; [done|done|].
    pose proof (row_range_length tid_start tid_end) as Hl.
    change (candidates _ _ _) with (row_range tid_start tid_end). lia.
Qed.

(** Whenever a chunk step returns, it has added one Consume call. *)
Lemma ProcessTuples_code_calls scan tile_group_id_ fuel access tid_start
    tid_end st st' :
  ProcessTuples_code scan tile_group_id_ fuel access tid_start tid_end st
  = Some st' ->
  exists new_calls,
    calls st' = calls st ++ new_calls
    /\ length (List.filter is_consume new_calls) = 1%nat
    /\ last (calls st')
       = Some (CallConsume
                 (SetupRowBatch scan
                    (RowBatch.mk tile_group_id_ tid_start tid_end true []))
                 (selection_vector_ st')).
Proof.
  unfold ProcessTuples_code, FilterRowsByPredicate_code. intros Hrun.
  destruct (GetPredicate scan) as [predicate|].
  - destruct (FilterRowsByPredicate_simd _ _ _ _ _ _ _ _) as [sel1|];
      [|discriminate].
    cbn [mbind option_bind] in Hrun.
    destruct (FilterRowsByPredicate_residual _ _ _ _ _ _ _) as [sel2|];
      [|discriminate].
    cbn [mbind option_bind] in Hrun. injection Hrun as <-.
    eexists. unfold call, set_selection. cbn [calls selection_vector_].
    rewrite last_snoc.
    rewrite (proj1 (FilterRowsByVisibility_spec tid_start tid_end _)).
    cbn [selection_vector_ calls].
    rewrite <-!app_assoc. repeat split; reflexivity.
  - cbn [mbind option_bind] in Hrun. injection Hrun as <-.
    eexists. unfold call, set_selection. cbn [calls selection_vector_].
    rewrite last_snoc.
    rewrite (proj1 (FilterRowsByVisibility_spec tid_start tid_end _)).
    cbn [selection_vector_ calls].
    rewrite <-!app_assoc. repeat split; reflexivity.
Qed.

(** X3.  A chunk overwrites the selection vector: the rows the batch is
    consumed with do not depend on what the vector held before the chunk,
    neither on its entries nor on its count. *)
Theorem ProcessTuples_overwrites_the_selection scan tile_group_id_ code fuel
    access tid_start tid_end st1 st2 :
  ProcessTuples scan tile_group_id_ = Ok code ->
  0 <= tid_start <= tid_end -> tid_end < 2 ^ 32 ->
  tid_end - tid_start <= Vector.GetCapacity (selection_vector_ st1) ->
  Vector.GetCapacity (selection_vector_ st1) < 2 ^ 32 - 1 ->
  tid_end - tid_start <= Vector.GetCapacity (selection_vector_ st2) ->
  Vector.GetCapacity (selection_vector_ st2) < 2 ^ 32 - 1 ->
  (Z.to_nat (tid_end - tid_start) < fuel)%nat ->
  exists st1' st2',
    code fuel access tid_start tid_end st1 = Some st1'
    /\ code fuel access tid_start tid_end st2 = Some st2'
    /\ Vector.selected (selection_vector_ st1')
       = Vector.selected (selection_vector_ st2')
    /\ Vector.num_elements (selection_vector_ st1')
       = Vector.num_elements (selection_vector_ st2').
Proof.
  intros Hcode Hrange Hend Hfit1 Hcap1 Hfit2 Hcap2 Hfuel.
  apply ProcessTuples_Ok in Hcode as ->.
  destruct (ProcessTuples_code_spec scan tile_group_id_ fuel access tid_start
              tid_end st1) as (st1' & Hrun1 & Hsel1 & Hnum1 & _); [done..|].
  destruct (ProcessTuples_code_spec scan tile_group_id_ fuel access tid_start
              tid_end st2) as (st2' & Hrun2 & Hsel2 & Hnum2 & _); [done..|].
  exists st1', st2'. repeat split; [done|done|congruence|].
  rewrite Hnum1, Hnum2. congruence.
Qed.

(** X4.  The selection vector is reused from chunk to chunk: a chunk keeps
    its capacity and leaves a count that is the number of selected rows, at
    most the size of the range, so that a second chunk runs on the vector
    the first one left; each chunk adds one Consume call, and the second
    batch is consumed with the visible rows of the second range that the
    predicate filter keeps, whatever the first chunk selected. *)
Theorem consecutive_chunks_reuse_the_selection_vector scan tile_group_id_ code
    fuel access1 access2 tid_start1 tid_end1 tid_start2 tid_end2 st :
  ProcessTuples scan tile_group_id_ = Ok code ->
  0 <= tid_start1 <= tid_end1 -> tid_end1 < 2 ^ 32 ->
  0 <= tid_start2 <= tid_end2 -> tid_end2 < 2 ^ 32 ->
  tid_end1 - tid_start1 <= Vector.GetCapacity (selection_vector_ st) ->
  tid_end2 - tid_start2 <= Vector.GetCapacity (selection_vector_ st) ->
  Vector.GetCapacity (selection_vector_ st) < 2 ^ 32 - 1 ->
  (Z.to_nat (tid_end1 - tid_start1) < fuel)%nat ->
  (Z.to_nat (tid_end2 - tid_start2) < fuel)%nat ->
  exists st1 st2,
    code fuel access1 tid_start1 tid_end1 st = Some st1
    /\ code fuel access2 tid_start2 tid_end2 st1 = Some st2
    /\ Vector.GetCapacity (selection_vector_ st1)
       = Vector.GetCapacity (selection_vector_ st)
    /\ Vector.GetCapacity (selection_vector_ st2)
       = Vector.GetCapacity (selection_vector_ st)
    /\ 0 <= Vector.num_elements (selection_vector_ st1) <= tid_end1 - tid_start1
    /\ 0 <= Vector.num_elements (selection_vector_ st2) <= tid_end2 - tid_start2
    /\ Vector.selected (selection_vector_ st2)
       = List.filter IsVisible
           (List.filter (keep_row scan access2 tid_start2 tid_end2)
              (row_range tid_start2 tid_end2))
    /\ length (List.filter is_consume (calls st2))
       = (length (List.filter is_consume (calls st)) + 2)%nat.
Proof.
  intros Hcode Hr1 He1 Hr2 He2 Hfit1 Hfit2 Hcap Hfuel1 Hfuel2.
  pose proof Hcode as Hcode'. apply ProcessTuples_Ok in Hcode' as ->.
  destruct (ProcessTuples_code_spec scan tile_group_id_ fuel access1 tid_start1
              tid_end1 st) as (st1 & Hrun1 & Hsel1 & Hnum1 & Hcap1); [done..|].
  destruct (ProcessTuples_code_spec scan tile_group_id_ fuel access2 tid_start2
              tid_end2 st1) as (st2 & Hrun2 & Hsel2 & Hnum2 & Hcap2);
    [done|done|lia|lia|done|].
  assert (Hbound : forall st' access tid_start tid_end,
    tid_start <= tid_end ->
    Vector.selected (selection_vector_ st')
    = List.filter IsVisible
        (List.filter (keep_row scan access tid_start tid_end)
           (row_range tid_start tid_end)) ->
    Vector.num_elements (selection_vector_ st')
    = Z.of_nat (length (Vector.selected (selection_vector_ st'))) ->
    0 <= Vector.num_elements (selection_vector_ st') <= tid_end - tid_start).
  { intros st' access tid_start tid_end Hle Hsel Hnum. rewrite Hnum, Hsel.
    rewrite <-(row_range_length tid_start tid_end) by lia.
    split; [lia|]. apply inj_le.
    etrans; [apply filter_length_le|apply filter_length_le]. }
  assert (Hconsume : forall access tid_start tid_end st0 st',
    ProcessTuples_code scan tile_group_id_ fuel access tid_start tid_end st0
    = Some st' ->
    length (List.filter is_consume (calls st'))
    = S (length (List.filter is_consume (calls st0)))).
  { intros access tid_start tid_end st0 st' Hrun.
    destruct (ProcessTuples_code_calls _ _ _ _ _ _ _ _ Hrun)
      as (new_calls & Hcalls & Hone & _).
    rewrite Hcalls, List.filter_app, length_app, Hone. lia. }
  exists st1, st2. split; [done|]. split; [done|]. split; [done|].
  split; [congruence|]. split; [apply (Hbound st1 access1); [lia|done..]|].
  split; [apply (Hbound st2 access2); [lia|done..]|]. split; [done|].
  rewrite (Hconsume _ _ _ _ _ Hrun2), (Hconsume _ _ _ _ _ Hrun1). lia.
Qed.

(** X5.  A chunk never stores past the rows of its range: the buffer of the
    selection vector keeps its length, and its entries from the size of the
    range on are the ones it held before the chunk. *)
Theorem ProcessTuples_writes_within_the_range scan tile_group_id_ code fuel
    access tid_start tid_end st st' :
  ProcessTuples scan tile_group_id_ = Ok code ->
  0 <= tid_start <= tid_end -> tid_end < 2 ^ 32 ->
  tid_end - tid_start <= Vector.GetCapacity (selection_vector_ st) ->
  Vector.GetCapacity (selection_vector_ st) < 2 ^ 32 - 1 ->
  (Z.to_nat (tid_end - tid_start) < fuel)%nat ->
  code fuel access tid_start tid_end st = Some st' ->
  length (Vector.vector_ptr (selection_vector_ st'))
  = length (Vector.vector_ptr (selection_vector_ st))
  /\ forall i, (Z.to_nat (tid_end - tid_start) <= i)%nat ->
       Vector.vector_ptr (selection_vector_ st') !! i
       = Vector.vector_ptr (selection_vector_ st) !! i.
Proof.
  intros Hcode Hrange Hend Hfit Hcap Hfuel Hrun.
  apply ProcessTuples_Ok in Hcode as ->.
  split; [|by eapply ProcessTuples_code_frame].
  destruct (ProcessTuples_code_spec scan tile_group_id_ fuel access tid_start
              tid_end st) as (st1 & Hrun1 & _ & _ & Hcap1); [done..|].
  rewrite Hrun in Hrun1. injection Hrun1 as <-.
  unfold Vector.GetCapacity in Hcap1. lia.
Qed.

(** X6.  An empty chunk (tid_start = tid_end) still hands a batch to the
    pipeline: the batch is consumed with the count 0 and the buffer of the
    selection vector untouched, with or without a predicate. *)
Theorem empty_chunk_is_consumed_empty scan tile_group_id_ code fuel access
    tid st :
  ProcessTuples scan tile_group_id_ = Ok code ->
  0 <= tid < 2 ^ 32 ->
  Vector.GetCapacity (selection_vector_ st) < 2 ^ 32 - 1 ->
  (0 < fuel)%nat ->
  exists st',
    code fuel access tid tid st = Some st'
    /\ selection_vector_ st'
       = Vector.mk (Vector.vector_ptr (selection_vector_ st)) 0
    /\ last (calls st')
       = Some (CallConsume
                 (SetupRowBatch scan
                    (RowBatch.mk tile_group_id_ tid tid true []))
                 (Vector.mk (Vector.vector_ptr (selection_vector_ st)) 0)).
Proof.
  intros Hcode Htid Hcap Hfuel.
  apply ProcessTuples_Ok in Hcode as ->.
  assert (Hfit : tid - tid <= Vector.GetCapacity (selection_vector_ st))
    by (unfold Vector.GetCapacity; lia).
  destruct (ProcessTuples_code_spec scan tile_group_id_ fuel access tid tid st)
    as (st' & Hrun & Hsel & Hnum & _); [lia|lia|done|done|lia|].
  pose proof (ProcessTuples_code_frame scan tile_group_id_ fuel access tid tid
                st st' ltac:(lia) ltac:(lia) Hfit Hcap ltac:(lia) Hrun)
    as Hframe.
  destruct (ProcessTuples_code_calls _ _ _ _ _ _ _ _ Hrun) as (_ & _ & _ & Hlast).
  assert (Hst : selection_vector_ st'
                = Vector.mk (Vector.vector_ptr (selection_vector_ st)) 0).
  { unfold row_range in Hsel. rewrite Z.sub_diag in Hsel.
    cbn in Hsel. rewrite Hsel in Hnum. cbn in Hnum.
    destruct (selection_vector_ st') as [ptr num]. cbn in Hnum, Hframe |- *.
    f_equal; [|done]. apply list_eq. intros i. apply Hframe. lia. }
  exists st'. split; [done|]. split; [done|]. by rewrite Hlast, Hst.
Qed.

(** X7.  On a range of fewer than N = 32 rows the first pass of the
    predicate filter never runs the lane callback: whatever the callback
    is, the pass selects the rows of the range the scalar loop accepts. *)
Theorem short_range_never_runs_the_lane_callback lane_code row tile_group_id_
    fuel access tid_start tid_end sel :
  0 <= tid_start <= tid_end -> tid_end < 2 ^ 32 ->
  tid_end - tid_start < N ->
  tid_end - tid_start <= Vector.GetCapacity sel ->
  Vector.GetCapacity sel < 2 ^ 32 ->
  (Z.to_nat (tid_end - tid_start) < fuel)%nat ->
  exists sel',
    FilterRowsByPredicate_simd lane_code row tile_group_id_ fuel access
      tid_start tid_end sel = Some sel'
    /\ Vector.selected sel'
       = List.filter (row_valid row access) (row_range tid_start tid_end)
    /\ Vector.num_elements sel' = Z.of_nat (length (Vector.selected sel')).
Proof.
  intros Hrange Hend Hshort Hfit Hcap Hfuel.
  unfold FilterRowsByPredicate_simd, row_range.
  set (orig_size := tid_end - tid_start) in *.
  assert (Horig : 0 <= orig_size < 2 ^ 32) by (unfold orig_size; lia).
  rewrite CreateSub_small by done. fold orig_size.
  rewrite align_size_exact by done.
  rewrite (Z.div_small orig_size N) by lia. change (N * 0) with 0.
  rewrite CreateAdd_small by lia.
  rewrite (VectorizedIterate_emit _ _ (fun _ => true) 0);
    [|done|cbn; lia|cbn; lia|cbn; lia|intros; lia|lia].
  cbn [RowBatch.tid_start_]. change (N * Z.of_nat 0) with 0.
  change (seqZ tid_start 0) with (@nil Z).
  change (emit (fun _ => true) [] 0 sel) with (0, sel).
  cbn [RowBatch.UpdateWritePosition mbind option_bind].
  unfold Vector.GetNumElements at 1.
  cbn [Vector.SetNumElements Vector.num_elements].
  cbn [RowBatch.SetFiltered RowBatch.tile_group_id RowBatch.tid_start_
       RowBatch.tid_end_ RowBatch.attributes_].
  set (batch := RowBatch.mk _ _ _ false _).
  rewrite (loopPostBatch_emit batch access row orig_size eq_refl
             ltac:(cbn; lia) ltac:(cbn; lia) (Z.to_nat orig_size)) by lia.
  subst batch. cbn [RowBatch.tid_start_].
  rewrite Z2Nat.id, Z.add_0_r by lia.
  change (Vector.mk (Vector.vector_ptr sel) 0)
    with (Vector.SetNumElements 0 sel).
  rewrite emit_SetNumElements.
  pose proof (emit_spec (row_valid row access) (seqZ tid_start orig_size) 0 sel)
    as Hspec.
  rewrite length_seqZ in Hspec.
  destruct (emit (row_valid row access) _ 0 sel) as [write_pos sel'].
  destruct Hspec as (Hpos & _ & _ & Ht); [lia..|].
  cbn [Z.to_nat take app] in Ht. rewrite Z.add_0_l in Hpos.
  cbn [mbind option_bind RowBatch.UpdateWritePosition].
  eexists. split; [reflexivity|]. unfold Vector.selected.
  cbn [Vector.SetNumElements Vector.vector_ptr Vector.num_elements].
  rewrite Ht. by split.
Qed.

(** X8.  The residual pass is idempotent: run again on the selection it
    left, it leaves the same selection. *)
Theorem residual_pass_is_idempotent non_simd_predicate tile_group_id_ fuel
    access tid_start tid_end sel :
  0 <= Vector.num_elements sel <= Vector.GetCapacity sel ->
  Vector.num_elements sel = Z.of_nat (length (Vector.selected sel)) ->
  Vector.GetCapacity sel < 2 ^ 32 ->
  (Z.to_nat (Vector.num_elements sel) < fuel)%nat ->
  exists sel1 sel2,
    FilterRowsByPredicate_residual (residual_code_of <$> non_simd_predicate)
      tile_group_id_ fuel access tid_start tid_end sel = Some sel1
    /\ FilterRowsByPredicate_residual (residual_code_of <$> non_simd_predicate)
         tile_group_id_ fuel access tid_start tid_end sel1 = Some sel2
    /\ Vector.selected sel2 = Vector.selected sel1
    /\ Vector.num_elements sel2 = Vector.num_elements sel1.
Proof.
  intros Hnum Hlen Hcap Hfuel.
  destruct (FilterRowsByPredicate_residual_spec non_simd_predicate
              tile_group_id_ fuel access tid_start tid_end sel)
    as (sel1 & Hrun1 & Hsel1 & Hnum1 & Hcap1); [done..|].
  assert (Hle : (length (Vector.selected sel1) <= length (Vector.selected sel))%nat)
    by (rewrite Hsel1; apply filter_length_le).
  destruct (FilterRowsByPredicate_residual_spec non_simd_predicate
              tile_group_id_ fuel access tid_start tid_end sel1)
    as (sel2 & Hrun2 & Hsel2 & Hnum2 & Hcap2); [lia|done|lia|lia|].
  exists sel1, sel2. split; [done|]. split; [done|].
  assert (Heq : Vector.selected sel2 = Vector.selected sel1)
    by (by rewrite Hsel2, Hsel1, filter_filter_same).
  split; [done|]. by rewrite Hnum2, Hnum1, Heq.
Qed.

Lemma forallb_false_iff {A} (f : A -> bool) (l : list A) :
  forallb f l = false <-> exists x, x ∈ l /\ f x = false.
Proof.
  induction l as [|x l IH]; cbn [forallb].
  - split; [done|]. intros (x & Hx & _). by apply elem_of_nil in Hx.
  - rewrite andb_false_iff, IH. split.
    + intros [Hx|(y & Hy & Hf)]; [exists x|exists y]; split; try done;
        [apply list_elem_of_here|by apply list_elem_of_further].
    + intros (y & Hy & Hf). apply elem_of_cons in Hy as [->|Hy]; [by left|].
      right. by exists y.
Qed.

(** X10.  Code generation for a chunk fails its assertion exactly when the
    scan has a predicate and either one of its SIMD predicates is not one
    of the six comparisons of the switch, or the residual predicate of the
    filter is not of the boolean type.  A scan without a predicate never
    fails, whatever its SIMD predicates are: the filter is not emitted. *)
Theorem ProcessTuples_fails_iff scan tile_group_id_ :
  ProcessTuples scan tile_group_id_ = AssertionFailure
  <-> is_Some (GetPredicate scan)
      /\ ((exists simd_predicate,
             simd_predicate ∈ GetSIMDPredicates scan
             /\ is_comparison (GetExpressionType simd_predicate) = false)
          \/ (exists predicate,
                residual_predicate scan = Some predicate
                /\ GetValueType predicate <> Boolean)).
Proof.
  rewrite ProcessTuples_result.
  destruct (GetPredicate scan) as [predicate|].
  2:{ split; [done|]. by intros [[? ?] _]. }
  destruct (kinds_ok _ && residual_ok _) eqn:Hok.
  - split; [done|]. intros [_ Hbad]. apply andb_prop in Hok as [Hk Hr].
    destruct Hbad as [(p & Hp & Hkind)|(e & He & Htype)].
    + unfold kinds_ok in Hk. rewrite forallb_forall in Hk.
      rewrite list_elem_of_In in Hp. specialize (Hk p Hp). congruence.
    + rewrite He in Hr. cbn in Hr. by apply bool_decide_eq_true in Hr.
  - split; [|done]. intros _. split; [by eexists|].
    apply andb_false_iff in Hok as [Hk|Hr].
    + left. by apply forallb_false_iff in Hk.
    + right. destruct (residual_predicate scan) as [e|]; [|done].
      exists e. split; [done|]. cbn in Hr.
      by apply bool_decide_eq_false in Hr.
Qed.

(** The first pass, for the predicates the switch accepts, selects the
    rows of the range its masks accept; for others it has no code. *)
Lemma first_pass_spec simd_predicates tile_group_id_ fuel access tid_start
    tid_end sel :
  0 <= tid_start <= tid_end -> tid_end < 2 ^ 32 ->
  tid_end - tid_start <= Vector.GetCapacity sel ->
  Vector.GetCapacity sel < 2 ^ 32 ->
  (Z.to_nat (tid_end - tid_start) < fuel)%nat ->
  first_pass simd_predicates tile_group_id_ fuel access tid_start tid_end sel
  = if kinds_ok simd_predicates
    then Some (List.filter (simd_valid simd_predicates access tid_start tid_end)
                 (row_range tid_start tid_end))
    else None.
Proof.
  intros Hrange Hend Hfit Hcap Hfuel. unfold first_pass.
  rewrite ProcessRows_result, row_mask_result.
  destruct (kinds_ok simd_predicates); [|done].
  destruct (FilterRowsByPredicate_simd_spec
              (lane_mask_of simd_predicates (fun _ => getAllOnesValue N))
              (row_mask_of simd_predicates (fun _ => true))
              tile_group_id_ fuel access tid_start tid_end sel)
    as (sel1 & Hrun1 & Hsel1 & _); [done..|].
  rewrite Hrun1. cbn [mbind option_bind]. by rewrite Hsel1.
Qed.

(** A row the first pass rejects is neither in the selection of the first
    pass nor in the one the code of the filter returns. *)
Lemma rejected_row_is_not_selected scan tile_group_id_ code fuel access
    tid_start tid_end st tid :
  FilterRowsByPredicate scan tile_group_id_ = Ok code ->
  0 <= tid_start <= tid_end -> tid_end < 2 ^ 32 ->
  tid_end - tid_start <= Vector.GetCapacity (selection_vector_ st) ->
  Vector.GetCapacity (selection_vector_ st) < 2 ^ 32 ->
  (Z.to_nat (tid_end - tid_start) < fuel)%nat ->
  (tid_start <= tid ->
   simd_valid (GetSIMDPredicates scan) access tid_start tid_end tid = false) ->
  exists rows st',
    first_pass (GetSIMDPredicates scan) tile_group_id_ fuel access tid_start
      tid_end (selection_vector_ st) = Some rows
    /\ (tid ∉ rows)
    /\ code fuel access tid_start tid_end st = Some st'
    /\ (tid ∉ Vector.selected (selection_vector_ st')).
Proof.
  intros Hcode Hrange Hend Hfit Hcap Hfuel Hrej.
  rewrite FilterRowsByPredicate_result in Hcode.
  destruct (kinds_ok (GetSIMDPredicates scan)) eqn:Hkinds; [|done].
  destruct (residual_ok _); [|done]. injection Hcode as <-.
  destruct (FilterRowsByPredicate_code_spec scan tile_group_id_ fuel access
              tid_start tid_end st)
    as (sel1 & sel2 & _ & _ & Hrun & Hsel1 & Hsel2 & _); [done..|].
  assert (Hnot : tid ∉ List.filter
                         (simd_valid (GetSIMDPredicates scan) access tid_start
                            tid_end)
                         (row_range tid_start tid_end)).
  { rewrite list_elem_of_In, filter_In, <-list_elem_of_In.
    unfold row_range. rewrite elem_of_seqZ. intros [Hin Hvalid].
    rewrite Hrej in Hvalid by lia. discriminate Hvalid. }
  eexists _, _. rewrite first_pass_spec, Hkinds by done.
  split; [reflexivity|]. split; [done|]. split; [exact Hrun|].
  cbn [selection_vector_]. rewrite Hsel2, Hsel1.
  rewrite list_elem_of_In, filter_In, <-list_elem_of_In. by intros [Hin _].
Qed.

(** ** The lanes and the scalar evaluator *)

Section TypeSystem.

(** What the comparison of the type system is taken to do: both operands
    get one comparison type, operands of one type keep it, and a cast to
    the type a value has changes nothing. *)
Hypothesis GetComparison_common : forall a b,
  GetSqlType (GetComparison a b).1 = GetSqlType (GetComparison a b).2.
Hypothesis GetComparison_same : forall a b,
  GetSqlType a = GetSqlType b ->
  GetSqlType (GetComparison a b).1 = GetSqlType a.
Hypothesis cast_raw_same : forall t z, cast_raw t t z = z.

Lemma fmap_cast_raw_same t (l : list Z) : cast_raw t t <$> l = l.
Proof using cast_raw_same.
  induction l as [|z l IH]; cbn; [done|]. by rewrite cast_raw_same, IH.
Qed.

Lemma DeriveValue_type exp :
  GetType (DeriveValue exp)
  = mkType (Operand_GetValueType exp) (Operand_IsNullable exp).
Proof using Type.
  destruct exp as [value_type [v|]|ai]; cbn; [done|done|].
  by destruct (type ai).
Qed.

(** A comparison of two lane vectors of one SQL type compares the lanes. *)
Lemma Compare_same_type_lanes cmp (l r : Value (list Z) (list bool)) env :
  GetSqlType (GetType l) = GetSqlType (GetType r) ->
  GetValue (Compare (vector_ops (Z.to_nat N)) cmp l r) env
  = zip_with cmp (GetValue l env) (GetValue r env).
Proof using GetComparison_common GetComparison_same cast_raw_same.
  intros Hsame. unfold Compare.
  pose proof (GetComparison_common (GetType l) (GetType r)) as Hc.
  pose proof (GetComparison_same (GetType l) (GetType r) Hsame) as Hs.
  destruct (GetComparison (GetType l) (GetType r)) as [tl tr].
  cbn [fst snd] in Hc, Hs. cbn [GetValue CastTo lane_map2 lane_map vector_ops].
  replace (GetSqlType tr) with (GetSqlType (GetType r)) by congruence.
  rewrite Hs. by rewrite !fmap_cast_raw_same.
Qed.

Lemma lookup_zip_with_eq {A B C} (f : A -> B -> C) (l : list A) (k : list B)
    i x y :
  l !! i = Some x -> k !! i = Some y -> zip_with f l k !! i = Some (f x y).
Proof using Type. intros Hx Hy. by rewrite lookup_zip_with, Hx, Hy. Qed.

Lemma lookup_CreateMaskedLoad ptr mask env i :
  mask env !! i = Some true ->
  CreateMaskedLoad ptr mask env !! i
  = Some (row_access env (ptr env).1 ((ptr env).2 + Z.of_nat i)).
Proof using Type.
  intros Hm. unfold CreateMaskedLoad. by rewrite list_lookup_imap, Hm.
Qed.

Lemma length_CreateMaskedLoad ptr mask env :
  length (CreateMaskedLoad ptr mask env) = length (mask env).
Proof using Type. unfold CreateMaskedLoad. apply length_imap. Qed.

(** Lane [i] of an operand holds what the scalar evaluator derives for the
    row of the lane, cast to the comparison type, and its null indicator. *)
Lemma lane_operand_spec exp cast_typ mask env i :
  is_null_constant exp = false ->
  length (mask env) = Z.to_nat N -> (i < Z.to_nat N)%nat ->
  let orig_typ := mkType (Operand_GetValueType exp) (Operand_IsNullable exp) in
  let val :=
    mkValue cast_typ (lane_operand exp orig_typ cast_typ mask).1
      (lane_operand exp orig_typ cast_typ mask).2 in
  length (GetValue val env) = Z.to_nat N
  /\ length (IsNull (vector_ops (Z.to_nat N)) val env) = Z.to_nat N
  /\ (mask env !! i = Some true ->
      GetValue val env !! i
      = Some (cast_raw (GetSqlType orig_typ) (GetSqlType cast_typ)
                (GetValue (DeriveValue exp) (lane_env env i)))
      /\ IsNull (vector_ops (Z.to_nat N)) val env !! i
         = Some (IsNull scalar_ops (DeriveValue exp) (lane_env env i))).
Proof using GetComparison_common GetComparison_same cast_raw_same.
  intros Hnn Hlen Hi.
  destruct exp as [value_type [v|]|ai]; [| done |].
  - cbn. unfold CreateVectorSplat. rewrite !length_replicate.
    split; [done|]. split; [done|]. intros _.
    by rewrite !lookup_replicate_2.
  - cbn [Operand_GetValueType Operand_IsNullable lane_operand DeriveValue
         Access LoadColumn].
    destruct (type ai) as [sql_type [|]] eqn:Htype;
      cbn [nullable GetSqlType fst snd GetValue IsNull null_ CastTo lane_map
           lane_pure vector_ops scalar_ops].
    + unfold CompareEq. rewrite !Compare_same_type_lanes by done.
      cbn [GetType GetSqlType GetValue].
      rewrite length_fmap, length_zip_with, length_CreateMaskedLoad.
      unfold CreateVectorSplat. rewrite length_replicate, Hlen.
      split; [done|]. split; [lia|]. intros Hm.
      rewrite list_lookup_fmap, lookup_zip_with.
      rewrite (lookup_CreateMaskedLoad _ _ _ _ Hm).
      rewrite lookup_replicate_2 by done.
      unfold Access, LoadColumn, IsNull, GetFixedLengthPtr, lane_env.
      rewrite Htype. done.
    + rewrite length_fmap, length_CreateMaskedLoad, length_replicate, Hlen.
      split; [done|]. split; [done|]. intros Hm.
      rewrite list_lookup_fmap, (lookup_CreateMaskedLoad _ _ _ _ Hm).
      rewrite lookup_replicate_2 by done.
      unfold Access, LoadColumn, IsNull, GetFixedLengthPtr, lane_env.
      rewrite Htype. done.
Qed.

Lemma Compare_null {F} (ops : LaneOps F) cmp (l r : Value (F Z) (F bool)) :
  null_ (Compare ops cmp l r)
  = if IsNullable l || IsNullable r
    then Some (fun env => lane_map2 ops orb (IsNull ops l env) (IsNull ops r env))
    else None.
Proof using Type. unfold Compare. by destruct (GetComparison _ _). Qed.

Lemma IsNull_Compare {F} (ops : LaneOps F) cmp (l r : Value (F Z) (F bool)) env :
  IsNull ops (Compare ops cmp l r) env
  = if IsNullable l || IsNullable r
    then lane_map2 ops orb (IsNull ops l env) (IsNull ops r env)
    else lane_pure ops false.
Proof using Type.
  unfold IsNull at 1. rewrite Compare_null.
  by destruct (IsNullable l || IsNullable r).
Qed.

Lemma Compare_scalar_value cmp (l r : Value (scalar Z) (scalar bool)) env :
  GetValue (Compare scalar_ops cmp l r) env
  = cmp
      (cast_raw (GetSqlType (GetType l))
         (GetSqlType (GetComparison (GetType l) (GetType r)).1) (GetValue l env))
      (cast_raw (GetSqlType (GetType r))
         (GetSqlType (GetComparison (GetType l) (GetType r)).2) (GetValue r env)).
Proof using Type. unfold Compare. by destruct (GetComparison _ _). Qed.

(** Lane [i] of the reified comparison of two lane vectors is the reified
    scalar comparison of the values the lanes stand for. *)
Lemma Compare_lane_spec cmp (VL VR : Value (list Z) (list bool))
    (SL SR : Value (scalar Z) (scalar bool)) env env' i :
  let cl := (GetComparison (GetType SL) (GetType SR)).1 in
  let cr := (GetComparison (GetType SL) (GetType SR)).2 in
  GetType VL = mkType (GetSqlType cl) (nullable (GetType SL)) ->
  GetType VR = mkType (GetSqlType cr) (nullable (GetType SR)) ->
  length (GetValue VL env) = Z.to_nat N ->
  length (GetValue VR env) = Z.to_nat N ->
  length (IsNull (vector_ops (Z.to_nat N)) VL env) = Z.to_nat N ->
  length (IsNull (vector_ops (Z.to_nat N)) VR env) = Z.to_nat N ->
  length (Reify (vector_ops (Z.to_nat N))
            (Compare (vector_ops (Z.to_nat N)) cmp VL VR) env) = Z.to_nat N
  /\ (GetValue VL env !! i
      = Some (cast_raw (GetSqlType (GetType SL)) (GetSqlType cl)
                (GetValue SL env')) ->
      GetValue VR env !! i
      = Some (cast_raw (GetSqlType (GetType SR)) (GetSqlType cr)
                (GetValue SR env')) ->
      IsNull (vector_ops (Z.to_nat N)) VL env !! i
      = Some (IsNull scalar_ops SL env') ->
      IsNull (vector_ops (Z.to_nat N)) VR env !! i
      = Some (IsNull scalar_ops SR env') ->
      Reify (vector_ops (Z.to_nat N))
        (Compare (vector_ops (Z.to_nat N)) cmp VL VR) env !! i
      = Some (Reify scalar_ops (Compare scalar_ops cmp SL SR) env')).
Proof using GetComparison_common GetComparison_same cast_raw_same.
  intros cl cr HtL HtR HlL HlR HnL HnR.
  assert (Hsame : GetSqlType (GetType VL) = GetSqlType (GetType VR)).
  { rewrite HtL, HtR. cbn. apply GetComparison_common. }
  unfold Reify. unfold IsNullable at 1 2 3. rewrite !Compare_type.
  cbn [nullable]. unfold IsNullable. rewrite HtL, HtR. cbn [nullable].
  destruct (nullable (GetType SL) || nullable (GetType SR)) eqn:Hb.
  - rewrite !IsNull_Compare. unfold IsNullable.
    rewrite HtL, HtR. cbn [nullable]. rewrite Hb.
    cbn [lane_map2 vector_ops scalar_ops].
    rewrite Compare_same_type_lanes by done.
    rewrite !length_zip_with, HlL, HlR, HnL, HnR. split; [lia|].
    intros HvL HvR HiL HiR. rewrite Compare_scalar_value.
    pose proof (lookup_zip_with_eq orb _ _ _ _ _ HiL HiR) as Hn.
    pose proof (lookup_zip_with_eq cmp _ _ _ _ _ HvL HvR) as Hv.
    by rewrite (lookup_zip_with_eq _ _ _ _ _ _ Hn Hv).
  - rewrite Compare_same_type_lanes by done.
    rewrite length_zip_with, HlL, HlR. split; [lia|].
    intros HvL HvR _ _. rewrite Compare_scalar_value.
    by apply lookup_zip_with_eq.
Qed.

Lemma lane_comp_val_unfold simd_predicate mask :
  lane_comp_val simd_predicate mask
  = let exp_lch := GetChild0 simd_predicate in
    let exp_rch := GetChild1 simd_predicate in
    let orig_typ_lch :=
      mkType (Operand_GetValueType exp_lch) (Operand_IsNullable exp_lch) in
    let orig_typ_rch :=
      mkType (Operand_GetValueType exp_rch) (Operand_IsNullable exp_rch) in
    let cast_typ_lch :=
      mkType (GetSqlType (GetComparison orig_typ_lch orig_typ_rch).1)
        (nullable orig_typ_lch) in
    let cast_typ_rch :=
      mkType (GetSqlType (GetComparison orig_typ_lch orig_typ_rch).2)
        (nullable orig_typ_rch) in
    CompareSwitch (vector_ops (Z.to_nat N)) (GetExpressionType simd_predicate)
      (mkValue cast_typ_lch
         (lane_operand exp_lch orig_typ_lch cast_typ_lch mask).1
         (lane_operand exp_lch orig_typ_lch cast_typ_lch mask).2)
      (mkValue cast_typ_rch
         (lane_operand exp_rch orig_typ_rch cast_typ_rch mask).1
         (lane_operand exp_rch orig_typ_rch cast_typ_rch mask).2).
Proof using Type.
  unfold lane_comp_val. destruct (GetComparison _ _).
  by do 2 destruct (lane_operand _ _ _ _).
Qed.

(** Lane [i] of the reified comparison of a SIMD predicate whose operands
    are columns and non-null constants is what the scalar evaluator decides
    for the row of the lane, as long as the lane is still on in the mask the
    columns are loaded under. *)
Lemma lane_comp_val_spec simd_predicate mask env i :
  no_null_constant simd_predicate = true ->
  length (mask env) = Z.to_nat N -> (i < Z.to_nat N)%nat ->
  length (Reify (vector_ops (Z.to_nat N)) (lane_comp_val simd_predicate mask) env)
  = Z.to_nat N
  /\ (mask env !! i = Some true ->
      Reify (vector_ops (Z.to_nat N)) (lane_comp_val simd_predicate mask) env !! i
      = Some (Reify scalar_ops (DeriveValue_comparison simd_predicate)
                (lane_env env i))).
Proof using GetComparison_common GetComparison_same cast_raw_same.
  intros Hnn Hlen Hi. apply andb_prop in Hnn as [Hl Hr].
  apply negb_true_iff in Hl, Hr.
  rewrite lane_comp_val_unfold. cbn zeta. unfold DeriveValue_comparison.
  set (ol := mkType (Operand_GetValueType (GetChild0 simd_predicate)) _).
  set (or := mkType (Operand_GetValueType (GetChild1 simd_predicate)) _).
  set (cl := mkType (GetSqlType (GetComparison ol or).1) _).
  set (cr := mkType (GetSqlType (GetComparison ol or).2) _).
  destruct (lane_operand_spec (GetChild0 simd_predicate) cl mask env i Hl Hlen Hi)
    as (HlL & HnL & HL).
  destruct (lane_operand_spec (GetChild1 simd_predicate) cr mask env i Hr Hlen Hi)
    as (HlR & HnR & HR).
  fold ol in HlL, HnL, HL. fold or in HlR, HnR, HR.
  set (VL := mkValue cl _ _) in *. set (VR := mkValue cr _ _) in *.
  assert (Hcmp : forall cmp,
    length (Reify (vector_ops (Z.to_nat N))
              (Compare (vector_ops (Z.to_nat N)) cmp VL VR) env) = Z.to_nat N
    /\ (mask env !! i = Some true ->
        Reify (vector_ops (Z.to_nat N))
          (Compare (vector_ops (Z.to_nat N)) cmp VL VR) env !! i
        = Some (Reify scalar_ops
                  (Compare scalar_ops cmp
                     (DeriveValue (GetChild0 simd_predicate))
                     (DeriveValue (GetChild1 simd_predicate)))
                  (lane_env env i)))).
  { intros cmp.
    destruct (Compare_lane_spec cmp VL VR
                (DeriveValue (GetChild0 simd_predicate))
                (DeriveValue (GetChild1 simd_predicate)) env (lane_env env i) i)
      as [Hlen' Hlane]; try done.
    - by rewrite !DeriveValue_type.
    - by rewrite !DeriveValue_type.
    - split; [done|]. intros Hm.
      destruct (HL Hm) as [HvL HiL]. destruct (HR Hm) as [HvR HiR].
      apply Hlane; rewrite ?DeriveValue_type; done. }
  destruct (GetExpressionType simd_predicate);
    cbn [CompareSwitch]; try apply Hcmp.
  all: split; [apply length_replicate|]; intros _;
    by apply lookup_replicate_2.
Qed.

(** The mask of the lanes and the mask of the scalar loop stay in step
    through the SIMD predicates: lane [i] holds the decision of the scalar
    loop on the row of the lane. *)
Lemma lane_mask_of_spec simd_predicates : forall mask rmask,
  forallb no_null_constant simd_predicates = true ->
  (forall env,
     length (mask env) = Z.to_nat N
     /\ forall i, (i < Z.to_nat N)%nat ->
          mask env !! i = Some (rmask (lane_env env i))) ->
  forall env,
    length (lane_mask_of simd_predicates mask env) = Z.to_nat N
    /\ forall i, (i < Z.to_nat N)%nat ->
         lane_mask_of simd_predicates mask env !! i
         = Some (row_mask_of simd_predicates rmask (lane_env env i)).
Proof using GetComparison_common GetComparison_same cast_raw_same.
  induction simd_predicates as [|p ps IH]; intros mask rmask Hnn Hinv;
    [done|].
  cbn [forallb] in Hnn. apply andb_prop in Hnn as [Hp Hps].
  cbn [lane_mask_of row_mask_of fold_left].
  apply (IH _ (fun env =>
                 rmask env && Reify scalar_ops (DeriveValue_comparison p) env));
    [done|].
  intros env. destruct (Hinv env) as [Hlen Hlanes].
  unfold CreateAnd. split.
  - destruct (lane_comp_val_spec p mask env 0 Hp Hlen) as [Hl _];
      [unfold N; lia|].
    rewrite length_zip_with, Hlen, Hl. lia.
  - intros i Hi.
    destruct (lane_comp_val_spec p mask env i Hp Hlen Hi) as [Hl Hlane].
    specialize (Hlanes i Hi).
    destruct (rmask (lane_env env i)) eqn:Hm.
    + by apply lookup_zip_with_eq; [|apply Hlane].
    + destruct (lookup_lt_is_Some_2
                  (Reify (vector_ops (Z.to_nat N)) (lane_comp_val p mask) env) i)
        as [b Hb]; [lia|].
      by rewrite (lookup_zip_with_eq _ _ _ _ _ _ Hlanes Hb).
Qed.

(** The decision of the lane path on a row is the decision of the scalar
    path on it. *)
Lemma lane_valid_row_valid simd_predicates access tid_start tid :
  forallb no_null_constant simd_predicates = true ->
  tid_start <= tid ->
  lane_valid (lane_mask_of simd_predicates (fun _ => getAllOnesValue N))
    access tid_start tid
  = row_valid (row_mask_of simd_predicates (fun _ => true)) access tid.
Proof using GetComparison_common GetComparison_same cast_raw_same.
  intros Hnn Htid. unfold lane_valid, row_valid, CreateExtractElement.
  set (pos := tid - tid_start).
  assert (Hmod : 0 <= pos `mod` N < N) by (apply Z.mod_pos_bound; done).
  destruct (lane_mask_of_spec simd_predicates (fun _ => getAllOnesValue N)
              (fun _ => true) Hnn) with
    (env := mkRowEnv access (tid_start + N * (pos `div` N))) as [_ Hlanes].
  { intros env. unfold getAllOnesValue. rewrite length_replicate.
    split; [done|]. intros i Hi. by apply lookup_replicate_2. }
  rewrite (Hlanes (Z.to_nat (pos `mod` N))) by lia.
  unfold lane_env. cbn [row_access row_tid]. rewrite Z2Nat.id by lia.
  rewrite <- Z.add_assoc, <- (Z.div_mod pos N) by done. subst pos.
  by replace (tid_start + (tid - tid_start)) with tid by lia.
Qed.

Lemma row_mask_of_forallb simd_predicates : forall mask env,
  row_mask_of simd_predicates mask env
  = mask env
    && forallb (fun simd_predicate =>
                  Reify scalar_ops (DeriveValue_comparison simd_predicate) env)
         simd_predicates.
Proof using Type.
  induction simd_predicates as [|p ps IH]; intros mask env.
  - cbn. by rewrite andb_true_r.
  - cbn [row_mask_of fold_left forallb].
    change (fold_left _ ps ?m env) with (row_mask_of ps m env).
    rewrite IH. by rewrite andb_assoc.
Qed.

(** The scalar evaluator rejects a row for which an operand is null. *)
Lemma Reify_null_operand simd_predicate access tid :
  operand_is_null (GetChild0 simd_predicate) access tid
  || operand_is_null (GetChild1 simd_predicate) access tid = true ->
  Reify scalar_ops (DeriveValue_comparison simd_predicate) (mkRowEnv access tid)
  = false.
Proof using Type.
  unfold operand_is_null, DeriveValue_comparison. intros Hnull.
  set (l := DeriveValue (GetChild0 simd_predicate)) in *.
  set (r := DeriveValue (GetChild1 simd_predicate)) in *.
  assert (Hnullable : IsNullable l || IsNullable r = true).
  { assert (Hop : forall exp env,
      IsNull scalar_ops (DeriveValue exp) env = true ->
      IsNullable (DeriveValue exp) = true).
    { intros [value_type [v|]|ai] env; cbn; try done.
      unfold Access, LoadColumn, IsNull, IsNullable. cbn.
      by destruct (nullable (type ai)). }
    apply orb_true_iff in Hnull as [H|H]; apply Hop in H; subst l r;
      rewrite H; [done|apply orb_true_r]. }
  assert (Hcmp : forall cmp,
    Reify scalar_ops (Compare scalar_ops cmp l r) (mkRowEnv access tid) = false).
  { intros cmp. unfold Reify, IsNullable at 1. rewrite Compare_type.
    cbn [nullable]. rewrite Hnullable, IsNull_Compare, Hnullable.
    cbn [lane_map2 scalar_ops]. by rewrite Hnull. }
  destruct (GetExpressionType simd_predicate); cbn [CompareSwitch];
    try apply Hcmp; done.
Qed.

(** X1.  On an aligned range, for SIMD predicates none of whose operands is
    the NULL constant, the lane path and the scalar path keep the same
    rows: both fail their assertion when a predicate is no comparison, and
    otherwise both keep, in ascending order, the rows of the range for
    which every predicate is true by the scalar evaluator. *)
Theorem lane_path_agrees_without_null_constant simd_predicates fuel access
    tid_start (c : nat) sel :
  forallb no_null_constant simd_predicates = true ->
  0 <= tid_start -> tid_start + N * Z.of_nat c < 2 ^ 32 ->
  N * Z.of_nat c <= Vector.GetCapacity sel ->
  Vector.GetCapacity sel < 2 ^ 32 ->
  (Z.to_nat (N * Z.of_nat c) < fuel)%nat ->
  lane_path_rows simd_predicates fuel access tid_start (N * Z.of_nat c) sel
  = scalar_path_rows simd_predicates fuel access tid_start (N * Z.of_nat c) sel
  /\ (kinds_ok simd_predicates = true ->
      scalar_path_rows simd_predicates fuel access tid_start (N * Z.of_nat c) sel
      = Some (List.filter
                (row_valid (row_mask_of simd_predicates (fun _ => true)) access)
                (seqZ tid_start (N * Z.of_nat c)))).
Proof using GetComparison_common GetComparison_same cast_raw_same.
  intros Hnn Hts Hend Hfit Hcap Hfuel.
  unfold lane_path_rows, scalar_path_rows.
  rewrite ProcessRows_result, row_mask_result.
  destruct (kinds_ok simd_predicates); [|done].
  set (batch := RowBatch.mk 0 tid_start (tid_start + N * Z.of_nat c) false []).
  set (valid := row_valid (row_mask_of simd_predicates (fun _ => true)) access).
  rewrite (VectorizedIterate_emit batch _ valid c);
    [|done|done|done|done| |unfold N in Hfuel; lia].
  2:{ intros j e wp s Hj. rewrite lane_code_emit; [|done|done|].
      - apply emit_ext. intros tid Htid. apply elem_of_seqZ in Htid.
        apply lane_valid_row_valid; [done|].
        unfold batch in Htid |- *. cbn [RowBatch.tid_start_] in Htid |- *.
        unfold N in Htid. lia.
      - unfold batch. cbn [RowBatch.tid_start_]. unfold N in Hend |- *. lia. }
  rewrite (loopPostBatch_emit batch access _ (N * Z.of_nat c) eq_refl Hts Hend
             (Z.to_nat (N * Z.of_nat c))) by (unfold N in Hfuel |- *; lia).
  cbn [RowBatch.tid_start_ batch]. rewrite Z.add_0_r.
  rewrite Z2Nat.id by (unfold N; lia). fold valid.
  pose proof (emit_spec valid (seqZ tid_start (N * Z.of_nat c)) 0 sel) as Hspec.
  rewrite length_seqZ in Hspec.
  destruct (emit valid _ 0 sel) as [write_pos sel'].
  destruct Hspec as (Hpos & _ & _ & Ht);
    [done|unfold N in Hfit |- *; lia|done|].
  cbn [mbind option_bind RowBatch.UpdateWritePosition]. split; [done|].
  intros _. unfold Vector.selected.
  cbn [Vector.SetNumElements Vector.vector_ptr Vector.num_elements].
  by rewrite Ht.
Qed.

(** X2.  When no operand of the SIMD predicates is the NULL constant, a
    row for which an operand of one of the SIMD predicates is null is
    dropped by the first pass of the predicate filter, in the lanes and in
    the remainder loop alike: the row is not among the rows the first pass
    leaves selected, nor in the selection of the state the code of the
    filter returns. *)
Theorem null_column_operand_drops_the_row scan tile_group_id_ code fuel access
    tid_start tid_end st simd_predicate tid :
  FilterRowsByPredicate scan tile_group_id_ = Ok code ->
  forallb no_null_constant (GetSIMDPredicates scan) = true ->
  simd_predicate ∈ GetSIMDPredicates scan ->
  operand_is_null (GetChild0 simd_predicate) access tid
  || operand_is_null (GetChild1 simd_predicate) access tid = true ->
  0 <= tid_start <= tid_end -> tid_end < 2 ^ 32 ->
  tid_end - tid_start <= Vector.GetCapacity (selection_vector_ st) ->
  Vector.GetCapacity (selection_vector_ st) < 2 ^ 32 ->
  (Z.to_nat (tid_end - tid_start) < fuel)%nat ->
  exists rows st',
    first_pass (GetSIMDPredicates scan) tile_group_id_ fuel access tid_start
      tid_end (selection_vector_ st) = Some rows
    /\ (tid ∉ rows)
    /\ code fuel access tid_start tid_end st = Some st'
    /\ (tid ∉ Vector.selected (selection_vector_ st')).
Proof using GetComparison_common GetComparison_same cast_raw_same.
  intros Hcode Hnn Hin Hnull Hrange Hend Hfit Hcap Hfuel.
  apply rejected_row_is_not_selected; try done. intros Htid.
  assert (Hrow : row_valid
                   (row_mask_of (GetSIMDPredicates scan) (fun _ => true))
                   access tid = false).
  { unfold row_valid. rewrite row_mask_of_forallb. cbn [andb].
    apply not_true_is_false. intros Hall.
    rewrite forallb_forall in Hall.
    specialize (Hall simd_predicate). rewrite <- list_elem_of_In in Hall.
    specialize (Hall Hin).
    by rewrite Reify_null_operand in Hall. }
  unfold simd_valid, pass_valid.
  destruct (_ <? _); [|done]. by rewrite lane_valid_row_valid.
Qed.

(** The decision of the first pass on a row of the range is the
    conjunction of the SIMD predicates, by the scalar evaluator. *)
Lemma simd_valid_forallb simd_predicates access tid_start tid_end tid :
  forallb no_null_constant simd_predicates = true ->
  tid_start <= tid ->
  simd_valid simd_predicates access tid_start tid_end tid
  = forallb
      (fun simd_predicate =>
         Reify scalar_ops (DeriveValue_comparison simd_predicate)
           (mkRowEnv access tid))
      simd_predicates.
Proof using GetComparison_common GetComparison_same cast_raw_same.
  intros Hnn Htid. unfold simd_valid, pass_valid.
  rewrite lane_valid_row_valid by done.
  assert (Hrow : row_valid (row_mask_of simd_predicates (fun _ => true))
                   access tid
                 = forallb
                     (fun simd_predicate =>
                        Reify scalar_ops (DeriveValue_comparison simd_predicate)
                          (mkRowEnv access tid))
                     simd_predicates)
    by (unfold row_valid; by rewrite row_mask_of_forallb).
  by destruct (_ <? _).
Qed.

Lemma keep_row_matches scan access tid_start tid_end tid :
  forallb no_null_constant (GetSIMDPredicates scan) = true ->
  tid_start <= tid ->
  keep_row scan access tid_start tid_end tid = row_matches scan access tid.
Proof using GetComparison_common GetComparison_same cast_raw_same.
  intros Hnn Htid. unfold keep_row, row_matches.
  destruct (GetPredicate scan); [|done]. by rewrite simd_valid_forallb.
Qed.

(** X14.  When no operand of the SIMD predicates is the NULL constant, the
    predicate filter leaves in the selection vector exactly the rows of the
    range for which every SIMD predicate and the residual predicate are
    true by the scalar evaluator, in ascending order, whatever the
    alignment of the range; the count is their number, and the filter's
    calls are its two clock calls. *)
Theorem predicate_filter_keeps_the_matching_rows scan tile_group_id_ code fuel
    access tid_start tid_end st :
  FilterRowsByPredicate scan tile_group_id_ = Ok code ->
  is_Some (GetPredicate scan) ->
  forallb no_null_constant (GetSIMDPredicates scan) = true ->
  0 <= tid_start <= tid_end -> tid_end < 2 ^ 32 ->
  tid_end - tid_start <= Vector.GetCapacity (selection_vector_ st) ->
  Vector.GetCapacity (selection_vector_ st) < 2 ^ 32 ->
  (Z.to_nat (tid_end - tid_start) < fuel)%nat ->
  exists st',
    code fuel access tid_start tid_end st = Some st'
    /\ Vector.selected (selection_vector_ st')
       = List.filter (row_matches scan access) (row_range tid_start tid_end)
    /\ Vector.num_elements (selection_vector_ st')
       = Z.of_nat (length (Vector.selected (selection_vector_ st')))
    /\ calls st' = calls st ++ [CallGetClockStart; CallGetClockPause].
Proof using GetComparison_common GetComparison_same cast_raw_same.
  intros Hcode [predicate Hpred] Hnn Hrange Hend Hfit Hcap Hfuel.
  rewrite FilterRowsByPredicate_result in Hcode.
  destruct (kinds_ok _ && residual_ok _); [|done].
  injection Hcode as <-.
  destruct (FilterRowsByPredicate_code_spec scan tile_group_id_ fuel access
              tid_start tid_end st)
    as (sel1 & sel2 & _ & _ & Hrun & Hsel1 & Hsel2 & Hnum2 & _); [done..|].
  eexists. split; [exact Hrun|]. cbn [selection_vector_ calls].
  split; [|by split].
  rewrite Hsel2, Hsel1, filter_filter_andb.
  apply filter_ext_in. intros tid Htid. apply elem_of_seqZ in Htid.
  unfold row_matches. rewrite Hpred.
  by rewrite simd_valid_forallb by (done || lia).
Qed.

(** X15.  When no operand of the SIMD predicates is the NULL constant, the
    batch of a chunk is consumed with exactly the rows of the range that
    the transaction sees and for which every SIMD predicate of the plan and
    the residual predicate of the filter are true by the scalar evaluator
    (every visible row when the scan has no predicate), in ascending
    order.  The whole predicate of the plan is evaluated only when it is
    the residual predicate. *)
Theorem chunk_is_consumed_with_the_visible_matching_rows scan tile_group_id_
    code fuel access tid_start tid_end st :
  ProcessTuples scan tile_group_id_ = Ok code ->
  forallb no_null_constant (GetSIMDPredicates scan) = true ->
  0 <= tid_start <= tid_end -> tid_end < 2 ^ 32 ->
  tid_end - tid_start <= Vector.GetCapacity (selection_vector_ st) ->
  Vector.GetCapacity (selection_vector_ st) < 2 ^ 32 - 1 ->
  (Z.to_nat (tid_end - tid_start) < fuel)%nat ->
  exists st',
    code fuel access tid_start tid_end st = Some st'
    /\ Vector.selected (selection_vector_ st')
       = List.filter IsVisible
           (List.filter (row_matches scan access)
              (row_range tid_start tid_end))
    /\ (forall tid,
          tid ∈ Vector.selected (selection_vector_ st')
          <-> tid_start <= tid < tid_end
              /\ row_matches scan access tid = true
              /\ IsVisible tid = true)
    /\ last (calls st')
       = Some (CallConsume
                 (SetupRowBatch scan
                    (RowBatch.mk tile_group_id_ tid_start tid_end true []))
                 (selection_vector_ st')).
Proof using GetComparison_common GetComparison_same cast_raw_same.
  intros Hcode Hnn Hrange Hend Hfit Hcap Hfuel.
  apply ProcessTuples_Ok in Hcode as ->.
  destruct (ProcessTuples_code_spec scan tile_group_id_ fuel access tid_start
              tid_end st) as (st' & Hrun & Hsel & _); [done..|].
  destruct (ProcessTuples_code_calls _ _ _ _ _ _ _ _ Hrun)
    as (_ & _ & _ & Hlast).
  assert (Hsel' : Vector.selected (selection_vector_ st')
                  = List.filter IsVisible
                      (List.filter (row_matches scan access)
                         (row_range tid_start tid_end))).
  { rewrite Hsel. f_equal. apply filter_ext_in. intros tid Htid.
    apply elem_of_seqZ in Htid. apply keep_row_matches; [done|lia]. }
  exists st'. split; [done|]. split; [done|]. split; [|done].
  intros tid. rewrite Hsel', !list_elem_of_In, !filter_In, <-list_elem_of_In.
  unfold row_range. rewrite elem_of_seqZ. intuition lia.
Qed.

Lemma forallb_Permutation {A} (f : A -> bool) (l k : list A) :
  l ≡ₚ k -> forallb f l = forallb f k.
Proof using Type.
  induction 1 as [|x l k _ IH|x y l|l k m _ IH1 _ IH2]; cbn [forallb].
  - done.
  - by rewrite IH.
  - by destruct (f x), (f y).
  - by rewrite IH1.
Qed.

(** X16.  The SIMD predicates are a conjunction: when none of their
    operands is the NULL constant, the first pass emitted for two lists of
    predicates put together has code exactly when the first pass for each
    list has, and leaves selected the rows that both of them leave
    selected; and the first pass emitted for the same predicates in another
    order has code alike and leaves the same rows. *)
Theorem simd_predicates_are_a_conjunction ps qs tile_group_id_ fuel access
    tid_start tid_end sel :
  forallb no_null_constant ps = true ->
  forallb no_null_constant qs = true ->
  0 <= tid_start <= tid_end -> tid_end < 2 ^ 32 ->
  tid_end - tid_start <= Vector.GetCapacity sel ->
  Vector.GetCapacity sel < 2 ^ 32 ->
  (Z.to_nat (tid_end - tid_start) < fuel)%nat ->
  first_pass (ps ++ qs) tile_group_id_ fuel access tid_start tid_end sel
  = (rows_ps ←
       first_pass ps tile_group_id_ fuel access tid_start tid_end sel;
     rows_qs ←
       first_pass qs tile_group_id_ fuel access tid_start tid_end sel;
     Some (List.filter (fun tid => bool_decide (tid ∈ rows_qs)) rows_ps))
  /\ (forall rs,
        rs ≡ₚ ps ++ qs ->
        first_pass rs tile_group_id_ fuel access tid_start tid_end sel
        = first_pass (ps ++ qs) tile_group_id_ fuel access tid_start tid_end
            sel).
Proof using GetComparison_common GetComparison_same cast_raw_same.
  intros Hps Hqs Hrange Hend Hfit Hcap Hfuel.
  assert (Hboth : forallb no_null_constant (ps ++ qs) = true)
    by (rewrite forallb_app, Hps, Hqs; done).
  rewrite !first_pass_spec by done. split.
  - assert (Hk : kinds_ok (ps ++ qs) = kinds_ok ps && kinds_ok qs)
      by apply forallb_app.
    rewrite Hk. destruct (kinds_ok ps); [|done].
    destruct (kinds_ok qs); [|done].
    cbn [andb mbind option_bind]. f_equal. rewrite filter_filter_andb.
    apply filter_ext_in. intros tid Htid.
    assert (Hts : tid_start <= tid) by (apply elem_of_seqZ in Htid; lia).
    rewrite !simd_valid_forallb by done. rewrite forallb_app. f_equal.
    rewrite <-simd_valid_forallb with (tid_start := tid_start)
                                      (tid_end := tid_end) by done.
    destruct (simd_valid qs access tid_start tid_end tid) eqn:Hq.
    + symmetry. apply bool_decide_eq_true.
      rewrite list_elem_of_In, filter_In, <-list_elem_of_In. by split.
    + symmetry. apply bool_decide_eq_false.
      rewrite list_elem_of_In, filter_In. intros [_ H]. congruence.
  - intros rs Hperm.
    assert (Hrs : forallb no_null_constant rs = true)
      by (by rewrite (forallb_Permutation _ _ _ Hperm)).
    rewrite first_pass_spec by done.
    assert (Hk : kinds_ok rs = kinds_ok (ps ++ qs))
      by apply forallb_Permutation, Hperm.
    rewrite Hk. destruct (kinds_ok (ps ++ qs)); [|done]. f_equal.
    apply filter_ext_in. intros tid Htid.
    assert (Hts : tid_start <= tid) by (apply elem_of_seqZ in Htid; lia).
    rewrite !simd_valid_forallb by done.
    apply forallb_Permutation, Hperm.
Qed.

End TypeSystem.

(** ** The remainder loop and null operands *)

(** X9.  The remainder loop drops a row for which an operand of one of the
    SIMD predicates is null, whatever the operand is, the NULL constant
    included: a row of the remainder of the range (at or after the aligned
    size) with a null operand is not among the rows the first pass leaves
    selected, nor in the selection of the state the code of the filter
    returns. *)
Theorem remainder_loop_drops_null_operand_rows scan tile_group_id_ code fuel
    access tid_start tid_end st simd_predicate tid :
  FilterRowsByPredicate scan tile_group_id_ = Ok code ->
  simd_predicate ∈ GetSIMDPredicates scan ->
  operand_is_null (GetChild0 simd_predicate) access tid
  || operand_is_null (GetChild1 simd_predicate) access tid = true ->
  N * ((tid_end - tid_start) `div` N) <= tid - tid_start ->
  0 <= tid_start <= tid_end -> tid_end < 2 ^ 32 ->
  tid_end - tid_start <= Vector.GetCapacity (selection_vector_ st) ->
  Vector.GetCapacity (selection_vector_ st) < 2 ^ 32 ->
  (Z.to_nat (tid_end - tid_start) < fuel)%nat ->
  exists rows st',
    first_pass (GetSIMDPredicates scan) tile_group_id_ fuel access tid_start
      tid_end (selection_vector_ st) = Some rows
    /\ (tid ∉ rows)
    /\ code fuel access tid_start tid_end st = Some st'
    /\ (tid ∉ Vector.selected (selection_vector_ st')).
Proof.
  intros Hcode Hin Hnull Hrem Hrange Hend Hfit Hcap Hfuel.
  apply rejected_row_is_not_selected; try done. intros _.
  unfold simd_valid, pass_valid.
  rewrite (proj2 (Z.ltb_ge _ _)) by done.
  unfold row_valid. rewrite row_mask_of_forallb. cbn [andb].
  apply forallb_false_iff. exists simd_predicate. split; [done|].
  by apply Reify_null_operand.
Qed.

(** ** The constructor *)

Lemma PrepareSIMDPredicates_omap simd_predicates :
  PrepareSIMDPredicates simd_predicates
  = (fun e => CallPrepare (SIMDExpression e)) <$> omap id simd_predicates.
Proof.
  unfold PrepareSIMDPredicates.
  enough (H : forall calls,
    fold_left
      (fun calls simd_predicate =>
         match simd_predicate with
         | Some e => calls ++ [CallPrepare (SIMDExpression e)]
         | None => calls
         end)
      simd_predicates calls
    = calls ++ ((fun e => CallPrepare (SIMDExpression e))
                  <$> omap id simd_predicates)) by apply (H []).
  induction simd_predicates as [|[e|] ps IH]; intros calls; cbn.
  - by rewrite app_nil_r.
  - rewrite IH. by rewrite <-app_assoc.
  - apply IH.
Qed.

Lemma omap_id_Some {A} (l : list A) : omap id (Some <$> l) = l.
Proof. induction l as [|x l IH]; cbn; [done|]. by rewrite IH. Qed.

Lemma TableScanTranslator_calls scan :
  TableScanTranslator scan
  = match GetPredicate scan with
    | Some predicate =>
        CallPrepare (GeneralExpression predicate)
        :: (if IsSIMDable predicate then [CallInstallBoundaryAtOutput] else [])
    | None => []
    end
    ++ ((fun e => CallPrepare (SIMDExpression e)) <$> GetSIMDPredicates scan)
    ++ match GetNonSIMDPredicate scan with
       | Some non_simd_predicate =>
           [CallPrepare (GeneralExpression non_simd_predicate)]
       | None => []
       end.
Proof.
  unfold TableScanTranslator.
  rewrite PrepareSIMDPredicates_omap, omap_id_Some.
  destruct (GetPredicate scan) as [predicate|],
    (GetNonSIMDPredicate scan) as [non_simd_predicate|];
    try destruct (IsSIMDable predicate); cbn;
    by rewrite <-?app_assoc, ?app_nil_r.
Qed.

Lemma append_inj_l (s a b : string) : s +:+ a = s +:+ b -> a = b.
Proof.
  induction s as [|c s IH]; cbn; [done|]. intros H. injection H as H. auto.
Qed.

(** X11.  The constructor installs the output boundary of the pipeline
    exactly when the scan has a SIMDable predicate, and then once; these
    are the scans whose name GetName ends in the vector size. *)
Theorem output_boundary_iff_name_has_vector_size scan :
  (CallInstallBoundaryAtOutput ∈ TableScanTranslator scan
   <-> vectorizable scan = true)
  /\ (CallInstallBoundaryAtOutput ∈ TableScanTranslator scan
      <-> GetName scan
          = "Scan('" +:+ GetTableName scan +:+ "', "
            +:+ to_string kDefaultVectorSize +:+ ")")
  /\ (length (List.filter is_boundary (TableScanTranslator scan)) <= 1)%nat.
Proof.
  assert (Hsimd : forall ps : list ComparisonExpression,
    List.filter is_boundary ((fun e => CallPrepare (SIMDExpression e)) <$> ps)
    = []).
  { induction ps as [|p ps IH]; [done|]. cbn. apply IH. }
  assert (Hin : forall calls,
    CallInstallBoundaryAtOutput ∈ calls
    <-> List.filter is_boundary calls <> []).
  { intros calls. induction calls as [|c calls IH].
    - split; [|done]. intros H. by apply elem_of_nil in H.
    - rewrite elem_of_cons, IH. destruct c; cbn; split; try done.
      + by intros [|].
      + by right.
      + by left. }
  assert (Hfilter : List.filter is_boundary (TableScanTranslator scan)
                    = if vectorizable scan
                      then [CallInstallBoundaryAtOutput] else []).
  { rewrite TableScanTranslator_calls, !List.filter_app, Hsimd.
    unfold vectorizable.
    destruct (GetPredicate scan) as [predicate|],
      (GetNonSIMDPredicate scan) as [non_simd_predicate|];
      try destruct (IsSIMDable predicate); reflexivity. }
  rewrite Hin, Hfilter. split; [|split].
  - by destruct (vectorizable scan).
  - unfold GetName, vectorizable.
    destruct (GetPredicate scan) as [predicate|];
      [destruct (IsSIMDable predicate)|].
    + split; [|done]. intros _. by rewrite !append_assoc.
    + split; [done|]. rewrite !append_assoc. intros H.
      apply append_inj_l, append_inj_l in H. discriminate H.
    + split; [done|]. rewrite !append_assoc. intros H.
      apply append_inj_l, append_inj_l in H. discriminate H.
  - destruct (vectorizable scan); cbn; lia.
Qed.

(** X12.  Every predicate the predicate filter derives a value of has been
    prepared by the constructor: each SIMD predicate of the plan, and the
    residual predicate of the filter, which is the plan's non-SIMD
    predicate or, when the plan has neither SIMD predicates nor a non-SIMD
    predicate, its whole predicate.  The constructor prepares nothing
    else but the whole predicate. *)
Theorem derived_predicates_are_prepared scan :
  (forall simd_predicate,
     simd_predicate ∈ GetSIMDPredicates scan ->
     CallPrepare (SIMDExpression simd_predicate) ∈ TableScanTranslator scan)
  /\ (forall predicate,
        residual_predicate scan = Some predicate ->
        CallPrepare (GeneralExpression predicate) ∈ TableScanTranslator scan)
  /\ (forall e,
        CallPrepare e ∈ TableScanTranslator scan ->
        (exists simd_predicate,
           e = SIMDExpression simd_predicate
           /\ simd_predicate ∈ GetSIMDPredicates scan)
        \/ (exists predicate,
              e = GeneralExpression predicate
              /\ (GetPredicate scan = Some predicate
                  \/ GetNonSIMDPredicate scan = Some predicate))).
Proof.
  rewrite TableScanTranslator_calls. split; [|split].
  - intros p Hp. rewrite !elem_of_app. right. left.
    apply list_elem_of_fmap. by exists p.
  - intros e. unfold residual_predicate.
    destruct (GetSIMDPredicates scan) as [|p ps],
      (GetNonSIMDPredicate scan) as [non_simd_predicate|];
      intros He; rewrite !elem_of_app.
    + injection He as ->. right. right. apply list_elem_of_here.
    + rewrite He. left. apply list_elem_of_here.
    + injection He as ->. right. right. apply list_elem_of_here.
    + done.
  - intros e. rewrite !elem_of_app, list_elem_of_fmap.
    intros [He|[(p & Hp & Hin)|He]].
    + right. destruct (GetPredicate scan) as [predicate|];
        [|by apply elem_of_nil in He].
      apply elem_of_cons in He as [He|He].
      * injection He as ->. exists predicate. by split; [|left].
      * destruct (IsSIMDable predicate);
          [apply list_elem_of_singleton in He; discriminate He
          |by apply elem_of_nil in He].
    + left. injection Hp as ->. by exists p.
    + right. destruct (GetNonSIMDPredicate scan) as [non_simd_predicate|];
        [|by apply elem_of_nil in He].
      apply list_elem_of_singleton in He. injection He as ->.
      exists non_simd_predicate. by split; [|right].
Qed.

(** ** The batch of the pipeline *)

Lemma AddAttribute_attributes ai batch :
  (forall attribute,
     attribute ∈ RowBatch.attributes_ (RowBatch.AddAttribute ai batch)
     <-> attribute ∈ RowBatch.attributes_ batch \/ attribute = ai)
  /\ (NoDup (RowBatch.attributes_ batch) ->
      NoDup (RowBatch.attributes_ (RowBatch.AddAttribute ai batch))).
Proof.
  unfold RowBatch.AddAttribute. cbn [RowBatch.attributes_].
  destruct (decide (ai ∈ RowBatch.attributes_ batch)) as [Hin|Hnot]; split.
  - intros attribute. split; [by left|]. by intros [?| ->].
  - done.
  - intros attribute. rewrite elem_of_app, list_elem_of_singleton. done.
  - intros Hnd. apply NoDup_app. split; [done|]. split; [|apply NoDup_singleton].
    intros x Hx Hx'. apply list_elem_of_singleton in Hx'. by subst x.
Qed.

(** X13.  When every output column id of the plan is the index of an
    attribute of the plan, the attributes that have an accessor in the
    batch after SetupRowBatch are the ones that had one before and the
    attributes at the output column ids, every one of these; an attribute
    is bound once, also when its column id is listed twice; the rows of the
    batch and its filtered flag stay as they are. *)
Theorem SetupRowBatch_adds_the_output_columns scan batch :
  Forall (fun col_id => (col_id < length (GetAttributes scan))%nat)
    (GetColumnIds scan) ->
  let batch' := SetupRowBatch scan batch in
  (forall attribute,
     attribute ∈ RowBatch.attributes_ batch'
     <-> attribute ∈ RowBatch.attributes_ batch
         \/ exists col_id,
              col_id ∈ GetColumnIds scan
              /\ GetAttributes scan !! col_id = Some attribute)
  /\ (forall col_id,
        col_id ∈ GetColumnIds scan ->
        exists attribute,
          GetAttributes scan !! col_id = Some attribute
          /\ attribute ∈ RowBatch.attributes_ batch')
  /\ (NoDup (RowBatch.attributes_ batch) ->
      NoDup (RowBatch.attributes_ batch'))
  /\ RowBatch.tile_group_id batch' = RowBatch.tile_group_id batch
  /\ RowBatch.tid_start_ batch' = RowBatch.tid_start_ batch
  /\ RowBatch.tid_end_ batch' = RowBatch.tid_end_ batch
  /\ RowBatch.filtered_ batch' = RowBatch.filtered_ batch.
Proof.
  unfold SetupRowBatch. generalize (GetAttributes scan) as ais.
  intros ais. revert batch.
  induction (GetColumnIds scan) as [|col_id ids IH]; intros batch Hids;
    cbn zeta.
  - cbn [fold_left]. split; [|split; [|done]].
    + intros attribute. split; [by left|]. intros [?|(c & Hc & _)]; [done|].
      by apply elem_of_nil in Hc.
    + intros c Hc. by apply elem_of_nil in Hc.
  - apply Forall_cons in Hids as [Hid Hids].
    destruct (lookup_lt_is_Some_2 ais col_id Hid) as [ai Hai].
    cbn [fold_left]. rewrite Hai.
    destruct (IH (RowBatch.AddAttribute ai batch) Hids)
      as (Hin & Hall & Hnd & Hg & Hs & He & Hf).
    destruct (AddAttribute_attributes ai batch) as [Hadd Hnd1].
    cbn zeta in Hin, Hall, Hnd, Hg, Hs, He, Hf.
    split; [|split; [|split; [by auto|by rewrite Hg, Hs, He, Hf]]].
    + intros attribute. rewrite Hin, Hadd. split.
      * intros [[?| ->]|(c & Hc & Hlook)]; [by left| |].
        -- right. exists col_id. split; [apply list_elem_of_here|done].
        -- right. exists c. split; [by apply list_elem_of_further|done].
      * intros [?|(c & Hc & Hlook)]; [by left; left|].
        apply elem_of_cons in Hc as [->|Hc].
        -- left. right. congruence.
        -- right. by exists c.
    + intros c Hc. apply elem_of_cons in Hc as [->|Hc]; [|by apply Hall].
      exists ai. split; [done|]. apply Hin. left. apply Hadd. by right.
Qed.

End TableScan.

(** ** The lanes a masked load does not read *)

Section UnreadLanes.
Variable GetNullValue : SqlType -> Z.
Variable GetComparison : Type_ -> Type_ -> Type_ * Type_.
Variable cast_raw : SqlType -> SqlType -> Z -> Z.
Variables undef1 undef2 : nat -> Z.

Lemma lanes_agree_refl {A} mask (l : list A) : lanes_agree mask l l.
Proof using Type. by split. Qed.

Lemma lanes_agree_fmap {A B} (f : A -> B) mask (l1 l2 : list A) :
  lanes_agree mask l1 l2 -> lanes_agree mask (f <$> l1) (f <$> l2).
Proof using Type.
  intros [Hlen Hlanes]. split; [by rewrite !length_fmap|].
  intros i Hi. by rewrite !list_lookup_fmap, (Hlanes i Hi).
Qed.

Lemma lanes_agree_zip_with {A B C} (f : A -> B -> C) mask
    (l1 l2 : list A) (k1 k2 : list B) :
  lanes_agree mask l1 l2 -> lanes_agree mask k1 k2 ->
  lanes_agree mask (zip_with f l1 k1) (zip_with f l2 k2).
Proof using Type.
  intros [Hl Hls] [Hk Hks]. split; [by rewrite !length_zip_with, Hl, Hk|].
  intros i Hi. by rewrite !lookup_zip_with, (Hls i Hi), (Hks i Hi).
Qed.

Lemma CreateMaskedLoad_agree ptr (mask1 mask2 : llvm (list bool)) env :
  mask1 env = mask2 env ->
  lanes_agree (mask1 env) (CreateMaskedLoad undef1 ptr mask1 env)
    (CreateMaskedLoad undef2 ptr mask2 env).
Proof using Type.
  intros Hmask. unfold CreateMaskedLoad. rewrite <-Hmask.
  split; [by rewrite !length_imap|].
  intros i Hi. by rewrite !list_lookup_imap, Hi.
Qed.

Lemma CreateAnd_agree mask (l1 l2 : list bool) :
  lanes_agree mask l1 l2 -> CreateAnd mask l1 = CreateAnd mask l2.
Proof using Type.
  intros [Hlen Hlanes]. unfold CreateAnd. apply list_eq. intros i.
  rewrite !lookup_zip_with.
  destruct (mask !! i) as [[|]|] eqn:Hm; cbn; [by rewrite (Hlanes i Hm)| |done].
  destruct (l1 !! i) as [b1|] eqn:H1, (l2 !! i) as [b2|] eqn:H2; cbn;
    try done.
  - apply lookup_lt_Some in H1. apply lookup_ge_None in H2. lia.
  - apply lookup_lt_Some in H2. apply lookup_ge_None in H1. lia.
Qed.

Lemma CastTo_agree mask env (v1 v2 : Value (list Z) (list bool)) to :
  values_agree mask env v1 v2 ->
  values_agree mask env (CastTo cast_raw (vector_ops (Z.to_nat N)) v1 to)
    (CastTo cast_raw (vector_ops (Z.to_nat N)) v2 to).
Proof using Type.
  intros (Htype & Hval & Hnull). split; [done|]. split; [|done].
  cbn [CastTo GetValue lane_map vector_ops]. rewrite Htype.
  by apply lanes_agree_fmap.
Qed.

Lemma Compare_agree mask env cmp (l1 l2 r1 r2 : Value (list Z) (list bool)) :
  values_agree mask env l1 l2 -> values_agree mask env r1 r2 ->
  values_agree mask env
    (Compare GetComparison cast_raw (vector_ops (Z.to_nat N)) cmp l1 r1)
    (Compare GetComparison cast_raw (vector_ops (Z.to_nat N)) cmp l2 r2).
Proof using Type.
  intros (Htl & Hvl & Hnl) (Htr & Hvr & Hnr).
  assert (Hnullable : IsNullable l1 || IsNullable r1
                      = IsNullable l2 || IsNullable r2)
    by (unfold IsNullable; by rewrite Htl, Htr).
  split; [|split].
  - by rewrite !Compare_type, Hnullable.
  - unfold Compare. rewrite Htl, Htr.
    destruct (GetComparison (GetType l2) (GetType r2)) as [tl tr].
    cbn [GetValue CastTo lane_map lane_map2 vector_ops].
    rewrite Htl, Htr. by apply lanes_agree_zip_with; apply lanes_agree_fmap.
  - rewrite !IsNull_Compare, Hnullable.
    destruct (IsNullable l2 || IsNullable r2);
      [by apply lanes_agree_zip_with|apply lanes_agree_refl].
Qed.

Lemma CompareSwitch_agree mask env kind
    (l1 l2 r1 r2 : Value (list Z) (list bool)) :
  values_agree mask env l1 l2 -> values_agree mask env r1 r2 ->
  values_agree mask env
    (CompareSwitch GetComparison cast_raw (vector_ops (Z.to_nat N)) kind l1 r1)
    (CompareSwitch GetComparison cast_raw (vector_ops (Z.to_nat N)) kind l2 r2).
Proof using Type.
  intros Hl Hr.
  destruct kind; cbn [CompareSwitch];
    try (by apply Compare_agree);
    (split; [done|split; apply lanes_agree_refl]).
Qed.

Lemma Reify_agree mask env (v1 v2 : Value (list bool) (list bool)) :
  values_agree mask env v1 v2 ->
  lanes_agree mask (Reify (vector_ops (Z.to_nat N)) v1 env)
    (Reify (vector_ops (Z.to_nat N)) v2 env).
Proof using Type.
  intros (Htype & Hval & Hnull). unfold Reify, IsNullable. rewrite Htype.
  destruct (nullable (GetType v2)); [|done].
  cbn [lane_map2 vector_ops]. by apply lanes_agree_zip_with.
Qed.

Lemma lane_operand_agree exp orig_typ cast_typ (mask1 mask2 : llvm (list bool))
    env :
  mask1 env = mask2 env ->
  values_agree (mask1 env) env
    (mkValue cast_typ
       (lane_operand GetNullValue GetComparison cast_raw undef1 exp orig_typ
          cast_typ mask1).1
       (lane_operand GetNullValue GetComparison cast_raw undef1 exp orig_typ
          cast_typ mask1).2)
    (mkValue cast_typ
       (lane_operand GetNullValue GetComparison cast_raw undef2 exp orig_typ
          cast_typ mask2).1
       (lane_operand GetNullValue GetComparison cast_raw undef2 exp orig_typ
          cast_typ mask2).2).
Proof using Type.
  intros Hmask.
  pose proof (CreateMaskedLoad_agree) as Hload.
  destruct exp as [value_type value|ai]; cbn [lane_operand].
  { split; [done|]. split; apply lanes_agree_refl. }
  set (ptr := GetFixedLengthPtr ai).
  specialize (Hload ptr mask1 mask2 env Hmask).
  destruct (nullable orig_typ); cbn [fst snd].
  - set (sql_type := GetSqlType orig_typ).
    assert (Hnull :
      lanes_agree (mask1 env)
        (GetValue
           (CompareEq GetComparison cast_raw (vector_ops (Z.to_nat N))
              (mkValue (mkType sql_type false)
                 (CreateMaskedLoad undef1 ptr mask1) None)
              (mkValue (mkType sql_type false)
                 (fun _ => CreateVectorSplat N (GetNullValue sql_type)) None))
           env)
        (GetValue
           (CompareEq GetComparison cast_raw (vector_ops (Z.to_nat N))
              (mkValue (mkType sql_type false)
                 (CreateMaskedLoad undef2 ptr mask2) None)
              (mkValue (mkType sql_type false)
                 (fun _ => CreateVectorSplat N (GetNullValue sql_type)) None))
           env)).
    { apply (Compare_agree (mask1 env) env Z.eqb).
      - split; [done|]. split; [done|apply lanes_agree_refl].
      - split; [done|]. split; apply lanes_agree_refl. }
    split; [done|]. split; [|done].
    cbn [GetValue CastTo lane_map vector_ops GetType].
    by apply lanes_agree_fmap.
  - split; [done|]. split; [|apply lanes_agree_refl].
    cbn [GetValue CastTo lane_map vector_ops GetType].
    by apply lanes_agree_fmap.
Qed.

Lemma lane_comp_val_agree simd_predicate (mask1 mask2 : llvm (list bool)) env :
  mask1 env = mask2 env ->
  values_agree (mask1 env) env
    (lane_comp_val GetNullValue GetComparison cast_raw undef1 simd_predicate
       mask1)
    (lane_comp_val GetNullValue GetComparison cast_raw undef2 simd_predicate
       mask2).
Proof using Type.
  intros Hmask. rewrite !lane_comp_val_unfold. cbn zeta.
  by apply CompareSwitch_agree; apply lane_operand_agree.
Qed.

Lemma lane_mask_of_agree simd_predicates :
  forall mask1 mask2 : llvm (list bool),
    (forall env, mask1 env = mask2 env) ->
    forall env,
      lane_mask_of GetNullValue GetComparison cast_raw undef1 simd_predicates
        mask1 env
      = lane_mask_of GetNullValue GetComparison cast_raw undef2
          simd_predicates mask2 env.
Proof using Type.
  induction simd_predicates as [|p ps IH]; intros mask1 mask2 Hmask env;
    [apply Hmask|].
  cbn [lane_mask_of fold_left]. apply IH. intros env'.
  rewrite <-(Hmask env'). apply CreateAnd_agree, Reify_agree.
  by apply lane_comp_val_agree.
Qed.

Lemma while_ext {S} (cond : S -> bool) (body1 body2 : S -> S) :
  (forall s, body1 s = body2 s) ->
  forall fuel s, while fuel cond body1 s = while fuel cond body2 s.
Proof using Type.
  intros Hbody. induction fuel as [|fuel IH]; intros s; [done|].
  cbn [while]. destruct (cond s); [|done]. by rewrite Hbody, IH.
Qed.

Lemma FilterRowsByPredicate_simd_ext lane_code1 lane_code2 row tile_group_id_
    fuel access tid_start tid_end sel :
  (forall batch ins sel,
     lane_code1 access batch ins sel = lane_code2 access batch ins sel) ->
  FilterRowsByPredicate_simd lane_code1 row tile_group_id_ fuel access
    tid_start tid_end sel
  = FilterRowsByPredicate_simd lane_code2 row tile_group_id_ fuel access
      tid_start tid_end sel.
Proof using Type.
  intros Hcode. unfold FilterRowsByPredicate_simd, RowBatch.VectorizedIterate.
  erewrite while_ext; [reflexivity|].
  intros [[start write_pos] sel0]. by rewrite Hcode.
Qed.

(** X17.  What a masked load leaves in the lanes it does not read never
    reaches the selection: with any two contents of the unread lanes, code
    generation for the predicate filter succeeds or fails alike, and the
    two codes return the same state on every chunk. *)
Theorem unread_lanes_never_reach_the_selection scan tile_group_id_ :
  match
    FilterRowsByPredicate GetNullValue GetComparison cast_raw undef1 scan
      tile_group_id_,
    FilterRowsByPredicate GetNullValue GetComparison cast_raw undef2 scan
      tile_group_id_
  with
  | Ok code1, Ok code2 =>
      forall fuel access tid_start tid_end st,
        code1 fuel access tid_start tid_end st
        = code2 fuel access tid_start tid_end st
  | AssertionFailure, AssertionFailure => True
  | _, _ => False
  end.
Proof using Type.
  rewrite !FilterRowsByPredicate_result.
  destruct (kinds_ok _ && residual_ok _); [|done].
  intros fuel access tid_start tid_end st. unfold FilterRowsByPredicate_code.
  erewrite FilterRowsByPredicate_simd_ext; [reflexivity|].
  intros batch ins sel. unfold lane_code_of.
  by rewrite (lane_mask_of_agree (GetSIMDPredicates scan)
                (fun _ => getAllOnesValue N) (fun _ => getAllOnesValue N)).
Qed.

End UnreadLanes.

(** ** The theorems at the sample scans *)

(** C8, counterexample.  With the selection vector's default size at 1024
    the name of a scan with a SIMDable predicate is Scan('orders', 1024),
    in which the lane width 32 does not occur; and whatever the size, the
    name of the table t32, scanned without a predicate, holds 32. *)
Lemma GetName_lane_width_counterexample :
  ~ name_has_lane_width 1024 orders_scan
  /\ ~ exists size, name_has_lane_width size t32_scan.
Proof.
  split.
  - intros [_ [Hsize _]]. specialize (Hsize eq_refl).
    apply Contains_containsb in Hsize. vm_compute in Hsize. discriminate.
  - intros [size [_ [_ Hname]]].
    assert (Hin : Contains (to_string N) (GetName size t32_scan))
      by (by exists "Scan('t", "')").
    specialize (Hname Hin). vm_compute in Hname. discriminate.
Qed.

(** C4, at the failing input.  In the scan of price > NULL over the rows 0
    to 39 the constant operand is null for every row, and yet the filter
    selects every row of the aligned prefix whose price is not null: the
    lane path compares the stored prices with the raw value of the
    constant.  The rows 32 to 39, which the scalar loop decides, are all
    dropped. *)
Lemma null_constant_survives_in_the_lanes :
  (forall tid,
     operand_is_null sample_GetNullValue (GetChild1 price_gt_null)
       sample_access tid = true)
  /\ exists code st',
       FilterRowsByPredicate sample_GetNullValue sample_GetComparison
         sample_cast_raw sample_undef orders_scan_null 9 = Ok code
       /\ code 100%nat sample_access 0 40 sample_state = Some st'
       /\ Vector.selected (selection_vector_ st')
          = List.filter (fun tid => negb (tid =? 5)) (seqZ 0 32).
Proof.
  split; [done|].
  eexists. eexists. split; [by rewrite FilterRowsByPredicate_result|].
  split; vm_compute; reflexivity.
Qed.

(** C2, at the failing input.  On the aligned range of the rows 0 to 31
    and the predicate price > NULL the lane path keeps 31 rows and the
    scalar path keeps none. *)
Lemma lane_and_scalar_paths_differ_on_null_constant :
  lane_path_rows sample_GetNullValue sample_GetComparison sample_cast_raw
    sample_undef [price_gt_null] 100%nat sample_access 0 32
    (selection_vector_ sample_state)
  = Some (List.filter (fun tid => negb (tid =? 5)) (seqZ 0 32))
  /\ scalar_path_rows sample_GetNullValue sample_GetComparison sample_cast_raw
       [price_gt_null] 100%nat sample_access 0 32
       (selection_vector_ sample_state)
     = Some [].
Proof. split; vm_compute; reflexivity. Qed.

(** C1 at the scan of price > 5 over the rows 0 to 39. *)
Lemma ProcessTuples_filters_then_consumes_once_sample :
  exists st',
    ProcessTuples_code sample_GetNullValue sample_GetComparison sample_cast_raw
      sample_undef sample_IsVisible orders_scan 9 100%nat sample_access 0 40
      sample_state = Some st'
    /\ length (calls st') = 4%nat
    /\ length (List.filter is_consume (calls st')) = 1%nat
    /\ Vector.selected (selection_vector_ st') = [15; 20; 21; 25; 30; 33; 38].
Proof.
  destruct (ProcessTuples_filters_then_consumes_once sample_GetNullValue
              sample_GetComparison sample_cast_raw sample_undef sample_IsVisible
              orders_scan 9
              (ProcessTuples_code sample_GetNullValue sample_GetComparison
                 sample_cast_raw sample_undef sample_IsVisible orders_scan 9)
              100%nat sample_access 0 40 sample_state)
    as (st1 & st' & new_calls & _ & Hrun & _ & Hcalls & Hnew & Hone).
  - by rewrite ProcessTuples_result.
  - lia.
  - reflexivity.
  - vm_compute. discriminate.
  - reflexivity.
  - vm_compute. lia.
  - exists st'. split; [exact Hrun|].
    rewrite Hcalls, Hnew. split; [reflexivity|]. split; [reflexivity|].
    vm_compute in Hrun. injection Hrun as <-. reflexivity.
Defined.

(** C9 at the scan without a predicate over the rows 0 to 4. *)
Lemma ProcessTuples_no_predicate_sentinel_sample :
  exists st',
    ProcessTuples_code sample_GetNullValue sample_GetComparison sample_cast_raw
      sample_undef sample_IsVisible orders_scan_all 9 100%nat sample_access 0 5
      sample_state = Some st'
    /\ calls st'
       = [CallPerformVectorizedRead 0 5 (replicate 64 0) 4294967295;
          CallConsume (RowBatch.mk 9 0 5 true [price; quantity])
            (selection_vector_ st')]
    /\ Vector.selected (selection_vector_ st') = [0; 1; 2; 4].
Proof.
  destruct (ProcessTuples_no_predicate_sentinel sample_GetNullValue
              sample_GetComparison sample_cast_raw sample_undef sample_IsVisible
              orders_scan_all 9 100%nat sample_access 0 5 sample_state)
    as (code & st' & Hcode & Hrun & _ & _ & Hcalls & _ & Hsel).
  - reflexivity.
  - rewrite ProcessTuples_result in Hcode. injection Hcode as <-.
    exists st'. split; [exact Hrun|]. split; [exact Hcalls|]. exact Hsel.
Defined.

(** C3 at the scan of price > 5 with the residual predicate on the
    quantity, over the rows 0 to 39. *)
Lemma selection_stays_ascending_and_narrows_sample :
  exists sel1 sel2 st',
    ProcessTuples_code sample_GetNullValue sample_GetComparison sample_cast_raw
      sample_undef sample_IsVisible orders_scan_residual 9 100%nat
      sample_access 0 40 sample_state = Some st'
    /\ Vector.selected sel1 = [3; 7; 12; 15; 20; 21; 25; 30; 33; 38]
    /\ Vector.selected sel2 = [12; 20; 30; 38]
    /\ Vector.selected (selection_vector_ st') = [20; 30; 38]
    /\ ascending (Vector.selected sel1)
    /\ ascending (Vector.selected sel2)
    /\ ascending (Vector.selected (selection_vector_ st')).
Proof.
  destruct (selection_stays_ascending_and_narrows sample_GetNullValue
              sample_GetComparison sample_cast_raw sample_undef sample_IsVisible
              orders_scan_residual 9
              (ProcessTuples_code sample_GetNullValue sample_GetComparison
                 sample_cast_raw sample_undef sample_IsVisible
                 orders_scan_residual 9)
              100%nat sample_access 0 40 sample_state)
    as (st' & Hrun & _ & Hstages).
  - by rewrite ProcessTuples_result.
  - lia.
  - reflexivity.
  - vm_compute. discriminate.
  - reflexivity.
  - vm_compute. lia.
  - destruct Hstages as (sel1 & sel2 & Hrun1 & Hrun2 & _ & _ & Hasc & _);
      [by eexists|].
    exists sel1, sel2, st'. split; [exact Hrun|].
    destruct Hasc as (Ha1 & Ha2 & Ha3).
    vm_compute in Hrun1. injection Hrun1 as <-.
    vm_compute in Hrun2. injection Hrun2 as <-.
    vm_compute in Hrun. injection Hrun as <-.
    repeat split; (reflexivity || assumption).
Defined.

(** C5 at the scan of price > 5 over the rows 0 to 39: a prefix of 32 rows
    and a remainder of 8. *)
Lemma predicate_filter_partitions_range_sample :
  CreateMul (Const32 N) (CreateUDiv (CreateSub 40 0) (Const32 N)) = 32
  /\ row_range 0 40 = seqZ 0 32 ++ [32; 33; 34; 35; 36; 37; 38; 39]
  /\ exists code st',
       FilterRowsByPredicate sample_GetNullValue sample_GetComparison
         sample_cast_raw sample_undef orders_scan 9 = Ok code
       /\ code 100%nat sample_access 0 40 sample_state = Some st'
       /\ Vector.selected (selection_vector_ st')
          = [3; 7; 12; 15; 20; 21; 25; 30] ++ [33; 38].
Proof.
  destruct (predicate_filter_partitions_range sample_GetNullValue
              sample_GetComparison sample_cast_raw sample_undef orders_scan 9
              (FilterRowsByPredicate_code sample_GetNullValue
                 sample_GetComparison sample_cast_raw sample_undef
                 orders_scan 9)
              100%nat sample_access 0 40 sample_state)
    as (_ & _ & Halign & _ & _ & Hsplit & _ & sel1 & sel2 & _ & _ & Hsel1
        & _ & Hsel2 & Hrun).
  - by rewrite FilterRowsByPredicate_result.
  - lia.
  - reflexivity.
  - vm_compute. discriminate.
  - reflexivity.
  - vm_compute. lia.
  - split; [exact Halign|]. split; [exact Hsplit|].
    eexists. eexists. split; [by rewrite FilterRowsByPredicate_result|].
    split; [exact Hrun|]. cbn [selection_vector_].
    rewrite Hsel2, Hsel1. reflexivity.
Defined.

(** C6 at the scan of price > 5 with the residual predicate on the
    quantity, over the rows 0 to 39. *)
Lemma residual_pass_drops_false_and_null_sample :
  exists sel1 sel2,
    Vector.selected sel1 = [3; 7; 12; 15; 20; 21; 25; 30; 33; 38]
    /\ FilterRowsByPredicate_residual (Some (residual_code_of quantity_even))
         9 100%nat sample_access 0 40 sel1 = Some sel2
    /\ Vector.selected sel2 = [12; 20; 30; 38].
Proof.
  destruct (residual_pass_drops_false_and_null sample_GetNullValue
              sample_GetComparison sample_cast_raw sample_undef
              orders_scan_residual 9
              (FilterRowsByPredicate_code sample_GetNullValue
                 sample_GetComparison sample_cast_raw sample_undef
                 orders_scan_residual 9)
              100%nat sample_access 0 40 sample_state quantity_even)
    as (sel1 & sel2 & Hrun1 & _ & Hrun2 & _ & Hsel2 & _).
  - by rewrite FilterRowsByPredicate_result.
  - reflexivity.
  - lia.
  - reflexivity.
  - vm_compute. discriminate.
  - reflexivity.
  - vm_compute. lia.
  - exists sel1, sel2.
    vm_compute in Hrun1. injection Hrun1 as <-.
    split; [reflexivity|]. split; [exact Hrun2|].
    rewrite Hsel2. reflexivity.
Defined.

(** C10 at the scan whose whole predicate is the one on the quantity, over
    the rows 0 to 39. *)
Lemma whole_predicate_goes_through_residual_pass_sample :
  exists code st',
    FilterRowsByPredicate sample_GetNullValue sample_GetComparison
      sample_cast_raw sample_undef orders_scan_general 9 = Ok code
    /\ code 100%nat sample_access 0 40 sample_state = Some st'
    /\ Vector.selected (selection_vector_ st')
       = List.filter Z.even (seqZ 0 40).
Proof.
  destruct (whole_predicate_goes_through_residual_pass sample_GetNullValue
              sample_GetComparison sample_cast_raw sample_undef
              orders_scan_general 9 100%nat sample_access 0 40 sample_state
              quantity_even)
    as (code & sel1 & sel2 & Hcode & _ & _ & _ & _ & _ & Hrun & Hsel).
  - reflexivity.
  - reflexivity.
  - reflexivity.
  - reflexivity.
  - lia.
  - reflexivity.
  - vm_compute. discriminate.
  - reflexivity.
  - vm_compute. lia.
  - exists code. eexists. split; [exact Hcode|]. split; [exact Hrun|].
    cbn [selection_vector_]. rewrite Hsel. reflexivity.
Defined.

(** The sample type system compares operands of one type as they are and
    casts nothing away. *)
Lemma sample_GetComparison_common a b :
  GetSqlType (sample_GetComparison a b).1
  = GetSqlType (sample_GetComparison a b).2.
Proof. unfold sample_GetComparison. by case_bool_decide. Qed.

Lemma sample_GetComparison_same a b :
  GetSqlType a = GetSqlType b ->
  GetSqlType (sample_GetComparison a b).1 = GetSqlType a.
Proof. intros Hsame. unfold sample_GetComparison. by case_bool_decide. Qed.

Lemma sample_cast_raw_same t z : sample_cast_raw t t z = z.
Proof. reflexivity. Qed.

(** X1 at the predicate price > 5 over the rows 0 to 31. *)
Lemma lane_path_agrees_without_null_constant_sample :
  lane_path_rows sample_GetNullValue sample_GetComparison sample_cast_raw
    sample_undef [price_gt_5] 100%nat sample_access 0 32
    (selection_vector_ sample_state)
  = scalar_path_rows sample_GetNullValue sample_GetComparison sample_cast_raw
      [price_gt_5] 100%nat sample_access 0 32 (selection_vector_ sample_state)
  /\ scalar_path_rows sample_GetNullValue sample_GetComparison sample_cast_raw
       [price_gt_5] 100%nat sample_access 0 32 (selection_vector_ sample_state)
     = Some [3; 7; 12; 15; 20; 21; 25; 30].
Proof.
  destruct (lane_path_agrees_without_null_constant sample_GetNullValue
              sample_GetComparison sample_cast_raw sample_undef
              sample_GetComparison_common sample_GetComparison_same
              sample_cast_raw_same [price_gt_5] 100%nat sample_access 0 1%nat
              (selection_vector_ sample_state))
    as [Hsame Hrows].
  - reflexivity.
  - lia.
  - reflexivity.
  - vm_compute. discriminate.
  - reflexivity.
  - vm_compute. lia.
  - split; [exact Hsame|]. exact (Hrows eq_refl).
Defined.

(** X2 at the scan of price > 5 over the rows 0 to 39 and row 5, whose
    price is null. *)
Lemma null_column_operand_drops_the_row_sample :
  operand_is_null sample_GetNullValue (GetChild0 price_gt_5) sample_access 5
  = true
  /\ exists rows st',
       first_pass sample_GetNullValue sample_GetComparison sample_cast_raw
         sample_undef [price_gt_5] 9 100%nat sample_access 0 40
         (selection_vector_ sample_state) = Some rows
       /\ (5 ∉ rows)
       /\ FilterRowsByPredicate_code sample_GetNullValue sample_GetComparison
            sample_cast_raw sample_undef orders_scan 9 100%nat sample_access
            0 40 sample_state = Some st'
       /\ (5 ∉ Vector.selected (selection_vector_ st')).
Proof.
  split; [reflexivity|].
  apply (null_column_operand_drops_the_row sample_GetNullValue
           sample_GetComparison sample_cast_raw sample_undef
           sample_GetComparison_common sample_GetComparison_same
           sample_cast_raw_same orders_scan 9
           (FilterRowsByPredicate_code sample_GetNullValue sample_GetComparison
              sample_cast_raw sample_undef orders_scan 9)
           100%nat sample_access 0 40 sample_state price_gt_5 5).
  - by rewrite FilterRowsByPredicate_result.
  - reflexivity.
  - apply list_elem_of_here.
  - reflexivity.
  - lia.
  - reflexivity.
  - vm_compute. discriminate.
  - reflexivity.
  - vm_compute. lia.
Defined.

(** X3 at the scan of price > 5 over the rows 0 to 39, on a fresh and on a
    used selection vector. *)
Lemma ProcessTuples_overwrites_the_selection_sample :
  exists st1' st2',
    ProcessTuples_code sample_GetNullValue sample_GetComparison sample_cast_raw
      sample_undef sample_IsVisible orders_scan 9 100%nat sample_access 0 40
      sample_state = Some st1'
    /\ ProcessTuples_code sample_GetNullValue sample_GetComparison
         sample_cast_raw sample_undef sample_IsVisible orders_scan 9 100%nat
         sample_access 0 40 used_state = Some st2'
    /\ Vector.selected (selection_vector_ st2') = [15; 20; 21; 25; 30; 33; 38].
Proof.
  destruct (ProcessTuples_overwrites_the_selection sample_GetNullValue
              sample_GetComparison sample_cast_raw sample_undef sample_IsVisible
              orders_scan 9
              (ProcessTuples_code sample_GetNullValue sample_GetComparison
                 sample_cast_raw sample_undef sample_IsVisible orders_scan 9)
              100%nat sample_access 0 40 sample_state used_state)
    as (st1' & st2' & Hrun1 & Hrun2 & Hsel & _).
  - by rewrite ProcessTuples_result.
  - lia.
  - reflexivity.
  - vm_compute. discriminate.
  - reflexivity.
  - vm_compute. discriminate.
  - reflexivity.
  - vm_compute. lia.
  - exists st1', st2'. split; [exact Hrun1|]. split; [exact Hrun2|].
    rewrite <-Hsel. vm_compute in Hrun1. injection Hrun1 as <-. reflexivity.
Defined.

(** X4 at the scan of price > 5: the rows 0 to 39, then the rows 10 to 29
    on the vector the first chunk left. *)
Lemma consecutive_chunks_reuse_the_selection_vector_sample :
  exists st1 st2,
    ProcessTuples_code sample_GetNullValue sample_GetComparison sample_cast_raw
      sample_undef sample_IsVisible orders_scan 9 100%nat sample_access 0 40
      sample_state = Some st1
    /\ ProcessTuples_code sample_GetNullValue sample_GetComparison
         sample_cast_raw sample_undef sample_IsVisible orders_scan 9 100%nat
         sample_access 10 30 st1 = Some st2
    /\ Vector.selected (selection_vector_ st2) = [15; 20; 21; 25]
    /\ length (List.filter is_consume (calls st2)) = 2%nat.
Proof.
  destruct (consecutive_chunks_reuse_the_selection_vector sample_GetNullValue
              sample_GetComparison sample_cast_raw sample_undef sample_IsVisible
              orders_scan 9
              (ProcessTuples_code sample_GetNullValue sample_GetComparison
                 sample_cast_raw sample_undef sample_IsVisible orders_scan 9)
              100%nat sample_access sample_access 0 40 10 30 sample_state)
    as (st1 & st2 & Hrun1 & Hrun2 & _ & _ & _ & _ & Hsel & Hcalls).
  - by rewrite ProcessTuples_result.
  - lia.
  - reflexivity.
  - lia.
  - reflexivity.
  - vm_compute. discriminate.
  - vm_compute. discriminate.
  - reflexivity.
  - vm_compute. lia.
  - vm_compute. lia.
  - exists st1, st2. split; [exact Hrun1|]. split; [exact Hrun2|].
    split; [rewrite Hsel; reflexivity|exact Hcalls].
Defined.

(** X5 at the scan of price > 5 over the rows 0 to 39, on the used
    selection vector: entry 50 still holds the row 150. *)
Lemma ProcessTuples_writes_within_the_range_sample :
  exists st',
    ProcessTuples_code sample_GetNullValue sample_GetComparison sample_cast_raw
      sample_undef sample_IsVisible orders_scan 9 100%nat sample_access 0 40
      used_state = Some st'
    /\ length (Vector.vector_ptr (selection_vector_ st')) = 64%nat
    /\ Vector.vector_ptr (selection_vector_ st') !! 50%nat = Some 150.
Proof.
  destruct (ProcessTuples_code sample_GetNullValue sample_GetComparison
              sample_cast_raw sample_undef sample_IsVisible orders_scan 9
              100%nat sample_access 0 40 used_state) as [st'|] eqn:Hrun;
    [|vm_compute in Hrun; discriminate Hrun].
  exists st'. split; [reflexivity|].
  destruct (ProcessTuples_writes_within_the_range sample_GetNullValue
              sample_GetComparison sample_cast_raw sample_undef sample_IsVisible
              orders_scan 9
              (ProcessTuples_code sample_GetNullValue sample_GetComparison
                 sample_cast_raw sample_undef sample_IsVisible orders_scan 9)
              100%nat sample_access 0 40 used_state st')
    as [Hlen Hframe].
  - by rewrite ProcessTuples_result.
  - lia.
  - reflexivity.
  - vm_compute. discriminate.
  - reflexivity.
  - vm_compute. lia.
  - exact Hrun.
  - split; [rewrite Hlen; reflexivity|].
    rewrite Hframe by (vm_compute; lia). reflexivity.
Defined.

(** X6 at the scan of price > 5 and the empty chunk at row 7, on the used
    selection vector. *)
Lemma empty_chunk_is_consumed_empty_sample :
  exists st',
    ProcessTuples_code sample_GetNullValue sample_GetComparison sample_cast_raw
      sample_undef sample_IsVisible orders_scan 9 100%nat sample_access 7 7
      used_state = Some st'
    /\ selection_vector_ st' = Vector.mk (seqZ 100 64) 0
    /\ length (calls st') = 5%nat.
Proof.
  destruct (empty_chunk_is_consumed_empty sample_GetNullValue
              sample_GetComparison sample_cast_raw sample_undef sample_IsVisible
              orders_scan 9
              (ProcessTuples_code sample_GetNullValue sample_GetComparison
                 sample_cast_raw sample_undef sample_IsVisible orders_scan 9)
              100%nat sample_access 7 used_state)
    as (st' & Hrun & Hsel & _).
  - by rewrite ProcessTuples_result.
  - lia.
  - reflexivity.
  - lia.
  - exists st'. split; [exact Hrun|]. split; [exact Hsel|].
    vm_compute in Hrun. injection Hrun as <-. reflexivity.
Defined.

(** X7 at the rows 10 to 29 and the scalar mask of price > 5, with a lane
    callback that would empty the vector. *)
Lemma short_range_never_runs_the_lane_callback_sample :
  exists sel',
    FilterRowsByPredicate_simd (fun _ _ _ _ => (0, Vector.mk [] 0))
      (row_mask_of sample_GetNullValue sample_GetComparison sample_cast_raw
         [price_gt_5] (fun _ => true))
      9 100%nat sample_access 10 30 (selection_vector_ sample_state)
    = Some sel'
    /\ Vector.selected sel' = [12; 15; 20; 21; 25].
Proof.
  destruct (short_range_never_runs_the_lane_callback
              (fun _ _ _ _ => (0, Vector.mk [] 0))
              (row_mask_of sample_GetNullValue sample_GetComparison
                 sample_cast_raw [price_gt_5] (fun _ => true))
              9 100%nat sample_access 10 30 (selection_vector_ sample_state))
    as (sel' & Hrun & Hsel & _).
  - lia.
  - reflexivity.
  - reflexivity.
  - vm_compute. discriminate.
  - reflexivity.
  - vm_compute. lia.
  - exists sel'. split; [exact Hrun|]. rewrite Hsel. reflexivity.
Defined.

(** X8 at ten selected rows and the residual predicate on the quantity. *)
Lemma residual_pass_is_idempotent_sample :
  exists sel1 sel2,
    FilterRowsByPredicate_residual (Some (residual_code_of quantity_even)) 9
      100%nat sample_access 0 40
      (Vector.mk ([3; 7; 12; 15; 20; 21; 25; 30; 33; 38] ++ replicate 54 0) 10)
    = Some sel1
    /\ FilterRowsByPredicate_residual (Some (residual_code_of quantity_even)) 9
         100%nat sample_access 0 40 sel1
       = Some sel2
    /\ Vector.selected sel1 = [12; 20; 30; 38]
    /\ Vector.selected sel2 = [12; 20; 30; 38].
Proof.
  destruct (residual_pass_is_idempotent (Some quantity_even) 9 100%nat
              sample_access 0 40
              (Vector.mk
                 ([3; 7; 12; 15; 20; 21; 25; 30; 33; 38] ++ replicate 54 0) 10))
    as (sel1 & sel2 & Hrun1 & Hrun2 & Hsel & _).
  - vm_compute. split; discriminate.
  - reflexivity.
  - reflexivity.
  - vm_compute. lia.
  - exists sel1, sel2. split; [exact Hrun1|]. split; [exact Hrun2|].
    rewrite Hsel. vm_compute in Hrun1. injection Hrun1 as <-.
    split; reflexivity.
Defined.

(** X9 at the scan with the predicate price > NULL over the rows 0 to 39
    and row 35, a row of the remainder. *)
Lemma remainder_loop_drops_null_operand_rows_sample :
  exists rows st',
    first_pass sample_GetNullValue sample_GetComparison sample_cast_raw
      sample_undef [price_gt_null] 9 100%nat sample_access 0 40
      (selection_vector_ sample_state) = Some rows
    /\ (35 ∉ rows)
    /\ FilterRowsByPredicate_code sample_GetNullValue sample_GetComparison
         sample_cast_raw sample_undef orders_scan_null 9 100%nat sample_access
         0 40 sample_state = Some st'
    /\ (35 ∉ Vector.selected (selection_vector_ st')).
Proof.
  apply (remainder_loop_drops_null_operand_rows sample_GetNullValue
           sample_GetComparison sample_cast_raw sample_undef orders_scan_null 9
           (FilterRowsByPredicate_code sample_GetNullValue sample_GetComparison
              sample_cast_raw sample_undef orders_scan_null 9)
           100%nat sample_access 0 40 sample_state price_gt_null 35).
  - by rewrite FilterRowsByPredicate_result.
  - apply list_elem_of_here.
  - reflexivity.
  - vm_compute. discriminate.
  - lia.
  - reflexivity.
  - vm_compute. discriminate.
  - reflexivity.
  - vm_compute. lia.
Defined.

(** X13 at the scan of the orders, whose output columns are the price and
    the quantity, and a batch without accessors. *)
Lemma SetupRowBatch_adds_the_output_columns_sample :
  price ∈ RowBatch.attributes_
            (SetupRowBatch orders_scan (RowBatch.mk 9 0 40 true []))
  /\ quantity ∈ RowBatch.attributes_
                  (SetupRowBatch orders_scan (RowBatch.mk 9 0 40 true []))
  /\ NoDup (RowBatch.attributes_
              (SetupRowBatch orders_scan (RowBatch.mk 9 0 40 true []))).
Proof.
  destruct (SetupRowBatch_adds_the_output_columns orders_scan
              (RowBatch.mk 9 0 40 true []))
    as (Hin & _ & Hnd & _).
  - repeat constructor.
  - split; [|split].
    + apply Hin. right. exists 0%nat. split; [apply list_elem_of_here|done].
    + apply Hin. right. exists 1%nat.
      split; [apply list_elem_of_further, list_elem_of_here|done].
    + apply Hnd. constructor.
Defined.

(** X14 at the scan of price > 5 with the residual predicate on the
    quantity, over the rows 0 to 39. *)
Lemma predicate_filter_keeps_the_matching_rows_sample :
  exists st',
    FilterRowsByPredicate_code sample_GetNullValue sample_GetComparison
      sample_cast_raw sample_undef orders_scan_residual 9 100%nat sample_access
      0 40 sample_state = Some st'
    /\ Vector.selected (selection_vector_ st') = [12; 20; 30; 38].
Proof.
  destruct (predicate_filter_keeps_the_matching_rows sample_GetNullValue
              sample_GetComparison sample_cast_raw sample_undef
              sample_GetComparison_common sample_GetComparison_same
              sample_cast_raw_same orders_scan_residual 9
              (FilterRowsByPredicate_code sample_GetNullValue
                 sample_GetComparison sample_cast_raw sample_undef
                 orders_scan_residual 9)
              100%nat sample_access 0 40 sample_state)
    as (st' & Hrun & Hsel & _).
  - by rewrite FilterRowsByPredicate_result.
  - by eexists.
  - reflexivity.
  - lia.
  - reflexivity.
  - vm_compute. discriminate.
  - reflexivity.
  - vm_compute. lia.
  - exists st'. split; [exact Hrun|]. rewrite Hsel. reflexivity.
Defined.

(** X15 at the same scan and rows: row 12 matches and is not visible. *)
Lemma chunk_is_consumed_with_the_visible_matching_rows_sample :
  exists st',
    ProcessTuples_code sample_GetNullValue sample_GetComparison sample_cast_raw
      sample_undef sample_IsVisible orders_scan_residual 9 100%nat
      sample_access 0 40 sample_state = Some st'
    /\ Vector.selected (selection_vector_ st') = [20; 30; 38]
    /\ 12 ∉ Vector.selected (selection_vector_ st').
Proof.
  destruct (chunk_is_consumed_with_the_visible_matching_rows
              sample_GetNullValue sample_GetComparison sample_cast_raw
              sample_undef sample_IsVisible sample_GetComparison_common
              sample_GetComparison_same sample_cast_raw_same
              orders_scan_residual 9
              (ProcessTuples_code sample_GetNullValue sample_GetComparison
                 sample_cast_raw sample_undef sample_IsVisible
                 orders_scan_residual 9)
              100%nat sample_access 0 40 sample_state)
    as (st' & Hrun & Hsel & Hin & _).
  - by rewrite ProcessTuples_result.
  - reflexivity.
  - lia.
  - reflexivity.
  - vm_compute. discriminate.
  - reflexivity.
  - vm_compute. lia.
  - exists st'. split; [exact Hrun|]. split; [rewrite Hsel; reflexivity|].
    rewrite Hin. intros (_ & _ & Hvis). vm_compute in Hvis. discriminate Hvis.
Defined.

(** X16 at the predicates price > 5 and price < 5 over the rows 0 to 39:
    no row passes both. *)
Lemma simd_predicates_are_a_conjunction_sample :
  first_pass sample_GetNullValue sample_GetComparison sample_cast_raw
    sample_undef ([price_gt_5] ++ [price_lt_5]) 9 100%nat sample_access 0 40
    (selection_vector_ sample_state) = Some []
  /\ first_pass sample_GetNullValue sample_GetComparison sample_cast_raw
       sample_undef [price_gt_5] 9 100%nat sample_access 0 40
       (selection_vector_ sample_state)
     = Some [3; 7; 12; 15; 20; 21; 25; 30; 33; 38].
Proof.
  destruct (simd_predicates_are_a_conjunction sample_GetNullValue
              sample_GetComparison sample_cast_raw sample_undef
              sample_GetComparison_common sample_GetComparison_same
              sample_cast_raw_same [price_gt_5] [price_lt_5] 9 100%nat
              sample_access 0 40 (selection_vector_ sample_state))
    as [Hboth _].
  - reflexivity.
  - reflexivity.
  - lia.
  - reflexivity.
  - vm_compute. discriminate.
  - reflexivity.
  - vm_compute. lia.
  - split; [|vm_compute; reflexivity].
    rewrite Hboth. vm_compute. reflexivity.
Defined.
